(** * CourtTableAI: the debate orchestration engine and its provider adapter

    A shallow embedding of [pkg/orchestrator] (agent client and debate
    engine), [pkg/models] and the persistence calls the engine makes, with
    the properties the specification states about them.

    Go values are modelled as follows.
    - [string] is a byte string: Rocq's [string] (a list of [ascii]);
      [len(s)] is [String.length s] and [s[:n]] is [substring 0 n s].
    - [int] and [int64] are [Z]; no loop of the engine computes a value
      that could leave the 64-bit range, so no wrap-around is written.
    - [*int64] (nullable) is [option Z]; [error] is [option string] (the
      text of the error, [None] for [nil]).
    - The SQLite tables are finite maps from row id to record ([gmap]) and,
      for the discussion logs, the list of rows in insertion order.
    - [time.Time] fields and wall-clock measurements are left out: the
      latency of a call is whatever the adapter reports. *)

From Stdlib Require Import ZArith String Ascii List Bool Lia DecimalString.
From stdpp Require Import base option list gmap strings.

Import ListNotations.
Local Open Scope string_scope.
Local Open Scope Z_scope.

(** ** The fragment of Go's [strings] and [fmt] packages the code uses *)

Module strings.

(** [strings.HasPrefix]. *)
Definition HasPrefix (s prefix : string) : bool := String.prefix prefix s.

(** [strings.Contains]: some suffix of [s] starts with [substr]. *)
Fixpoint Contains (s substr : string) : bool :=
  if String.prefix substr s then true
  else match s with
       | EmptyString => false
       | String _ s' => Contains s' substr
       end.

(** [strings.HasSuffix]. *)
Definition HasSuffix (s suffix : string) : bool :=
  let n := String.length s in
  let k := String.length suffix in
  (k <=? n)%nat && String.eqb (substring (n - k) k s) suffix.

(** [strings.TrimSuffix]: drops one trailing [suffix] when present. *)
Definition TrimSuffix (s suffix : string) : string :=
  if HasSuffix s suffix
  then substring 0 (String.length s - String.length suffix) s
  else s.

(** The white space of [strings.TrimSpace] that fits in one byte: tab,
    line feed, vertical tab, form feed, carriage return and space.  The
    multi-byte Unicode spaces that Go also trims are not modelled. *)
Definition isSpace (c : ascii) : bool :=
  let n := nat_of_ascii c in
  ((9 <=? n)%nat && (n <=? 13)%nat) || (n =? 32)%nat.

Fixpoint TrimLeft (s : string) : string :=
  match s with
  | String c s' => if isSpace c then TrimLeft s' else s
  | EmptyString => EmptyString
  end.

Fixpoint TrimRight (s : string) : string :=
  match s with
  | String c s' =>
      match TrimRight s' with
      | EmptyString => if isSpace c then EmptyString else String c EmptyString
      | r => String c r
      end
  | EmptyString => EmptyString
  end.

(** [strings.TrimSpace]. *)
Definition TrimSpace (s : string) : string := TrimRight (TrimLeft s).

(** [strings.Split(s, sep)] for a one-byte separator, the only kind the
    engine passes: the pieces between the separators, at least one. *)
Fixpoint Split (s : string) (sep : ascii) : list string :=
  match s with
  | EmptyString => [EmptyString]
  | String c s' =>
      if Ascii.eqb c sep then EmptyString :: Split s' sep
      else match Split s' sep with
           | piece :: pieces => String c piece :: pieces
           | [] => [String c EmptyString]
           end
  end.

(** [strings.ToUpper] on the letters a-z; other bytes are kept. *)
Definition upperByte (c : ascii) : ascii :=
  let n := nat_of_ascii c in
  if ((97 <=? n)%nat && (n <=? 122)%nat) then ascii_of_nat (n - 32) else c.

Fixpoint ToUpper (s : string) : string :=
  match s with
  | String c s' => String (upperByte c) (ToUpper s')
  | EmptyString => EmptyString
  end.

End strings.

Module fmt.

(** The verb [%d] of [fmt.Sprintf] and [fmt.Sprint] on an integer. *)
Definition Sprint (n : Z) : string := NilZero.string_of_int (Z.to_int n).

End fmt.

(** The line feed byte, the escape [\n] of the source. *)
Definition LF : ascii := ascii_of_nat 10.
Definition nl : string := String LF EmptyString.

(** ** [pkg/models] *)

Module Agent.
Record t : Type := mk {
  ID : Z;
  Name : string;
  ProviderType : string;
  ProviderURL : string;
  APIToken : string;
  ModelName : string;
  TimeoutSeconds : Z
}.

Definition withID (a : t) (id : Z) : t :=
  mk id (Name a) (ProviderType a) (ProviderURL a) (APIToken a) (ModelName a)
     (TimeoutSeconds a).
End Agent.

Module Discussion.
Record t : Type := mk {
  ID : Z;
  Topic : string;
  FinalSummary : string;
  Status : string;
  AgentIDs : list Z;
  ModeratorID : option Z;
  MaxRounds : Z;
  Language : string;
  MaxCharLimit : Z
}.

Definition withStatus (d : t) (status : string) : t :=
  mk (ID d) (Topic d) (FinalSummary d) status (AgentIDs d) (ModeratorID d)
     (MaxRounds d) (Language d) (MaxCharLimit d).

Definition withFinalSummary (d : t) (summary : string) : t :=
  mk (ID d) (Topic d) summary (Status d) (AgentIDs d) (ModeratorID d)
     (MaxRounds d) (Language d) (MaxCharLimit d).

Definition withID (d : t) (id : Z) : t :=
  mk id (Topic d) (FinalSummary d) (Status d) (AgentIDs d) (ModeratorID d)
     (MaxRounds d) (Language d) (MaxCharLimit d).
End Discussion.

Module DiscussionLog.
Record t : Type := mk {
  ID : Z;
  DiscussionID : Z;
  AgentID : Z;
  Content : string;
  Status : string;
  ResponseTime : Z;
  IsModerator : bool
}.

Definition withID (l : t) (id : Z) : t :=
  mk id (DiscussionID l) (AgentID l) (Content l) (Status l)
     (ResponseTime l) (IsModerator l).
End DiscussionLog.

Module AgentResponse.
Record t : Type := mk {
  Content : string;
  Success : bool;
  ErrorMessage : string;
  ResponseTime : Z
}.
End AgentResponse.

(** What a call returns in Go: the response and the error. *)
Definition error : Type := option string.

(** ** The agent client ([AgentClient], the provider adapter) *)

Module AgentClient.

(** [detectProviderType]: the provider kind read off the URL. *)
Definition detectProviderType (url : string) : string :=
  if strings.Contains url "ollama" || strings.Contains url "localhost:11434"
  then "ollama"
  else if strings.Contains url "openai.com" then "openai"
  else if strings.Contains url "anthropic.com" then "anthropic"
  else if strings.Contains url "googleapis.com" then "google"
  else "custom".

(** [getChatEndpoints]: the prioritized list of chat endpoints. *)
Definition getChatEndpoints (agentURL : string) : list string :=
  let baseURL := strings.TrimSuffix (strings.TrimSpace agentURL) "/" in
  if strings.Contains baseURL "/chat/completions"
     || strings.Contains baseURL "/generate"
  then [baseURL]
  else if strings.HasSuffix baseURL "/v1"
  then [baseURL ++ "/chat/completions"]
  else [baseURL ++ "/v1/chat/completions";
        baseURL ++ "/chat/completions";
        baseURL].

(** A message of the chat format and the two request bodies the client
    marshals: [OpenAIRequest] (the field [Stream] is always false) and the
    prompt/model map of [callGenericCompletion]. *)
Record Message : Type := { Role : string; Content : string }.

Inductive Body : Type :=
| OpenAIRequest (Model : string) (Messages : list Message)
| GenericRequest (prompt model : string).

(** What one POST gives back: [RoundTripError] stands for an error of
    [http.NewRequestWithContext], [client.Do] or [io.ReadAll]. *)
Inductive HTTPResult : Type :=
| RoundTripError (err : string)
| Response (StatusCode : Z) (body : string).

(** [setAuthHeaders], as the headers it sets on the request. *)
Definition setAuthHeaders (agent : Agent.t) : list (string * string) :=
  let providerType := detectProviderType (Agent.ProviderURL agent) in
  let token := strings.TrimSpace (Agent.APIToken agent) in
  if String.eqb token "" then []
  else if String.eqb providerType "anthropic"
  then [("x-api-key", token); ("anthropic-version", "2023-06-01")]
  else if String.eqb providerType "google"
  then [("x-goog-api-key", token)]
  else [("Authorization", "Bearer " ++ token)].

(** The headers of a request of [callOpenAI] and [tryEndpoint]. *)
Definition requestHeaders (agent : Agent.t) : list (string * string) :=
  ("Content-Type", "application/json") :: setAuthHeaders agent.

(** The network and the JSON decoders, which the engine does not own.
    [Post headers endpoint body] sends [body] to [endpoint] with
    [headers]; [UnmarshalOpenAI] decodes an [OpenAIResponse] into the
    contents of its choices, or fails with the decoder's error;
    [ExtractGeneric] is the decoding and field probing of [tryEndpoint]. *)
Record Network : Type := {
  Post : list (string * string) -> string -> Body -> HTTPResult;
  UnmarshalOpenAI : string -> string + list string;
  ExtractGeneric : string -> string + string
}.

Definition StatusOK : Z := 200.

(** [%v] of an error value. *)
Definition showError (e : error) : string :=
  match e with Some msg => msg | None => "<nil>" end.

(** The loop of [callOpenAI] over the endpoints.  Next to the result it
    returns the endpoints it has sent a request to, in order. *)
Fixpoint tryChatEndpoints (net : Network) (agent : Agent.t) (jsonData : Body)
    (endpoints : list string) (lastErr : error)
  : list string * (AgentResponse.t * error) :=
  match endpoints with
  | [] =>
      ([], (AgentResponse.mk "" false
              ("Failed to call OpenAI-compatible API: " ++ showError lastErr) 0,
            lastErr))
  | endpoint :: rest =>
      let continue (e : string) :=
        let '(tried, r) := tryChatEndpoints net agent jsonData rest (Some e) in
        (endpoint :: tried, r) in
      match Post net (requestHeaders agent) endpoint jsonData with
      | RoundTripError err => continue err
      | Response StatusCode body =>
          if negb (StatusCode =? StatusOK)
          then continue ("API returned status " ++ fmt.Sprint StatusCode
                         ++ ": " ++ body)
          else match UnmarshalOpenAI net body with
               | inl err => continue err
               | inr [] => continue "no choices in response"
               | inr (content :: _) =>
                   ([endpoint], (AgentResponse.mk content true "" 0, None))
               end
      end
  end.

Definition chatMessages (prompt contextStr : string) : list Message :=
  [ if String.eqb contextStr ""
    then {| Role := "system";
            Content := "You are participating in a multi-agent debate. Please provide your response to the following:" |}
    else {| Role := "system";
            Content := "You are participating in a multi-agent debate. Here's the context from previous agents:"
                       ++ nl ++ contextStr ++ nl ++ nl
                       ++ "Please respond to the following:" |};
    {| Role := "user"; Content := prompt |} ].

(** [callOpenAI], with the endpoints it tried. *)
Definition callOpenAI_trace (net : Network) (agent : Agent.t)
    (prompt contextStr : string) : list string * (AgentResponse.t * error) :=
  let jsonData :=
    OpenAIRequest (Agent.ModelName agent) (chatMessages prompt contextStr) in
  tryChatEndpoints net agent jsonData
    (getChatEndpoints (Agent.ProviderURL agent)) None.

Definition callOpenAI (net : Network) (agent : Agent.t)
    (prompt contextStr : string) : AgentResponse.t * error :=
  snd (callOpenAI_trace net agent prompt contextStr).

(** [tryEndpoint]: one POST in the generic format. *)
Definition tryEndpoint (net : Network) (agent : Agent.t) (endpoint : string)
    (jsonData : Body) : option AgentResponse.t * error :=
  match Post net (requestHeaders agent) endpoint jsonData with
  | RoundTripError err => (None, Some err)
  | Response StatusCode body =>
      if negb (StatusCode =? StatusOK)
      then (None, Some ("endpoint " ++ endpoint ++ " returned status "
                        ++ fmt.Sprint StatusCode ++ ": " ++ body))
      else match ExtractGeneric net body with
           | inl err => (None, Some err)
           | inr content => (Some (AgentResponse.mk content true "" 0), None)
           end
  end.

(** [callGenericCompletion]: the single endpoint of the generic format. *)
Definition callGenericCompletion (net : Network) (agent : Agent.t)
    (prompt contextStr : string) : AgentResponse.t * error :=
  let fullPrompt :=
    if String.eqb contextStr "" then prompt
    else "Previous context from other agents:" ++ nl ++ contextStr
         ++ nl ++ nl ++ "Your task:" ++ nl ++ prompt in
  let jsonData := GenericRequest fullPrompt (Agent.ModelName agent) in
  let baseURL := strings.TrimSuffix (Agent.ProviderURL agent) "/v1" in
  match tryEndpoint net agent (baseURL ++ "/v1/chat/completions") jsonData with
  | (Some response, None) => (response, None)
  | _ => (AgentResponse.mk "" false "All endpoints failed for custom provider" 0,
          Some "custom provider unreachable")
  end.

(** [callCustom]: the chat format first, then the generic one. *)
Definition callCustom (net : Network) (agent : Agent.t)
    (prompt contextStr : string) : AgentResponse.t * error :=
  match callOpenAI net agent prompt contextStr with
  | (response, None) =>
      if AgentResponse.Success response then (response, None)
      else callGenericCompletion net agent prompt contextStr
  | _ => callGenericCompletion net agent prompt contextStr
  end.

(** The provider-specific calls [CallAgent] chooses from.  The three
    vendor formats are taken as given; the other two are the functions
    above. *)
Record Vendors : Type := {
  callOllama : Agent.t -> string -> string -> AgentResponse.t * error;
  callAnthropic : Agent.t -> string -> string -> AgentResponse.t * error;
  callGoogle : Agent.t -> string -> string -> AgentResponse.t * error
}.

Inductive Method : Type :=
| ViaOllama | ViaOpenAI | ViaAnthropic | ViaGoogle | ViaCustom.

(** The [switch providerType] of [CallAgent]. *)
Definition switchProviderType (providerType : string) : Method :=
  if String.eqb providerType "ollama" then ViaOllama
  else if String.eqb providerType "openai" then ViaOpenAI
  else if String.eqb providerType "anthropic" then ViaAnthropic
  else if String.eqb providerType "google" then ViaGoogle
  else ViaCustom.

(** The provider kind [CallAgent] works with for an agent. *)
Definition providerTypeOf (agent : Agent.t) : string :=
  detectProviderType (Agent.ProviderURL agent).

(** [CallAgent]; [responseTime] is the measured latency in milliseconds. *)
Definition CallAgent (net : Network) (vendors : Vendors) (responseTime : Z)
    (agent : Agent.t) (prompt contextStr : string) : AgentResponse.t * error :=
  let providerType := providerTypeOf agent in
  let '(response, err) :=
    match switchProviderType providerType with
    | ViaOllama => callOllama vendors agent prompt contextStr
    | ViaOpenAI => callOpenAI net agent prompt contextStr
    | ViaAnthropic => callAnthropic vendors agent prompt contextStr
    | ViaGoogle => callGoogle vendors agent prompt contextStr
    | ViaCustom => callCustom net agent prompt contextStr
    end in
  (AgentResponse.mk (AgentResponse.Content response)
     (AgentResponse.Success response) (AgentResponse.ErrorMessage response)
     responseTime,
   err).

End AgentClient.

(** ** The persistence calls of [pkg/database] the engine makes

    A table is the finite map of its rows by id ([discussion_logs]: the rows
    in insertion order, the order [GetDiscussionLogs] reads them back in)
    with the counter of its AUTOINCREMENT key.  A record read back carries
    the id of its row in its [ID] field.  A statement either finds its row or
    reports that it is missing; failures of the database file itself are
    outside the model. *)

Module database.

Record DB : Type := {
  agents : gmap Z Agent.t;
  discussions : gmap Z Discussion.t;
  discussions_seq : Z;
  discussion_logs : list DiscussionLog.t;
  discussion_logs_seq : Z
}.

Definition GetAgent (db : DB) (id : Z) : option Agent.t * error :=
  match agents db !! id with
  | Some agent => (Some (Agent.withID agent id), None)
  | None => (None, Some "agent not found")
  end.

Definition InsertDiscussion (db : DB) (discussion : Discussion.t)
  : DB * Discussion.t :=
  let id := discussions_seq db + 1 in
  let discussion := Discussion.withID discussion id in
  ({| agents := agents db;
      discussions := <[id := discussion]> (discussions db);
      discussions_seq := id;
      discussion_logs := discussion_logs db;
      discussion_logs_seq := discussion_logs_seq db |},
   discussion).

Definition GetDiscussion (db : DB) (id : Z) : option Discussion.t * error :=
  match discussions db !! id with
  | Some discussion => (Some (Discussion.withID discussion id), None)
  | None => (None, Some "discussion not found")
  end.

Definition UpdateDiscussion (db : DB) (discussion : Discussion.t)
  : DB * error :=
  match discussions db !! Discussion.ID discussion with
  | Some _ =>
      ({| agents := agents db;
          discussions :=
            <[Discussion.ID discussion := discussion]> (discussions db);
          discussions_seq := discussions_seq db;
          discussion_logs := discussion_logs db;
          discussion_logs_seq := discussion_logs_seq db |},
       None)
  | None => (db, Some "discussion not found")
  end.

Definition InsertDiscussionLog (db : DB) (log : DiscussionLog.t)
  : DB * DiscussionLog.t :=
  let id := discussion_logs_seq db + 1 in
  let log := DiscussionLog.withID log id in
  ({| agents := agents db;
      discussions := discussions db;
      discussions_seq := discussions_seq db;
      discussion_logs := discussion_logs db ++ [log];
      discussion_logs_seq := id |},
   log).

Definition GetDiscussionLogs (db : DB) (discussionID : Z)
  : list DiscussionLog.t :=
  List.filter (fun log => DiscussionLog.DiscussionID log =? discussionID)
    (discussion_logs db).

End database.

(** ** The debate engine ([DebateEngine], the turn scheduler) *)

Module DebateEngine.

Import database.

(** The double quote byte, which the source writes escaped. *)
Definition dq : string := String (ascii_of_nat 34) EmptyString.

(** Lines joined by line feeds, for the multi-line literals. *)
Definition text (lines : list string) : string := String.concat nl lines.

(** [buildPrompt]: the prompt of the first round. *)
Definition buildPrompt (discussion : Discussion.t) : string :=
  "You are an agent in a multi-agent debate about: " ++ dq
    ++ Discussion.Topic discussion ++ dq ++ nl ++ nl
  ++ "Language of discussion: " ++ Discussion.Language discussion ++ nl
  ++ "Maximum response length: "
    ++ fmt.Sprint (Discussion.MaxCharLimit discussion) ++ " characters" ++ nl ++ nl
  ++ "This is the first round. Please provide your initial perspective on this topic."
    ++ nl ++ nl
  ++ "Guidelines:" ++ nl
  ++ "- Provide a clear, thoughtful response" ++ nl
  ++ "- Consider multiple perspectives" ++ nl
  ++ "- Be specific and provide reasoning" ++ nl
  ++ "- DO NOT EXCEED " ++ fmt.Sprint (Discussion.MaxCharLimit discussion)
    ++ " CHARACTERS" ++ nl
  ++ "- RESPOND ONLY IN " ++ strings.ToUpper (Discussion.Language discussion) ++ nl.

(** [buildRoundPrompt]: the prompt of the later rounds. *)
Definition buildRoundPrompt (discussion : Discussion.t)
    (round agentNum totalAgents : Z) : string :=
  "This is Round " ++ fmt.Sprint round ++ " of the debate about: " ++ dq
    ++ Discussion.Topic discussion ++ dq ++ nl ++ nl
  ++ "Language of discussion: " ++ Discussion.Language discussion ++ nl
  ++ "Maximum response length: "
    ++ fmt.Sprint (Discussion.MaxCharLimit discussion) ++ " characters" ++ nl ++ nl
  ++ "You are Agent #" ++ fmt.Sprint agentNum
    ++ ". Please respond to the previous arguments from other agents." ++ nl ++ nl
  ++ "Guidelines:" ++ nl
  ++ "- Address specific points made by other agents" ++ nl
  ++ "- Defend or modify your position based on new information" ++ nl
  ++ "- Find common ground where possible" ++ nl
  ++ "- Move the discussion toward resolution" ++ nl
  ++ "- DO NOT EXCEED " ++ fmt.Sprint (Discussion.MaxCharLimit discussion)
    ++ " CHARACTERS" ++ nl
  ++ "- RESPOND ONLY IN " ++ strings.ToUpper (Discussion.Language discussion) ++ nl.

(** [buildModeratorPrompt]. *)
Definition buildModeratorPrompt (discussion : Discussion.t)
    (moderatorType contextStr : string) : string :=
  let topic := Discussion.Topic discussion in
  let lang := Discussion.Language discussion in
  let limit := Discussion.MaxCharLimit discussion in
  let basePrompt :=
    "You are the moderator for a multi-agent debate on: " ++ dq ++ topic ++ dq ++ nl
    ++ "Language: " ++ lang ++ nl
    ++ "Max length: " ++ fmt.Sprint limit ++ " characters" ++ nl ++ nl in
  let closingLine :=
    "RESPOND ONLY IN " ++ strings.ToUpper lang ++ ". DO NOT EXCEED "
    ++ fmt.Sprint limit ++ " CHARACTERS." in
  if String.eqb moderatorType "opening" then
    basePrompt ++ text [
      "Your role is to:";
      "1. Welcome participants and set the tone";
      "2. Briefly explain the debate format and rules";
      "3. Remind agents to be respectful and constructive";
      "4. Introduce the topic and initial considerations";
      "";
      "Please provide a concise opening statement (2-3 paragraphs). ";
      closingLine ]
  else if String.eqb moderatorType "interim" then
    basePrompt ++ text [
      "An agent just responded with:";
      "";
      dq ++ contextStr ++ dq;
      "";
      "Your role is to:";
      "1. Briefly acknowledge the key points made";
      "2. Keep the discussion focused and on track";
      "3. Encourage the next agent to build upon or challenge these points";
      "4. Maintain a respectful and constructive tone";
      "";
      "Please provide a brief moderation comment (1-2 paragraphs).";
      closingLine ]
  else if String.eqb moderatorType "round_summary" then
    basePrompt ++ text [
      "Round completed.";
      "";
      "Your role is to:";
      "1. Summarize the key arguments and perspectives from this round";
      "2. Highlight areas of agreement and disagreement";
      "3. Point out any logical fallacies or particularly strong arguments";
      "4. Set up the next round of discussion";
      "";
      "Please provide a concise round summary (2-3 paragraphs).";
      closingLine ]
  else if String.eqb moderatorType "closing" then
    basePrompt ++ text [
      "The debate has concluded. Your role is to:";
      "1. Provide a balanced summary of all positions presented";
      "2. Identify the strongest arguments and key insights";
      "3. Highlight areas of consensus and remaining disagreement";
      "4. Offer final thoughts on the topic and the quality of the discussion";
      "";
      "Please provide a comprehensive closing statement (3-4 paragraphs).";
      closingLine ]
  else
    basePrompt ++ "Please provide appropriate moderation in " ++ lang
    ++ ". DO NOT EXCEED " ++ fmt.Sprint limit ++ " CHARACTERS.".

(** [getModeratorRole]. *)
Definition getModeratorRole (moderatorType : string) : string :=
  if String.eqb moderatorType "opening" then "Opening Remarks"
  else if String.eqb moderatorType "interim" then "Interim Moderation"
  else if String.eqb moderatorType "round_summary" then "Round Summary"
  else if String.eqb moderatorType "closing" then "Closing Remarks"
  else "Moderation".

(** The loop [for i := 0; i < 5 && i < len(lines); i++] of
    [generateSummary], from index [i] on; [fuel] bounds the iterations
    (five suffice, the index stops at 5). *)
Fixpoint keyPoints (fuel : nat) (i : nat) (lines : list string)
    (summary : string) : string :=
  match fuel with
  | O => summary
  | S fuel' =>
      if (i <? 5)%nat && (i <? length lines)%nat then
        let line := nth i lines "" in
        let summary :=
          if negb (String.eqb (strings.TrimSpace line) "")
          then summary ++ "- " ++ strings.TrimSpace line ++ nl
          else summary in
        keyPoints fuel' (S i) lines summary
      else summary
  end.

(** [generateSummary]. *)
Definition generateSummary (topic context : string) : string :=
  if String.eqb context "" then
    "No responses were generated during this debate."
  else
    let summary := "Debate Summary for: " ++ topic ++ nl ++ nl in
    let summary :=
      summary ++ "The debate involved multiple AI agents discussing this topic. " in
    let summary :=
      summary ++ "Each agent provided their perspective and responded to others' arguments. " in
    let summary :=
      summary ++ "For detailed discussion, please review the individual agent responses."
              ++ nl ++ nl in
    let lines := strings.Split context LF in
    if (5 <? length lines)%nat then
      let summary := summary ++ "Key points discussed:" ++ nl in
      let summary := keyPoints 5 0 lines summary in
      if (5 <? length lines)%nat
      then summary ++ "... (see full discussion for more details)"
      else summary
    else summary.

(** *** The adapter seen from the engine, and what a run leaves behind

    Each call of [de.agentClient.CallAgent] may answer differently, also on
    the same arguments; the adapter is therefore a function of the number
    of calls the run has made before, next to the agent, the prompt and
    the context string.  It always hands back a response, as every branch
    of [AgentClient.CallAgent] does. *)
Definition Adapter : Type :=
  nat -> Agent.t -> string -> string -> AgentResponse.t * error.

(** Who is asked: participant [index] (from 0) of round [round], or the
    moderator for an interjection of kind [moderatorType]. *)
Inductive Speaker : Type :=
| Participant (round : Z) (index : nat)
| Moderator (moderatorType : string).

(** One call of the adapter by the engine, with what it was given, what
    it answered and the log entry stored for it ([None] when the run
    stopped with a panic before storing one). *)
Record Call : Type := {
  speaker : Speaker;
  callee : Agent.t;
  prompt : string;
  contextStr : string;
  response : AgentResponse.t;
  err : error;
  logEntry : option DiscussionLog.t
}.

(** The state a run threads through: the database, the [strings.Builder]
    [debateContext], and the adapter calls made so far, oldest first. *)
Record Run : Type := {
  db : DB;
  debateContext : string;
  calls : list Call
}.

(** The result of a piece of the run: it returns, or a run-time panic
    unwinds the goroutine up to the deferred [recover]. *)
Inductive Exec (A : Type) : Type :=
| Returned (a : A) (st : Run)
| Panicked (st : Run).
Arguments Returned {A} a st.
Arguments Panicked {A} st.

(** [callModerator]. *)
Definition callModerator (adapter : Adapter) (discussion : Discussion.t)
    (moderator : Agent.t) (moderatorType contextStr : string) (st : Run)
  : bool * Run :=
  let prompt := buildModeratorPrompt discussion moderatorType contextStr in
  let '(response, err) := adapter (length (calls st)) moderator prompt "" in
  let '(status, content) :=
    match err with
    | Some e => ("error", "Moderator Error: " ++ e)
    | None =>
        if negb (AgentResponse.Success response)
        then ("error", "Moderator Error: " ++ AgentResponse.ErrorMessage response)
        else ("success",
              "[Moderator - " ++ getModeratorRole moderatorType ++ "]" ++ nl
              ++ AgentResponse.Content response)
    end in
  let logEntry :=
    DiscussionLog.mk 0 (Discussion.ID discussion) (Agent.ID moderator)
      content status (AgentResponse.ResponseTime response) true in
  let '(db', logEntry) := InsertDiscussionLog (db st) logEntry in
  (String.eqb (DiscussionLog.Status logEntry) "success",
   {| db := db';
      debateContext := debateContext st;
      calls := calls st ++ [ {| speaker := Moderator moderatorType;
                                callee := moderator;
                                prompt := prompt;
                                contextStr := "";
                                response := response;
                                err := err;
                                logEntry := Some logEntry |} ] |}).

(** [callModerator] when a moderator is configured, nothing otherwise. *)
Definition moderate (adapter : Adapter) (discussion : Discussion.t)
    (moderator : option Agent.t) (moderatorType contextStr : string)
    (st : Run) : Run :=
  match moderator with
  | Some m => snd (callModerator adapter discussion m moderatorType contextStr st)
  | None => st
  end.

(** The block a successful turn appends to [debateContext]. *)
Definition contextBlock (round : Z) (agent : Agent.t) (content : string)
  : string :=
  "Round " ++ fmt.Sprint round ++ " - Agent " ++ Agent.Name agent
  ++ " (" ++ fmt.Sprint (Agent.ID agent) ++ "):" ++ nl ++ content.

Definition appendContext (debateContext block : string) : string :=
  if (0 <? String.length debateContext)%nat
  then debateContext ++ nl ++ nl ++ block
  else debateContext ++ block.

(** The body of the loop over the agents in [executeDebate]: one
    participant turn and the interim interjection after it.  It returns
    whether the turn set [roundActive].  The slice expression
    [content[:discussion.MaxCharLimit]] panics when the limit is
    negative. *)
Definition participantTurn (adapter : Adapter) (discussion : Discussion.t)
    (moderator : option Agent.t) (round : Z) (i : nat) (totalAgents : nat)
    (agent : Agent.t) (st : Run) : Exec bool :=
  let prompt :=
    if 1 <? round
    then buildRoundPrompt discussion round (Z.of_nat i + 1) (Z.of_nat totalAgents)
    else buildPrompt discussion in
  let '(response, err) :=
    adapter (length (calls st)) agent prompt (debateContext st) in
  let call (logEntry : option DiscussionLog.t) : Call :=
    {| speaker := Participant round i;
       callee := agent;
       prompt := prompt;
       contextStr := debateContext st;
       response := response;
       err := err;
       logEntry := logEntry |} in
  let store (status content : string) (debateContext : string)
      (roundActive : bool) : Exec bool :=
    let logEntry :=
      DiscussionLog.mk 0 (Discussion.ID discussion) (Agent.ID agent)
        content status (AgentResponse.ResponseTime response) false in
    let '(db', logEntry) := InsertDiscussionLog (db st) logEntry in
    let st := {| db := db';
                 debateContext := debateContext;
                 calls := calls st ++ [call (Some logEntry)] |} in
    let st :=
      if Z.of_nat i <? Z.of_nat totalAgents - 1
      then moderate adapter discussion moderator "interim"
             (AgentResponse.Content response) st
      else st in
    Returned roundActive st in
  match err with
  | Some e => store "error" ("Error: " ++ e) (debateContext st) false
  | None =>
      if negb (AgentResponse.Success response)
      then store "error" ("Error: " ++ AgentResponse.ErrorMessage response)
             (debateContext st) false
      else
        let content := AgentResponse.Content response in
        let limit := Discussion.MaxCharLimit discussion in
        if limit <? Z.of_nat (String.length content)
        then
          if limit <? 0
          then Panicked {| db := db st;
                           debateContext := debateContext st;
                           calls := calls st ++ [call None] |}
          else
            let content := substring 0 (Z.to_nat limit) content in
            store "success" content
              (appendContext (debateContext st) (contextBlock round agent content))
              true
        else
          store "success" content
            (appendContext (debateContext st) (contextBlock round agent content))
            true
  end.

(** [for i, agent := range agents], from index [i] on. *)
Fixpoint agentsLoop (adapter : Adapter) (discussion : Discussion.t)
    (moderator : option Agent.t) (round : Z) (totalAgents : nat) (i : nat)
    (agents : list Agent.t) (roundActive : bool) (st : Run) : Exec bool :=
  match agents with
  | [] => Returned roundActive st
  | agent :: rest =>
      match participantTurn adapter discussion moderator round i totalAgents
              agent st with
      | Panicked st' => Panicked st'
      | Returned active st' =>
          agentsLoop adapter discussion moderator round totalAgents (S i) rest
            (roundActive || active) st'
      end
  end.

(** [for round := 1; round <= maxRounds; round++], from [round] on, with
    [remaining] the number of rounds left, [maxRounds - round + 1].  It
    returns [roundCount]. *)
Fixpoint roundsLoop (adapter : Adapter) (discussion : Discussion.t)
    (moderator : option Agent.t) (agents : list Agent.t) (remaining : nat)
    (round roundCount : Z) (st : Run) : Exec Z :=
  match remaining with
  | O => Returned roundCount st
  | S remaining' =>
      match agentsLoop adapter discussion moderator round (length agents) 0
              agents false st with
      | Panicked st' => Panicked st'
      | Returned roundActive st' =>
          let st' :=
            moderate adapter discussion moderator "round_summary"
              ("Round " ++ fmt.Sprint round ++ " completed") st' in
          if negb roundActive then Returned roundCount st'
          else roundsLoop adapter discussion moderator agents remaining'
                 (round + 1) (roundCount + 1) st'
      end
  end.

(** The round bound [executeDebate] works with. *)
Definition effectiveMaxRounds (discussion : Discussion.t) : Z :=
  if Discussion.MaxRounds discussion <=? 0 then 3
  else Discussion.MaxRounds discussion.

(** [executeDebate], the goroutine [RunDebate] starts: it returns the
    discussion record as the goroutine leaves it and the final state. *)
Definition executeDebate (adapter : Adapter) (discussion : Discussion.t)
    (agents : list Agent.t) (moderator : option Agent.t) (db0 : DB)
  : Discussion.t * Run :=
  let st := {| db := db0; debateContext := ""; calls := [] |} in
  let st := moderate adapter discussion moderator "opening" "" st in
  let maxRounds := effectiveMaxRounds discussion in
  match roundsLoop adapter discussion moderator agents (Z.to_nat maxRounds)
          1 1 st with
  | Panicked st =>
      (* the deferred function after recover() *)
      let discussion := Discussion.withStatus discussion "failed" in
      (discussion,
       {| db := fst (UpdateDiscussion (db st) discussion);
          debateContext := debateContext st;
          calls := calls st |})
  | Returned _ st =>
      let st := moderate adapter discussion moderator "closing" "" st in
      let summary :=
        generateSummary (Discussion.Topic discussion) (debateContext st) in
      let discussion := Discussion.withFinalSummary discussion summary in
      let discussion := Discussion.withStatus discussion "completed" in
      let db1 := fst (UpdateDiscussion (db st) discussion) in
      (* the deferred function: the status is no longer running *)
      let discussion :=
        if String.eqb (Discussion.Status discussion) "running"
        then Discussion.withStatus discussion "completed"
        else discussion in
      (discussion,
       {| db := fst (UpdateDiscussion db1 discussion);
          debateContext := debateContext st;
          calls := calls st |})
  end.

(** *** The entry points *)

(** [getAgents]: one lookup per id.  The source runs the lookups in
    goroutines and collects the agents in the order they finish; the model
    keeps the order of the ids.  Every failed lookup sends its error; the
    first one received is returned. *)
Definition getAgents (db : DB) (agentIDs : list Z)
  : option (list Agent.t) * error :=
  let results := List.map (GetAgent db) agentIDs in
  let agents := omap fst results in
  let errors := omap snd results in
  match errors with
  | e :: _ => (None, Some e)
  | [] =>
      if negb (length agents =? length agentIDs)%nat
      then (None, Some ("only found " ++ fmt.Sprint (Z.of_nat (length agents))
                        ++ " out of " ++ fmt.Sprint (Z.of_nat (length agentIDs))
                        ++ " agents"))
      else (Some agents, None)
  end.

(** What [RunDebate] hands to the goroutine it starts. *)
Record Started : Type := {
  startedDiscussion : Discussion.t;
  startedAgents : list Agent.t;
  startedModerator : option Agent.t
}.

(** [RunDebate], up to the [go] statement. *)
Definition RunDebate (db : DB) (topic : string) (agentIDs : list Z)
    (moderatorID : option Z) (maxRounds : Z) (language : string)
    (maxCharLimit : Z) : DB * (option Started * error) :=
  match getAgents db agentIDs with
  | (Some agents, None) =>
      let create (moderator : option Agent.t) :=
        let discussion :=
          Discussion.mk 0 topic "" "running" agentIDs moderatorID maxRounds
            language maxCharLimit in
        let '(db', discussion) := InsertDiscussion db discussion in
        (db', (Some {| startedDiscussion := discussion;
                       startedAgents := agents;
                       startedModerator := moderator |}, None)) in
      match moderatorID with
      | Some id =>
          match GetAgent db id with
          | (Some moderator, None) => create (Some moderator)
          | (_, e) =>
              (db, (None, Some ("failed to verify moderator: "
                                ++ AgentClient.showError e)))
          end
      | None => create None
      end
  | (_, e) =>
      (db, (None, Some ("failed to verify agents: " ++ AgentClient.showError e)))
  end.

(** [StopDiscussion]. *)
Definition StopDiscussion (db : DB) (discussionID : Z) : DB * error :=
  match GetDiscussion db discussionID with
  | (Some discussion, None) =>
      if negb (String.eqb (Discussion.Status discussion) "running")
      then (db, Some "discussion is not running")
      else UpdateDiscussion db (Discussion.withStatus discussion "completed")
  | (_, e) =>
      (db, Some ("failed to get discussion: " ++ AgentClient.showError e))
  end.

(** The context [RetryFailedAgent] rebuilds from the stored entries. *)
Fixpoint retryContext (logs : list DiscussionLog.t) (contextBuilder : string)
  : string :=
  match logs with
  | [] => contextBuilder
  | log :: rest =>
      if String.eqb (DiscussionLog.Status log) "success"
      then retryContext rest
             ((if (0 <? String.length contextBuilder)%nat
               then contextBuilder ++ nl ++ nl else contextBuilder)
              ++ DiscussionLog.Content log)
      else retryContext rest contextBuilder
  end.

(** [RetryFailedAgent]; [call] is the one adapter call it makes. *)
Definition RetryFailedAgent
    (call : Agent.t -> string -> string -> AgentResponse.t * error)
    (db : DB) (discussionID agentID : Z) : DB * error :=
  match GetDiscussion db discussionID with
  | (Some discussion, None) =>
      if negb (String.eqb (Discussion.Status discussion) "running")
      then (db, Some "discussion is not running")
      else
        match GetAgent db agentID with
        | (Some agent, None) =>
            let logs := GetDiscussionLogs db discussionID in
            let prompt := buildPrompt discussion in
            let '(response, err) := call agent prompt (retryContext logs "") in
            let '(status, content) :=
              match err with
              | Some e => ("error", "Retry failed: " ++ e)
              | None =>
                  if negb (AgentResponse.Success response)
                  then ("error",
                        "Retry failed: " ++ AgentResponse.ErrorMessage response)
                  else ("success", AgentResponse.Content response)
              end in
            let logEntry :=
              DiscussionLog.mk 0 discussionID agentID content status
                (AgentResponse.ResponseTime response) false in
            (fst (InsertDiscussionLog db logEntry), None)
        | (_, e) =>
            (db, Some ("failed to get agent: " ++ AgentClient.showError e))
        end
  | (_, e) =>
      (db, Some ("failed to get discussion: " ++ AgentClient.showError e))
  end.

End DebateEngine.

(** ** Further code of the repository

    The helpers of the agent client that the calls above do not use, its
    reachability probes, the remaining entry points of the engine, and the
    template helpers of [cmd]. *)

(** The slice expression [s[lo:hi]] on a string: the bytes from [lo] up to
    [hi], or a run-time panic ([None]) when the bounds are out of range. *)
Definition sliceString (s : string) (lo hi : Z) : option string :=
  if (0 <=? lo) && (lo <=? hi) && (hi <=? Z.of_nat (String.length s))
  then Some (substring (Z.to_nat lo) (Z.to_nat (hi - lo)) s)
  else None.

Module AgentClientHelpers.

(** The loop of [findSubstring] from index [i] on, with [remaining] the
    number of indexes left up to [len(s)-len(substr)]. *)
Fixpoint findSubstringFrom (remaining : nat) (i : Z) (s substr : string)
  : option bool :=
  match remaining with
  | O => Some false
  | S remaining' =>
      match sliceString s i (i + Z.of_nat (String.length substr)) with
      | None => None
      | Some piece =>
          if String.eqb piece substr then Some true
          else findSubstringFrom remaining' (i + 1) s substr
      end
  end.

(** [findSubstring]: [for i := 0; i <= len(s)-len(substr); i++]. *)
Definition findSubstring (s substr : string) : option bool :=
  findSubstringFrom
    (Z.to_nat (Z.of_nat (String.length s) - Z.of_nat (String.length substr) + 1))
    0 s substr.

(** [contains], with the short-circuit order of its conditions. *)
Definition contains (s substr : string) : option bool :=
  let n := Z.of_nat (String.length s) in
  let k := Z.of_nat (String.length substr) in
  if negb (k <=? n) then Some false
  else if String.eqb s substr then Some true
  else if negb (k <? n) then Some false
  else
    match sliceString s 0 k with
    | None => None
    | Some head =>
        if String.eqb head substr then Some true
        else
          match sliceString s (n - k) n with
          | None => None
          | Some tail =>
              if String.eqb tail substr then Some true
              else findSubstring s substr
          end
    end.

End AgentClientHelpers.

(** *** The reachability probes of the agent client *)

Module AgentClientPing.

(** The body of a probe: none for a GET, the prompt/model map of
    [pingCustom], or the one-token message of [pingAnthropic]. *)
Inductive Payload : Type :=
| NoBody
| HiPrompt (model : string)
| TestMessage (model : string).

(** The network as a probe sees it: method, headers, endpoint and body
    give a transport error or a status code with a body. *)
Definition Transport : Type :=
  string -> list (string * string) -> string -> Payload ->
  AgentClient.HTTPResult.

Definition StatusBadRequest : Z := 400.

(** The GET probes of [pingOllama], [pingOpenAI] and [pingGoogle], which
    differ in the endpoint only.  A request that cannot be built is not
    told apart from one that cannot be sent. *)
Definition pingGet (do : Transport) (agent : Agent.t) (endpoint : string)
  : error :=
  match do "GET" (AgentClient.requestHeaders agent) endpoint NoBody with
  | AgentClient.RoundTripError err => Some ("ping failed: " ++ err)
  | AgentClient.Response StatusCode _ =>
      if negb (StatusCode =? AgentClient.StatusOK)
      then Some ("ping returned status " ++ fmt.Sprint StatusCode)
      else None
  end.

Definition pingOllama (do : Transport) (agent : Agent.t) : error :=
  pingGet do agent (Agent.ProviderURL agent ++ "/api/tags").

Definition pingOpenAI (do : Transport) (agent : Agent.t) : error :=
  pingGet do agent
    (if negb (strings.Contains (Agent.ProviderURL agent) "/v1")
     then Agent.ProviderURL agent ++ "/v1/models"
     else Agent.ProviderURL agent ++ "/models").

Definition pingGoogle (do : Transport) (agent : Agent.t) : error :=
  pingGet do agent
    (if negb (strings.Contains (Agent.ProviderURL agent)
                "generativelanguage.googleapis.com")
     then Agent.ProviderURL agent ++ "/v1beta/models"
     else Agent.ProviderURL agent ++ "/models").

(** [pingAnthropic]. *)
Definition pingAnthropic (do : Transport) (agent : Agent.t) : error :=
  let endpoint :=
    if negb (strings.Contains (Agent.ProviderURL agent) "/v1")
    then Agent.ProviderURL agent ++ "/v1/messages"
    else Agent.ProviderURL agent ++ "/messages" in
  match do "POST" (AgentClient.requestHeaders agent) endpoint
          (TestMessage (Agent.ModelName agent)) with
  | AgentClient.RoundTripError err => Some ("anthropic ping failed: " ++ err)
  | AgentClient.Response StatusCode _ =>
      if (StatusCode =? AgentClient.StatusOK) || (StatusCode =? StatusBadRequest)
      then None
      else Some ("anthropic ping returned status " ++ fmt.Sprint StatusCode)
  end.

(** [tryPingEndpoint]. *)
Definition tryPingEndpoint (do : Transport) (agent : Agent.t)
    (endpoint : string) (jsonData : Payload) : bool :=
  match do "POST" (AgentClient.requestHeaders agent) endpoint jsonData with
  | AgentClient.RoundTripError _ => false
  | AgentClient.Response StatusCode _ =>
      (200 <=? StatusCode) && (StatusCode <? 300)
  end.

(** The loop of [pingCustom] over the endpoints. *)
Fixpoint pingEndpoints (do : Transport) (agent : Agent.t) (jsonData : Payload)
    (endpoints : list string) : error :=
  match endpoints with
  | [] => Some "custom provider ping failed - no endpoints responded"
  | endpoint :: rest =>
      if tryPingEndpoint do agent endpoint jsonData then None
      else pingEndpoints do agent jsonData rest
  end.

(** [pingCustom]. *)
Definition pingCustom (do : Transport) (agent : Agent.t) : error :=
  pingEndpoints do agent (HiPrompt (Agent.ModelName agent))
    (AgentClient.getChatEndpoints (Agent.ProviderURL agent)).

(** [Ping]. *)
Definition Ping (do : Transport) (agent : Agent.t) : error :=
  let providerType := AgentClient.detectProviderType (Agent.ProviderURL agent) in
  match AgentClient.switchProviderType providerType with
  | AgentClient.ViaOllama => pingOllama do agent
  | AgentClient.ViaOpenAI => pingOpenAI do agent
  | AgentClient.ViaAnthropic => pingAnthropic do agent
  | AgentClient.ViaGoogle => pingGoogle do agent
  | AgentClient.ViaCustom => pingCustom do agent
  end.

End AgentClientPing.

(** *** The remaining entry points of the engine *)

Module DebateEngineQueries.

(** [PingAgent]. *)
Definition PingAgent (do : AgentClientPing.Transport) (db : database.DB)
    (agentID : Z) : error :=
  match database.GetAgent db agentID with
  | (Some agent, None) => AgentClientPing.Ping do agent
  | (_, e) => Some ("failed to get agent: " ++ AgentClient.showError e)
  end.


End DebateEngineQueries.

(** *** The template helpers of [cmd] *)

Module templates.

(** [substr]: the bytes of [s] from [start], at most [length[0]] of them
    when a length is given; [None] is the panic of the slice expression. *)
Definition substr (s : string) (start : Z) (length : list Z) : option string :=
  let start := if start <? 0 then 0 else start in
  if Z.of_nat (String.length s) <=? start then Some ""
  else
    let end_ :=
      match length with
      | l :: _ =>
          if start + l <? Z.of_nat (String.length s) then start + l
          else Z.of_nat (String.length s)
      | [] => Z.of_nat (String.length s)
      end in
    sliceString s start end_.

(** [getProviderType]: the provider label the pages show for a URL. *)
Definition getProviderType (url : string) : string :=
  if strings.Contains url "openai.com" then "OpenAI"
  else if strings.Contains url "anthropic.com" then "Anthropic"
  else if strings.Contains url "googleapis.com" then "Google"
  else if strings.Contains url "localhost:11434" || strings.Contains url "ollama"
  then "Ollama"
  else "Custom".

(** [getProviderDisplay]: the configured kind in title case when there is
    one, the label of the URL otherwise.  [Title] is [strings.Title]. *)
Definition getProviderDisplay (Title : string -> string) (agent : Agent.t)
  : string :=
  if negb (String.eqb (Agent.ProviderType agent) "")
  then Title (Agent.ProviderType agent)
  else
    let url := Agent.ProviderURL agent in
    if strings.Contains url "openai.com" then "OpenAI"
    else if strings.Contains url "anthropic.com" then "Anthropic"
    else if strings.Contains url "googleapis.com" then "Google"
    else if strings.Contains url "localhost:11434" || strings.Contains url "ollama"
    then "Ollama"
    else "Custom".

End templates.

(** *** The subscribers of the engine *)

Module DebateEngineSubscribers.

(** What [broadcast] is called with: a stored entry, or the record of the
    debate when it ends. *)
Inductive Update :=
| LogUpdate (logEntry : DiscussionLog.t)
| DiscussionUpdate (discussion : Discussion.t).

(** A buffered channel: the pending values, oldest first, the capacity it
    was made with, and whether it has been closed. *)
Record Chan := {
  buffer : list Update;
  capacity : nat;
  closed : bool
}.

(** The [subscribers] map of the engine, with the channels it refers to.
    A channel value is the index of the channel in [channels]; an index
    outside [channels] behaves as the nil channel. *)
Record t := {
  subscribers : gmap Z (list nat);
  channels : list Chan
}.

(** [NewDebateEngine]: no subscribers. *)
Definition NewDebateEngine : t :=
  {| subscribers := ∅; channels := [] |}.

(** [de.subscribers[discussionID]]: the nil slice for a missing key. *)
Definition subscribersOf (de : t) (discussionID : Z) : list nat :=
  default [] (subscribers de !! discussionID).

(** [Subscribe]: a new channel of capacity 10, appended to the subscribers
    of the discussion and returned. *)
Definition Subscribe (de : t) (discussionID : Z) : t * nat :=
  let ch := length (channels de) in
  ({| subscribers :=
        <[discussionID := (subscribersOf de discussionID ++ [ch])%list]>
          (subscribers de);
      channels :=
        (channels de
         ++ [{| buffer := []; capacity := 10; closed := false |}])%list |},
   ch).

(** The index of the first element of [subs] equal to [ch]. *)
Fixpoint indexOf (ch : nat) (subs : list nat) : option nat :=
  match subs with
  | [] => None
  | sub :: rest =>
      if Nat.eqb sub ch then Some 0%nat else option_map S (indexOf ch rest)
  end.

(** [close(ch)]: [None] is the panic for a closed or nil channel. *)
Definition close (chans : list Chan) (ch : nat) : option (list Chan) :=
  match chans !! ch with
  | Some c =>
      if closed c then None
      else Some (<[ch := {| buffer := buffer c; capacity := capacity c;
                            closed := true |}]> chans)
  | None => None
  end.

(** [Unsubscribe]: the first occurrence of [ch] among the subscribers of the
    discussion is removed and the channel closed; nothing happens when it
    is not there. *)
Definition Unsubscribe (de : t) (discussionID : Z) (ch : nat) : option t :=
  let subs := subscribersOf de discussionID in
  match indexOf ch subs with
  | Some i =>
      match close (channels de) ch with
      | Some chans =>
          Some {| subscribers :=
                    <[discussionID := (take i subs ++ drop (S i) subs)%list]>
                      (subscribers de);
                  channels := chans |}
      | None => None
      end
  | None => Some de
  end.

(** The [select] of [broadcast]: a send that does not block.  A full buffer
    (or the nil channel) takes the default branch; [None] is the panic of a
    send on a closed channel. *)
Definition send (chans : list Chan) (ch : nat) (data : Update)
  : option (list Chan) :=
  match chans !! ch with
  | Some c =>
      if closed c then None
      else if Nat.ltb (length (buffer c)) (capacity c)
           then Some (<[ch := {| buffer := (buffer c ++ [data])%list;
                                 capacity := capacity c;
                                 closed := false |}]> chans)
           else Some chans
  | None => Some chans
  end.

(** The loop of [broadcast]. *)
Fixpoint sendAll (subs : list nat) (chans : list Chan) (data : Update)
  : option (list Chan) :=
  match subs with
  | [] => Some chans
  | ch :: rest =>
      match send chans ch data with
      | Some chans' => sendAll rest chans' data
      | None => None
      end
  end.

(** [broadcast]. *)
Definition broadcast (de : t) (discussionID : Z) (data : Update) : option t :=
  match sendAll (subscribersOf de discussionID) (channels de) data with
  | Some chans => Some {| subscribers := subscribers de; channels := chans |}
  | None => None
  end.

End DebateEngineSubscribers.

(** ** Vocabulary of the statements *)

(** The agent [agent] with its configured kind replaced by [kind]. *)
Definition withProviderType (agent : Agent.t) (kind : string) : Agent.t :=
  Agent.mk (Agent.ID agent) (Agent.Name agent) kind (Agent.ProviderURL agent)
    (Agent.APIToken agent) (Agent.ModelName agent) (Agent.TimeoutSeconds agent).

(** An endpoint answers a chat request acceptably: status 200 and a body
    that decodes to at least one choice. *)
Definition accepts (net : AgentClient.Network) (agent : Agent.t)
    (jsonData : AgentClient.Body) (endpoint : string) : bool :=
  match AgentClient.Post net (AgentClient.requestHeaders agent) endpoint jsonData with
  | AgentClient.RoundTripError _ => false
  | AgentClient.Response StatusCode body =>
      (StatusCode =? 200)
      && match AgentClient.UnmarshalOpenAI net body with
         | inr (_ :: _) => true
         | _ => false
         end
  end.

(** The elements of a list up to and including the first that satisfies
    [p], all of them when none does. *)
Fixpoint upToFirst {A : Type} (p : A -> bool) (l : list A) : list A :=
  match l with
  | [] => []
  | x :: l' => if p x then [x] else x :: upToFirst p l'
  end.

(** The fixed opening of a summary: the header naming the topic and the
    explanatory sentences. *)
Definition summaryPreamble (topic : string) : string :=
  "Debate Summary for: " ++ topic ++ nl ++ nl
  ++ "The debate involved multiple AI agents discussing this topic. "
  ++ "Each agent provided their perspective and responded to others' arguments. "
  ++ "For detailed discussion, please review the individual agent responses."
  ++ nl ++ nl.

Definition nonBlank (line : string) : bool :=
  negb (String.eqb (strings.TrimSpace line) "").

Definition bullet (line : string) : string :=
  "- " ++ strings.TrimSpace line ++ nl.

Definition bullets (lines : list string) : string :=
  fold_right String.append "" (List.map bullet (List.filter nonBlank lines)).

(** *** Runs of the engine *)

Import DebateEngine.

(** The call is a participant turn. *)
Definition isParticipant (c : Call) : bool :=
  match speaker c with
  | Participant _ _ => true
  | Moderator _ => false
  end.

(** The adapter answered the call with success: no error and a response
    flagged successful. *)
Definition succeeded (c : Call) : bool :=
  match err c with
  | Some _ => false
  | None => AgentResponse.Success (response c)
  end.

(** The log entries stored for a list of calls. *)
Definition entriesOf (cs : list Call) : list DiscussionLog.t :=
  omap logEntry cs.

(** The transcript after one more call: the stored content of a participant
    turn that succeeded is appended under its header; a failed turn and a
    moderator interjection leave the transcript as it is. *)
Definition addToTranscript (transcript : string) (c : Call) : string :=
  match speaker c, logEntry c with
  | Participant round _, Some entry =>
      if String.eqb (DiscussionLog.Status entry) "success"
      then appendContext transcript
             (contextBlock round (callee c) (DiscussionLog.Content entry))
      else transcript
  | _, _ => transcript
  end.

(** The transcript of a list of calls, oldest first. *)
Definition transcriptOf (cs : list Call) : string :=
  fold_left addToTranscript cs "".

(** What the engine does around one call [c] made when the context is
    [context] and [made] calls came before: it asks the adapter with that
    context (the moderator with none) and stores an entry that reflects the
    answer, or panics on a successful answer under a negative limit. *)
Definition wellFormedCall (adapter : Adapter) (discussion : Discussion.t)
    (made : nat) (context : string) (c : Call) : Prop :=
  contextStr c = (if isParticipant c then context else "")
  /\ adapter made (callee c) (prompt c) (contextStr c) = (response c, err c)
  /\ match logEntry c with
     | Some entry =>
         DiscussionLog.Status entry
         = (if succeeded c then "success" else "error")
         /\ DiscussionLog.IsModerator entry = negb (isParticipant c)
         /\ DiscussionLog.DiscussionID entry = Discussion.ID discussion
         /\ DiscussionLog.AgentID entry = Agent.ID (callee c)
         /\ (isParticipant c = true -> succeeded c = true ->
             Z.of_nat (String.length (DiscussionLog.Content entry))
             <= Discussion.MaxCharLimit discussion)
     | None =>
         isParticipant c = true /\ succeeded c = true
         /\ Discussion.MaxCharLimit discussion < 0
     end.

(** The state [st'] is the state [st] after the call [c]. *)
Definition Appended (adapter : Adapter) (discussion : Discussion.t)
    (st : Run) (c : Call) (st' : Run) : Prop :=
  calls st' = (calls st ++ [c])%list
  /\ debateContext st' = addToTranscript (debateContext st) c
  /\ database.discussion_logs (db st')
     = (database.discussion_logs (db st) ++ entriesOf [c])%list
  /\ database.discussions (db st') = database.discussions (db st)
  /\ database.agents (db st') = database.agents (db st)
  /\ wellFormedCall adapter discussion (length (calls st)) (debateContext st) c.

(** The state [st'] is the state [st] after the calls [new], in order. *)
Inductive Steps (adapter : Adapter) (discussion : Discussion.t)
  : Run -> list Call -> Run -> Prop :=
| Steps_nil (st : Run) : Steps adapter discussion st [] st
| Steps_cons (st st1 st' : Run) (c : Call) (new : list Call) :
    Appended adapter discussion st c st1 ->
    Steps adapter discussion st1 new st' ->
    Steps adapter discussion st (c :: new) st'.

(** The state a piece of the run ends in, returned or panicked. *)
Definition runOf {A : Type} (e : Exec A) : Run :=
  match e with
  | Returned _ st => st
  | Panicked st => st
  end.

(** The participant turns among a list of calls, as (round, index). *)
Definition turnsOf (cs : list Call) : list (Z * nat) :=
  omap (fun c => match speaker c with
                 | Participant round i => Some (round, i)
                 | Moderator _ => None
                 end) cs.

(** The outcome of a log entry is success or error, so not timeout. *)
Definition successOrError (entry : DiscussionLog.t) : Prop :=
  (DiscussionLog.Status entry = "success"
   \/ DiscussionLog.Status entry = "error")
  /\ DiscussionLog.Status entry <> "timeout".

(** [substr] is found at index [j] of [s]. *)
Definition matchAt (s substr : string) (j : nat) : bool :=
  String.eqb (substring j (String.length substr) s) substr.

(** The label the pages show for a provider kind of the client. *)
Definition providerLabel (kind : string) : string :=
  if String.eqb kind "ollama" then "Ollama"
  else if String.eqb kind "openai" then "OpenAI"
  else if String.eqb kind "anthropic" then "Anthropic"
  else if String.eqb kind "google" then "Google"
  else "Custom".

(** The entry is stored with the status success. *)
Definition isSuccess (entry : DiscussionLog.t) : bool :=
  String.eqb (DiscussionLog.Status entry) "success".

(** The pieces [pieces], each behind a blank line. *)
Definition afterBlankLines (pieces : list string) : string :=
  fold_right (fun piece rest => nl ++ nl ++ piece ++ rest) "" pieces.

(** *** The order of the turns *)

(** A participant turn: the round it belongs to, the agent that was asked
    and whether the adapter answered with success. *)
Record Turn : Type := {
  turnRound : Z;
  turnAgent : Agent.t;
  turnOk : bool
}.

Definition turnTaken (c : Call) : option Turn :=
  match speaker c with
  | Participant round _ =>
      Some {| turnRound := round; turnAgent := callee c;
              turnOk := succeeded c |}
  | Moderator _ => None
  end.

(** The participant turns among a list of calls, oldest first. *)
Definition turnsTaken (cs : list Call) : list Turn :=
  omap turnTaken cs.

(** Who is asked in [rounds] rounds from round [first] on: every agent, in
    the order of the list, round after round. *)
Definition schedule (agents : list Agent.t) (first : Z) (rounds : nat)
  : list (Z * Agent.t) :=
  flat_map (fun j => List.map (pair (first + Z.of_nat j)) agents)
    (seq 0 rounds).

Definition slotOf (t : Turn) : Z * Agent.t := (turnRound t, turnAgent t).

(** The sentence of a prompt that states the character limit. *)
Definition limitNotice (discussion : Discussion.t) : string :=
  "DO NOT EXCEED " ++ fmt.Sprint (Discussion.MaxCharLimit discussion)
  ++ " CHARACTERS".

(** *** The users of the subscriber lists *)

(** The users of the subscriber list: the engine's three operations, and a
    reader taking the oldest pending value from a channel. *)
Inductive Op :=
| DoSubscribe (discussionID : Z)
| DoUnsubscribe (discussionID : Z) (ch : nat)
| DoBroadcast (discussionID : Z) (data : DebateEngineSubscribers.Update)
| DoReceive (ch : nat).

Definition receive (chans : list DebateEngineSubscribers.Chan) (ch : nat)
  : list DebateEngineSubscribers.Chan :=
  match chans !! ch with
  | Some c =>
      <[ch := {| DebateEngineSubscribers.buffer :=
                   tail (DebateEngineSubscribers.buffer c);
                 DebateEngineSubscribers.capacity :=
                   DebateEngineSubscribers.capacity c;
                 DebateEngineSubscribers.closed :=
                   DebateEngineSubscribers.closed c |}]> chans
  | None => chans
  end.

Definition perform (de : DebateEngineSubscribers.t) (op : Op)
  : option DebateEngineSubscribers.t :=
  match op with
  | DoSubscribe discussionID =>
      Some (fst (DebateEngineSubscribers.Subscribe de discussionID))
  | DoUnsubscribe discussionID ch =>
      DebateEngineSubscribers.Unsubscribe de discussionID ch
  | DoBroadcast discussionID data =>
      DebateEngineSubscribers.broadcast de discussionID data
  | DoReceive ch =>
      Some {| DebateEngineSubscribers.subscribers :=
                DebateEngineSubscribers.subscribers de;
              DebateEngineSubscribers.channels :=
                receive (DebateEngineSubscribers.channels de) ch |}
  end.

Fixpoint performAll (de : DebateEngineSubscribers.t) (ops : list Op)
  : option DebateEngineSubscribers.t :=
  match ops with
  | [] => Some de
  | op :: rest =>
      match perform de op with
      | Some de' => performAll de' rest
      | None => None
      end
  end.

(** The states the engine can be in: those some sequence of operations
    leads to from the new engine. *)
Definition reachable (de : DebateEngineSubscribers.t) : Prop :=
  exists ops, performAll DebateEngineSubscribers.NewDebateEngine ops = Some de.

(** A channel as [broadcast] leaves it: with [data] behind the pending values
    when there was room, as it was when there was none. *)
Definition delivered (data : DebateEngineSubscribers.Update)
    (c : DebateEngineSubscribers.Chan) : DebateEngineSubscribers.Chan :=
  if Nat.ltb (length (DebateEngineSubscribers.buffer c))
       (DebateEngineSubscribers.capacity c)
  then {| DebateEngineSubscribers.buffer :=
            (DebateEngineSubscribers.buffer c ++ [data])%list;
          DebateEngineSubscribers.capacity :=
            DebateEngineSubscribers.capacity c;
          DebateEngineSubscribers.closed := false |}
  else c.
(** What every reachable state satisfies: a subscribed channel exists and is
    open, it is subscribed once and to one discussion, and every channel
    was made with capacity 10 and holds no more. *)
Record subscribersInv (de : DebateEngineSubscribers.t) : Prop := {
  inv_open : forall id subs i ch,
    DebateEngineSubscribers.subscribers de !! id = Some subs -> subs !! i = Some ch ->
    exists c, DebateEngineSubscribers.channels de !! ch = Some c /\ DebateEngineSubscribers.closed c = false;
  inv_once : forall id1 id2 subs1 subs2 i j ch,
    DebateEngineSubscribers.subscribers de !! id1 = Some subs1 -> subs1 !! i = Some ch ->
    DebateEngineSubscribers.subscribers de !! id2 = Some subs2 -> subs2 !! j = Some ch ->
    id1 = id2 /\ i = j;
  inv_capacity : forall ch c,
    DebateEngineSubscribers.channels de !! ch = Some c ->
    DebateEngineSubscribers.capacity c = 10%nat /\ (length (DebateEngineSubscribers.buffer c) <= 10)%nat
}.

(** ** Concrete inputs of the examples *)

(** An agent configured as openai behind a local Ollama URL. *)
Definition localAgent : Agent.t :=
  Agent.mk 1 "Local" "openai" "http://localhost:11434" "" "llama3" 30.

(** A network on which every endpoint answers 200 with one choice. *)
Definition friendlyNet : AgentClient.Network :=
  {| AgentClient.Post := fun _ _ _ => AgentClient.Response 200 "ok";
     AgentClient.UnmarshalOpenAI := fun body => inr [body];
     AgentClient.ExtractGeneric := fun body => inr body |}.

Definition customAgent : Agent.t :=
  Agent.mk 2 "Custom" "custom" "http://h" "" "m" 30.

(** A transcript of one successful turn: a header line and one line of
    content. *)
Definition shortTranscript : string :=
  "Round 1 - Agent A (1):" ++ nl ++ "hello".

(** A database with the agents 1 and 2 and nothing else. *)
Definition twoAgents : database.DB :=
  {| database.agents :=
       <[1 := Agent.mk 1 "A" "" "http://a" "" "m" 30]>
         (<[2 := Agent.mk 2 "B" "" "http://b" "" "m" 30]> ∅);
     database.discussions := ∅;
     database.discussions_seq := 0;
     database.discussion_logs := [];
     database.discussion_logs_seq := 0 |}.

(** An adapter that always answers with the content M, successfully. *)
Definition chatty : Adapter :=
  fun _ _ _ _ => (AgentResponse.mk "M" true "" 5, None).

(** An adapter on which every call fails with a transport error. *)
Definition unreachable : Adapter :=
  fun _ _ _ _ => (AgentResponse.mk "" false "connection refused" 5,
                  Some "context deadline exceeded").

Definition agentA : Agent.t := Agent.mk 1 "A" "" "http://a" "" "m" 30.
Definition agentB : Agent.t := Agent.mk 2 "B" "" "http://b" "" "m" 30.
Definition agentM : Agent.t := Agent.mk 9 "Mod" "" "http://m" "" "m" 30.

(** A running debate of one round with a limit of 100 characters, and the
    database that holds it next to the agents 1 and 2. *)
Definition oneRound : Discussion.t :=
  Discussion.mk 1 "T" "" "running" [1; 2] None 1 "English" 100.

Definition threeRounds : Discussion.t :=
  Discussion.mk 1 "T" "" "running" [1; 2] None 3 "English" 100.

Definition debateDB : database.DB :=
  {| database.agents := database.agents twoAgents;
     database.discussions := <[1 := threeRounds]> ∅;
     database.discussions_seq := 1;
     database.discussion_logs := [];
     database.discussion_logs_seq := 0 |}.

(** A running debate whose character limit is negative. *)
Definition negativeLimit : Discussion.t :=
  Discussion.mk 1 "T" "" "running" [1; 2] None 3 "English" (-1).

(** A running debate with a limit of 5 characters, its database, and an
    agent that answers with ten characters. *)
Definition limitFive : Discussion.t :=
  Discussion.mk 1 "T" "" "running" [1; 2] (Some 9) 1 "English" 5.

Definition retryDB : database.DB :=
  {| database.agents := <[9 := agentM]> (database.agents twoAgents);
     database.discussions := <[1 := limitFive]> ∅;
     database.discussions_seq := 1;
     database.discussion_logs := [];
     database.discussion_logs_seq := 0 |}.

Definition tenCharacters
  : Agent.t -> string -> string -> AgentResponse.t * error :=
  fun _ _ _ => (AgentResponse.mk "abcdefghij" true "" 5, None).

(** A stored entry of discussion 1. *)
Definition oneEntry : DiscussionLog.t :=
  DiscussionLog.mk 1 1 1 "hello" "success" 5 false.

(** ** Facts about byte strings *)

#[local] Arguments String.append !s1 s2 : simpl nomatch.
#[local] Arguments String.length !s : simpl nomatch.

Lemma append_assoc (a b c : string) : (a ++ b) ++ c = a ++ (b ++ c).
Proof. induction a as [|x a IH]; simpl; [reflexivity | now rewrite IH]. Qed.

Lemma append_nil_r (a : string) : a ++ "" = a.
Proof. induction a as [|x a IH]; simpl; [reflexivity | now rewrite IH]. Qed.

Lemma length_append (a b : string) :
  String.length (a ++ b) = (String.length a + String.length b)%nat.
Proof. induction a as [|x a IH]; simpl; [reflexivity | now rewrite IH]. Qed.

Lemma prefix_append (a b : string) : String.prefix a (a ++ b) = true.
Proof.
  induction a as [|x a IH]; simpl.
  - now destruct b.
  - destruct (ascii_dec x x) as [_|n]; [exact IH | now elim n].
Qed.

Lemma Contains_here (s rest : string) : strings.Contains (s ++ rest) s = true.
Proof.
  destruct s as [|x s]; simpl.
  - now destruct rest.
  - destruct (ascii_dec x x) as [_|n]; [| now elim n].
    now rewrite prefix_append.
Qed.

Lemma Contains_skip (a s sub : string) :
  strings.Contains s sub = true -> strings.Contains (a ++ s) sub = true.
Proof.
  intros H. induction a as [|x a IH]; [exact H |].
  change (String x a ++ s) with (String x (a ++ s)).
  cbn [strings.Contains].
  destruct (String.prefix sub (String x (a ++ s))); [reflexivity | exact IH].
Qed.

Lemma Contains_middle (a s b : string) :
  strings.Contains (a ++ s ++ b) s = true.
Proof. apply Contains_skip, Contains_here. Qed.

Lemma Contains_refl (s : string) : strings.Contains s s = true.
Proof. rewrite <- (append_nil_r s) at 1. apply Contains_here. Qed.

Lemma prefix_append_r (sub s t : string) :
  String.prefix sub s = true -> String.prefix sub (s ++ t) = true.
Proof.
  revert s. induction sub as [|x sub IH]; intros s H.
  - now destruct (s ++ t).
  - destruct s as [|y s]; [discriminate H |].
    cbn in *. destruct (ascii_dec x y); [now apply IH | discriminate H].
Qed.

Lemma Contains_append_r (s t sub : string) :
  strings.Contains s sub = true -> strings.Contains (s ++ t) sub = true.
Proof.
  induction s as [|x s IH]; intros H.
  - cbn in H. destruct sub; [| discriminate H]. now destruct t.
  - change (String x s ++ t) with (String x (s ++ t)).
    cbn [strings.Contains] in *.
    destruct (String.prefix sub (String x s)) eqn:Hp.
    + change (String x (s ++ t)) with (String x s ++ t).
      now rewrite (prefix_append_r _ _ t Hp).
    + destruct (String.prefix sub (String x (s ++ t))); [reflexivity |].
      now apply IH.
Qed.

(** ** The provider adapter *)

Section ProviderAdapter.

Variable net : AgentClient.Network.
Variable vendors : AgentClient.Vendors.

(** The kind detected from a URL is one of the five the switch knows. *)
Lemma detectProviderType_range (url : string) :
  In (AgentClient.detectProviderType url)
     ["ollama"; "openai"; "anthropic"; "google"; "custom"].
Proof.
  unfold AgentClient.detectProviderType.
  repeat match goal with
         | |- context [if ?b then _ else _] => destruct b
         end; simpl; tauto.
Qed.

(** [CallAgent] is the call selected by the kind detected from the URL,
    stamped with the latency. *)
Lemma CallAgent_dispatch (responseTime : Z) (agent : Agent.t)
    (prompt contextStr : string) :
  AgentClient.CallAgent net vendors responseTime agent prompt contextStr
  = let '(response, err) :=
      match AgentClient.switchProviderType
              (AgentClient.detectProviderType (Agent.ProviderURL agent)) with
      | AgentClient.ViaOllama =>
          AgentClient.callOllama vendors agent prompt contextStr
      | AgentClient.ViaOpenAI =>
          AgentClient.callOpenAI net agent prompt contextStr
      | AgentClient.ViaAnthropic =>
          AgentClient.callAnthropic vendors agent prompt contextStr
      | AgentClient.ViaGoogle =>
          AgentClient.callGoogle vendors agent prompt contextStr
      | AgentClient.ViaCustom =>
          AgentClient.callCustom net agent prompt contextStr
      end in
    (AgentResponse.mk (AgentResponse.Content response)
       (AgentResponse.Success response)
       (AgentResponse.ErrorMessage response) responseTime, err).
Proof. reflexivity. Qed.

(** The calls of this client read the URL, the token and the model of an
    agent, never its configured kind. *)
Lemma tryChatEndpoints_withProviderType (agent : Agent.t) (kind : string)
    (jsonData : AgentClient.Body) (endpoints : list string) (lastErr : error) :
  AgentClient.tryChatEndpoints net (withProviderType agent kind) jsonData
    endpoints lastErr
  = AgentClient.tryChatEndpoints net agent jsonData endpoints lastErr.
Proof.
  revert lastErr. induction endpoints as [|endpoint rest IH]; intros lastErr.
  - reflexivity.
  - cbn [AgentClient.tryChatEndpoints].
    change (AgentClient.requestHeaders (withProviderType agent kind))
      with (AgentClient.requestHeaders agent).
    destruct (AgentClient.Post net (AgentClient.requestHeaders agent)
                endpoint jsonData) as [e|code body].
    + now rewrite IH.
    + destruct (negb (code =? AgentClient.StatusOK)); [now rewrite IH |].
      destruct (AgentClient.UnmarshalOpenAI net body) as [e|[|content cs]];
        try reflexivity; now rewrite IH.
Qed.

Lemma callOpenAI_withProviderType (agent : Agent.t) (kind : string)
    (prompt contextStr : string) :
  AgentClient.callOpenAI net (withProviderType agent kind) prompt contextStr
  = AgentClient.callOpenAI net agent prompt contextStr.
Proof.
  unfold AgentClient.callOpenAI, AgentClient.callOpenAI_trace.
  now rewrite tryChatEndpoints_withProviderType.
Qed.

Lemma callCustom_withProviderType (agent : Agent.t) (kind : string)
    (prompt contextStr : string) :
  AgentClient.callCustom net (withProviderType agent kind) prompt contextStr
  = AgentClient.callCustom net agent prompt contextStr.
Proof.
  unfold AgentClient.callCustom.
  now rewrite callOpenAI_withProviderType.
Qed.

(** C1, as the code has it: the provider kind [CallAgent] works with is
    the one detected from the substrings of the agent's URL (ollama or
    localhost:11434, openai.com, anthropic.com, googleapis.com, otherwise
    custom), whatever provider kind the agent has configured: the same call
    is selected for every configured kind, and where the selected call is
    the chat-completion or the custom one of this client, its result is
    the same too. *)
Theorem CallAgent_kind_from_url_only (agent : Agent.t) (kind : string)
    (responseTime : Z) (prompt contextStr : string) :
  AgentClient.providerTypeOf (withProviderType agent kind)
  = AgentClient.detectProviderType (Agent.ProviderURL agent)
  /\ match AgentClient.switchProviderType
             (AgentClient.detectProviderType (Agent.ProviderURL agent)) with
     | AgentClient.ViaOpenAI | AgentClient.ViaCustom =>
         AgentClient.CallAgent net vendors responseTime
           (withProviderType agent kind) prompt contextStr
         = AgentClient.CallAgent net vendors responseTime agent prompt contextStr
     | _ =>
         AgentClient.switchProviderType
           (AgentClient.providerTypeOf (withProviderType agent kind))
         = AgentClient.switchProviderType (AgentClient.providerTypeOf agent)
     end
  /\ (let url := Agent.ProviderURL agent in
      AgentClient.providerTypeOf (withProviderType agent kind)
      = if strings.Contains url "ollama"
           || strings.Contains url "localhost:11434" then "ollama"
        else if strings.Contains url "openai.com" then "openai"
        else if strings.Contains url "anthropic.com" then "anthropic"
        else if strings.Contains url "googleapis.com" then "google"
        else "custom").
Proof.
  split; [reflexivity | split; [| reflexivity]].
  rewrite !CallAgent_dispatch. cbn [Agent.ProviderURL withProviderType].
  destruct (AgentClient.switchProviderType
              (AgentClient.detectProviderType (Agent.ProviderURL agent)));
    try reflexivity.
  - now rewrite callOpenAI_withProviderType.
  - now rewrite callCustom_withProviderType.
Qed.

End ProviderAdapter.

(** C1, as stated, fails: an agent whose configured kind is openai and whose
    URL names localhost:11434 is handled as ollama. *)
Lemma CallAgent_redetects_configured_kind :
  ~ (forall agent : Agent.t,
        Agent.ProviderType agent <> "" ->
        AgentClient.providerTypeOf agent = Agent.ProviderType agent).
Proof.
  intros H. specialize (H localAgent).
  assert (Hk : Agent.ProviderType localAgent <> "") by discriminate.
  specialize (H Hk). vm_compute in H. discriminate H.
Qed.

(** ** Endpoint resolution *)

Section Endpoints.

Variable net : AgentClient.Network.

(** The loop of [callOpenAI] sends requests to the endpoints in list
    order and stops at the first one that answers acceptably. *)
Lemma tryChatEndpoints_upToFirst (agent : Agent.t)
    (jsonData : AgentClient.Body) (endpoints : list string) (lastErr : error) :
  fst (AgentClient.tryChatEndpoints net agent jsonData endpoints lastErr)
  = upToFirst (accepts net agent jsonData) endpoints.
Proof.
  revert lastErr. induction endpoints as [|endpoint rest IH]; intros lastErr.
  - reflexivity.
  - cbn [AgentClient.tryChatEndpoints upToFirst]. unfold accepts at 1.
    destruct (AgentClient.Post net (AgentClient.requestHeaders agent)
                endpoint jsonData) as [e|code body].
    + specialize (IH (Some e)).
      destruct (AgentClient.tryChatEndpoints net agent jsonData rest (Some e)).
      cbn in *. now rewrite IH.
    + unfold AgentClient.StatusOK.
      destruct (code =? 200); cbn [negb andb].
      * destruct (AgentClient.UnmarshalOpenAI net body) as [e|[|content cs]].
        -- specialize (IH (Some e)).
           destruct (AgentClient.tryChatEndpoints net agent jsonData rest
                       (Some e)).
           cbn in *. now rewrite IH.
        -- match goal with
           | |- context [AgentClient.tryChatEndpoints _ _ _ _ ?e] =>
               specialize (IH e);
               destruct (AgentClient.tryChatEndpoints net agent jsonData rest e)
           end.
           cbn in *. now rewrite IH.
        -- reflexivity.
      * match goal with
        | |- context [AgentClient.tryChatEndpoints _ _ _ _ ?e] =>
            specialize (IH e);
            destruct (AgentClient.tryChatEndpoints net agent jsonData rest e)
        end.
        cbn in *. now rewrite IH.
Qed.

(** The call succeeds exactly when some endpoint answers acceptably. *)
Lemma tryChatEndpoints_success (agent : Agent.t)
    (jsonData : AgentClient.Body) (endpoints : list string) (lastErr : error) :
  AgentResponse.Success
    (fst (snd (AgentClient.tryChatEndpoints net agent jsonData endpoints lastErr)))
  = existsb (accepts net agent jsonData) endpoints.
Proof.
  revert lastErr. induction endpoints as [|endpoint rest IH]; intros lastErr.
  - reflexivity.
  - cbn [AgentClient.tryChatEndpoints existsb]. unfold accepts at 1.
    destruct (AgentClient.Post net (AgentClient.requestHeaders agent)
                endpoint jsonData) as [e|code body].
    + specialize (IH (Some e)).
      destruct (AgentClient.tryChatEndpoints net agent jsonData rest (Some e)).
      cbn in *. exact IH.
    + unfold AgentClient.StatusOK.
      destruct (code =? 200); cbn [negb andb orb].
      * destruct (AgentClient.UnmarshalOpenAI net body) as [e|[|content cs]].
        -- specialize (IH (Some e)).
           destruct (AgentClient.tryChatEndpoints net agent jsonData rest
                       (Some e)).
           cbn in *. exact IH.
        -- match goal with
           | |- context [AgentClient.tryChatEndpoints _ _ _ _ ?e] =>
               specialize (IH e);
               destruct (AgentClient.tryChatEndpoints net agent jsonData rest e)
           end.
           cbn in *. exact IH.
        -- reflexivity.
      * match goal with
        | |- context [AgentClient.tryChatEndpoints _ _ _ _ ?e] =>
            specialize (IH e);
            destruct (AgentClient.tryChatEndpoints net agent jsonData rest e)
        end.
        cbn in *. exact IH.
Qed.

(** C4, as the code has it: for a base URL (the configured URL without
    surrounding white space and one trailing slash) that is not a complete
    endpoint and does not end in /v1, the chat-completion call, which the
    custom kind runs first, tries base + /v1/chat/completions, then base +
    /chat/completions, then the bare base URL, in this order; it stops at
    the first endpoint that answers with status 200 and a body that decodes
    to at least one choice, and succeeds exactly when there is one. *)
Theorem callOpenAI_endpoint_priority (agent : Agent.t)
    (prompt contextStr : string) :
  let baseURL :=
    strings.TrimSuffix (strings.TrimSpace (Agent.ProviderURL agent)) "/" in
  let jsonData :=
    AgentClient.OpenAIRequest (Agent.ModelName agent)
      (AgentClient.chatMessages prompt contextStr) in
  strings.Contains baseURL "/chat/completions" = false ->
  strings.Contains baseURL "/generate" = false ->
  strings.HasSuffix baseURL "/v1" = false ->
  AgentClient.getChatEndpoints (Agent.ProviderURL agent)
  = [baseURL ++ "/v1/chat/completions"; baseURL ++ "/chat/completions"; baseURL]
  /\ fst (AgentClient.callOpenAI_trace net agent prompt contextStr)
     = upToFirst (accepts net agent jsonData)
         [baseURL ++ "/v1/chat/completions";
          baseURL ++ "/chat/completions";
          baseURL]
  /\ AgentResponse.Success
       (fst (AgentClient.callOpenAI net agent prompt contextStr))
     = existsb (accepts net agent jsonData)
         [baseURL ++ "/v1/chat/completions";
          baseURL ++ "/chat/completions";
          baseURL].
Proof.
  intros baseURL jsonData Hchat Hgen Hv1.
  assert (Heps : AgentClient.getChatEndpoints (Agent.ProviderURL agent)
                 = [baseURL ++ "/v1/chat/completions";
                    baseURL ++ "/chat/completions"; baseURL]).
  { unfold AgentClient.getChatEndpoints. fold baseURL.
    now rewrite Hchat, Hgen, Hv1. }
  split; [exact Heps | split].
  - unfold AgentClient.callOpenAI_trace. fold jsonData.
    now rewrite tryChatEndpoints_upToFirst, Heps.
  - unfold AgentClient.callOpenAI, AgentClient.callOpenAI_trace. fold jsonData.
    now rewrite tryChatEndpoints_success, Heps.
Qed.

End Endpoints.

Lemma callOpenAI_endpoint_priority_witness :
  fst (AgentClient.callOpenAI_trace friendlyNet customAgent "p" "")
  = ["http://h/v1/chat/completions"].
Proof.
  destruct (callOpenAI_endpoint_priority friendlyNet customAgent "p" "")
    as (_ & Htrace & _); [reflexivity | reflexivity | reflexivity |].
  rewrite Htrace. reflexivity.
Defined.

(** C4, as stated, fails: the first endpoint tried for http://h is
    http://h/v1/chat/completions, not http://h/chat/completions. *)
Lemma endpoint_priority_differs :
  ~ (forall (net : AgentClient.Network) (agent : Agent.t) (prompt contextStr : string),
        let baseURL :=
          strings.TrimSuffix (strings.TrimSpace (Agent.ProviderURL agent)) "/" in
        strings.Contains baseURL "/chat/completions" = false ->
        strings.Contains baseURL "/generate" = false ->
        exists tried,
          (fst (AgentClient.callOpenAI_trace net agent prompt contextStr)
           ++ tried)%list
          = [baseURL ++ "/chat/completions";
             baseURL ++ "/v1/chat/completions";
             baseURL]).
Proof.
  intros H.
  destruct (H friendlyNet customAgent "p" "") as [tried Htried];
    [reflexivity | reflexivity |].
  vm_compute in Htried. discriminate Htried.
Qed.

(** ** The final summary *)

Lemma skipn_nth {A : Type} (d : A) (l : list A) (i : nat) :
  (i < length l)%nat -> skipn i l = nth i l d :: skipn (S i) l.
Proof.
  revert i. induction l as [|x l IH]; intros i Hi; simpl in Hi; [lia |].
  destruct i as [|i]; [reflexivity |].
  cbn [skipn nth]. apply IH. lia.
Qed.

Lemma bullets_cons (line : string) (lines : list string) :
  bullets (line :: lines)
  = if nonBlank line then bullet line ++ bullets lines else bullets lines.
Proof. unfold bullets. cbn [List.filter]. now destruct (nonBlank line). Qed.

(** The loop of [generateSummary] appends the bullets of the non-blank
    lines among those at the indexes from [i] up to 5. *)
Lemma keyPoints_bullets (fuel i : nat) (lines : list string) (summary : string) :
  DebateEngine.keyPoints fuel i lines summary
  = summary ++ bullets (firstn (Nat.min fuel (5 - i)) (skipn i lines)).
Proof.
  revert i summary. induction fuel as [|fuel IH]; intros i summary.
  - cbn. now rewrite append_nil_r.
  - cbn [DebateEngine.keyPoints].
    destruct (i <? 5)%nat eqn:H5; cbn [andb].
    + destruct (i <? length lines)%nat eqn:Hlen.
      * apply Nat.ltb_lt in H5, Hlen.
        rewrite (skipn_nth "" lines i Hlen).
        replace (Nat.min (S fuel) (5 - i)) with (S (Nat.min fuel (5 - S i))) by lia.
        cbn [firstn]. rewrite bullets_cons, IH. unfold nonBlank, bullet.
        destruct (negb (String.eqb (strings.TrimSpace (nth i lines "")) ""));
          [| reflexivity].
        now rewrite !append_assoc.
      * apply Nat.ltb_ge in Hlen.
        rewrite skipn_all2 by exact Hlen. rewrite firstn_nil.
        cbn. now rewrite append_nil_r.
    + apply Nat.ltb_ge in H5.
      replace (Nat.min (S fuel) (5 - i)) with 0%nat by lia.
      cbn. now rewrite append_nil_r.
Qed.

(** C5, as the code has it: the summary is a function of the topic and the
    transcript alone.  For the empty transcript it is the fixed sentence; for
    a non-empty one it opens with the header naming the topic and the fixed
    explanatory sentences.  Only when the transcript has more than five lines
    does it go on with the heading of the key points, one bullet for each
    non-blank line among the first five, and the truncation notice; with five
    lines or fewer nothing follows the opening. *)
Theorem generateSummary_shape (topic context : string) :
  DebateEngine.generateSummary topic ""
  = "No responses were generated during this debate."
  /\ DebateEngine.generateSummary topic context
     = if String.eqb context ""
       then "No responses were generated during this debate."
       else
         let lines := strings.Split context LF in
         if (5 <? length lines)%nat
         then summaryPreamble topic
              ++ "Key points discussed:" ++ nl
              ++ bullets (firstn 5 lines)
              ++ "... (see full discussion for more details)"
         else summaryPreamble topic.
Proof.
  split; [reflexivity |].
  unfold DebateEngine.generateSummary.
  destruct (String.eqb context ""); [reflexivity |].
  cbv zeta.
  destruct (5 <? length (strings.Split context LF))%nat.
  - rewrite keyPoints_bullets. cbn [Nat.sub Nat.min skipn].
    unfold summaryPreamble. now rewrite !append_assoc.
  - unfold summaryPreamble. now rewrite !append_assoc.
Qed.

(** C5, as stated, fails: the two lines of this transcript are non-blank and
    lead it, yet its summary is the opening alone, without a bullet. *)
Lemma generateSummary_short_transcript_no_bullets :
  shortTranscript <> ""
  /\ List.filter nonBlank (firstn 5 (strings.Split shortTranscript LF))
     = ["Round 1 - Agent A (1):"; "hello"]
  /\ DebateEngine.generateSummary "T" shortTranscript = summaryPreamble "T"
  /\ strings.Contains (DebateEngine.generateSummary "T" shortTranscript)
       (bullet "hello") = false.
Proof. repeat split; [discriminate | ..]; vm_compute; reflexivity. Qed.

(** ** Stopping a discussion *)

(** C8: on a discussion whose status is running, [StopDiscussion] succeeds
    and stores the record with status completed, touching no other row; on a
    discussion that is not running, and so on a second stop after a
    successful one, and on an id without a record, it returns an error and
    leaves the database as it was. *)
Theorem StopDiscussion_only_while_running (db : database.DB) (discussionID : Z) :
  match database.discussions db !! discussionID with
  | Some discussion =>
      if String.eqb (Discussion.Status discussion) "running"
      then
        exists db' : database.DB,
          DebateEngine.StopDiscussion db discussionID = (db', None)
          /\ database.discussions db'
             = <[discussionID :=
                   Discussion.withStatus
                     (Discussion.withID discussion discussionID) "completed"]>
                 (database.discussions db)
          /\ database.agents db' = database.agents db
          /\ database.discussion_logs db' = database.discussion_logs db
          /\ DebateEngine.StopDiscussion db' discussionID
             = (db', Some "discussion is not running")
      else
        DebateEngine.StopDiscussion db discussionID
        = (db, Some "discussion is not running")
  | None =>
      DebateEngine.StopDiscussion db discussionID
      = (db, Some "failed to get discussion: discussion not found")
  end.
Proof.
  unfold DebateEngine.StopDiscussion, database.GetDiscussion.
  destruct (database.discussions db !! discussionID) as [discussion|] eqn:Hrow;
    [| reflexivity].
  cbn [Discussion.Status Discussion.withID].
  destruct (String.eqb (Discussion.Status discussion) "running"); cbn [negb];
    [| reflexivity].
  unfold database.UpdateDiscussion.
  cbn [Discussion.ID Discussion.withStatus Discussion.withID].
  rewrite Hrow.
  eexists. split; [reflexivity |].
  cbn [database.discussions database.agents database.discussion_logs].
  repeat split.
  rewrite lookup_insert_eq. reflexivity.
Qed.

(** ** Creating a debate *)

Lemma getAgents_missing (db : database.DB) (agentIDs : list Z) (id : Z) :
  In id agentIDs -> database.agents db !! id = None ->
  exists e, DebateEngine.getAgents db agentIDs = (None, Some e).
Proof.
  intros Hin Hnone. unfold DebateEngine.getAgents.
  assert (Herr : In "agent not found"
                   (omap snd (List.map (database.GetAgent db) agentIDs))).
  { apply list_elem_of_In, list_elem_of_omap.
    exists (database.GetAgent db id). split.
    - now apply list_elem_of_In, in_map.
    - unfold database.GetAgent. now rewrite Hnone. }
  destruct (omap snd (List.map (database.GetAgent db) agentIDs)) as [|e errs];
    [contradiction | now exists e].
Qed.

(** C9: when a participant id or the moderator id has no agent record,
    [RunDebate] returns an error without a discussion and leaves the
    database as it was: no record, running or other, is created. *)
Theorem RunDebate_rejects_unknown_agent (db : database.DB) (topic : string)
    (agentIDs : list Z) (moderatorID : option Z) (maxRounds : Z)
    (language : string) (maxCharLimit : Z) :
  (exists id, (In id agentIDs \/ moderatorID = Some id)
              /\ database.agents db !! id = None) ->
  exists e,
    DebateEngine.RunDebate db topic agentIDs moderatorID maxRounds language
      maxCharLimit
    = (db, (None, Some e)).
Proof.
  intros (id & [Hin | Hmod] & Hnone); unfold DebateEngine.RunDebate.
  - destruct (getAgents_missing db agentIDs id Hin Hnone) as [e He].
    rewrite He. eauto.
  - destruct (DebateEngine.getAgents db agentIDs) as [[agents|] [e|]]; eauto.
    subst moderatorID. unfold database.GetAgent. rewrite Hnone. eauto.
Qed.

Lemma RunDebate_rejects_unknown_agent_witness :
  exists e,
    DebateEngine.RunDebate twoAgents "T" [1; 3] None 2 "English" 100
    = (twoAgents, (None, Some e)).
Proof.
  apply RunDebate_rejects_unknown_agent.
  exists 3. split; [left; cbn; tauto | reflexivity].
Defined.

(** ** Runs of the engine, call by call *)

Section Runs.

Variable adapter : Adapter.
Variable discussion : Discussion.t.

Lemma Steps_one (st st' : Run) (c : Call) :
  Appended adapter discussion st c st' ->
  Steps adapter discussion st [c] st'.
Proof. intros H. eapply Steps_cons; [exact H | apply Steps_nil]. Qed.

Lemma Steps_app (st st1 st2 : Run) (a b : list Call) :
  Steps adapter discussion st a st1 ->
  Steps adapter discussion st1 b st2 ->
  Steps adapter discussion st (a ++ b)%list st2.
Proof.
  induction 1 as [st|st sta st1 c new Hc Hnew IH]; intros Hb.
  - exact Hb.
  - cbn [app]. eapply Steps_cons; [exact Hc | now apply IH].
Qed.

Lemma Steps_calls (st st' : Run) (new : list Call) :
  Steps adapter discussion st new st' ->
  calls st' = (calls st ++ new)%list.
Proof.
  induction 1 as [st|st st1 st' c new Hc Hnew IH].
  - now rewrite app_nil_r.
  - destruct Hc as (Hcalls & _). rewrite IH, Hcalls, <- app_assoc.
    reflexivity.
Qed.

Lemma Steps_context (st st' : Run) (new : list Call) :
  Steps adapter discussion st new st' ->
  debateContext st' = fold_left addToTranscript new (debateContext st).
Proof.
  induction 1 as [st|st st1 st' c new Hc Hnew IH].
  - reflexivity.
  - destruct Hc as (_ & Hctx & _). cbn [fold_left]. now rewrite IH, Hctx.
Qed.

Lemma entriesOf_app (a b : list Call) :
  entriesOf (a ++ b) = (entriesOf a ++ entriesOf b)%list.
Proof. apply omap_app. Qed.

Lemma Steps_logs (st st' : Run) (new : list Call) :
  Steps adapter discussion st new st' ->
  database.discussion_logs (db st')
  = (database.discussion_logs (db st) ++ entriesOf new)%list.
Proof.
  induction 1 as [st|st st1 st' c new Hc Hnew IH].
  - now rewrite app_nil_r.
  - destruct Hc as (_ & _ & Hlogs & _).
    change (c :: new) with ([c] ++ new)%list.
    rewrite IH, Hlogs, entriesOf_app, <- app_assoc. reflexivity.
Qed.

Lemma Steps_tables (st st' : Run) (new : list Call) :
  Steps adapter discussion st new st' ->
  database.discussions (db st') = database.discussions (db st)
  /\ database.agents (db st') = database.agents (db st).
Proof.
  induction 1 as [st|st st1 st' c new Hc Hnew IH].
  - now split.
  - destruct Hc as (_ & _ & _ & Hd & Ha & _). destruct IH as [IHd IHa].
    split; congruence.
Qed.

(** Every call of a run was made with the transcript of the calls
    before it. *)
Lemma Steps_wellFormed (st st' : Run) (new : list Call) :
  Steps adapter discussion st new st' ->
  forall (n : nat) (c : Call),
    new !! n = Some c ->
    wellFormedCall adapter discussion (length (calls st) + n)
      (fold_left addToTranscript (take n new) (debateContext st)) c.
Proof.
  induction 1 as [st|st st1 st' c0 new Hc Hnew IH]; intros n c Hn.
  - discriminate Hn.
  - destruct Hc as (Hcalls & Hctx & _ & _ & _ & Hwf).
    destruct n as [|n].
    + injection Hn as <-. cbn [take fold_left].
      now rewrite Nat.add_0_r.
    + cbn in Hn. specialize (IH n c Hn).
      rewrite Hcalls, length_app, Hctx in IH. cbn [length] in IH.
      cbn [take fold_left].
      replace (length (calls st) + S n)%nat
        with (length (calls st) + 1 + n)%nat by lia.
      exact IH.
Qed.

(** *** One interjection of the moderator *)

Lemma callModerator_Appended (moderator : Agent.t)
    (moderatorType context : string) (st : Run) :
  exists c : Call,
    Appended adapter discussion st c
      (snd (callModerator adapter discussion moderator moderatorType context st))
    /\ speaker c = Moderator moderatorType
    /\ is_Some (logEntry c).
Proof.
  unfold callModerator.
  destruct (adapter (length (calls st)) moderator
              (buildModeratorPrompt discussion moderatorType context) "")
    as [resp e] eqn:Hcall.
  destruct e as [e|]; [| destruct (AgentResponse.Success resp) eqn:Hs];
    cbv beta iota zeta delta [database.InsertDiscussionLog negb snd];
    (eexists; split;
     [ unfold Appended; split; [cbn [calls]; reflexivity |]
     | split; [reflexivity | eexists; reflexivity] ]);
    unfold wellFormedCall, succeeded, isParticipant, entriesOf,
      addToTranscript;
    cbn [calls debateContext db speaker callee prompt contextStr response err
         logEntry database.discussion_logs database.discussions
         database.agents omap list_omap DiscussionLog.withID
         DiscussionLog.Status DiscussionLog.IsModerator
         DiscussionLog.DiscussionID DiscussionLog.AgentID negb];
    rewrite ?Hs; repeat split; try assumption; try discriminate.
Qed.

Lemma moderate_Steps (moderator : option Agent.t)
    (moderatorType context : string) (st : Run) :
  exists new : list Call,
    Steps adapter discussion st new
      (moderate adapter discussion moderator moderatorType context st)
    /\ Forall (fun c => isParticipant c = false /\ is_Some (logEntry c)) new
    /\ (moderator = None -> new = []).
Proof.
  destruct moderator as [m|]; cbn [moderate].
  - destruct (callModerator_Appended m moderatorType context st)
      as (c & Happ & Hsp & Hlog).
    exists [c]. split; [now apply Steps_one | split; [| discriminate]].
    constructor; [| constructor].
    unfold isParticipant. now rewrite Hsp.
  - exists []. split; [apply Steps_nil | split; [constructor | reflexivity]].
Qed.

(** *** One participant turn *)

Lemma substring_length_le (n : nat) (s : string) :
  (String.length (substring 0 n s) <= n)%nat.
Proof.
  revert s. induction n as [|n IH]; intros [|x s]; cbn; try lia.
  specialize (IH s). lia.
Qed.

Lemma participantTurn_Steps (moderator : option Agent.t) (round : Z)
    (i totalAgents : nat) (agent : Agent.t) (st : Run) :
  exists (c : Call) (rest : list Call),
    Steps adapter discussion st (c :: rest)
      (runOf (participantTurn adapter discussion moderator round i
                totalAgents agent st))
    /\ speaker c = Participant round i
    /\ Forall (fun c => isParticipant c = false /\ is_Some (logEntry c)) rest
    /\ (moderator = None -> rest = [])
    /\ match participantTurn adapter discussion moderator round i
               totalAgents agent st with
       | Returned active _ => active = succeeded c /\ is_Some (logEntry c)
       | Panicked _ => logEntry c = None /\ rest = []
       end.
Proof.
  unfold participantTurn.
  set (prompt := if 1 <? round then _ else _).
  destruct (adapter (length (calls st)) agent prompt (debateContext st))
    as [resp e] eqn:Hcall.
  assert (Hlen : forall limit : Z,
             0 <= limit ->
             Z.of_nat (String.length
                         (substring 0 (Z.to_nat limit)
                            (AgentResponse.Content resp))) <= limit).
  { intros limit Hl.
    pose proof (substring_length_le (Z.to_nat limit)
                  (AgentResponse.Content resp)). lia. }
  destruct e as [e|];
    [| destruct (AgentResponse.Success resp) eqn:Hs; cbn [negb];
       [ destruct (Discussion.MaxCharLimit discussion
                   <? Z.of_nat (String.length (AgentResponse.Content resp)))
           eqn:Hlimit;
         [ destruct (Discussion.MaxCharLimit discussion <? 0) eqn:Hneg |] |] ];
    cbv beta iota zeta delta [database.InsertDiscussionLog runOf].
  all: try (apply Z.ltb_lt in Hneg).
  all: try (apply Z.ltb_ge in Hneg).
  all: try (apply Z.ltb_ge in Hlimit).
  all: try match goal with
           | |- context [if ?b then moderate _ _ _ _ _ ?s else _] =>
               destruct (moderate_Steps moderator "interim"
                           (AgentResponse.Content resp) s)
                 as (new & Hnew & Hall & Hnone);
               destruct b
           end.
  all: eexists; eexists.
  all: (split;
        [ eapply Steps_cons; [| first [eassumption | apply Steps_nil]];
          unfold Appended; split; [cbn [calls]; reflexivity |]
        | split; [reflexivity | split; [first [eassumption | constructor] |
            split; [first [eassumption | reflexivity] | ]]] ]).
  all: unfold wellFormedCall, succeeded, isParticipant, entriesOf,
         addToTranscript;
       cbn [calls debateContext db speaker callee prompt contextStr response
            err logEntry database.discussion_logs database.discussions
            database.agents omap list_omap DiscussionLog.withID
            DiscussionLog.Status DiscussionLog.IsModerator
            DiscussionLog.DiscussionID DiscussionLog.AgentID
            DiscussionLog.Content negb String.eqb];
       rewrite ?Hs.
  all: repeat split; try assumption; try discriminate; try reflexivity;
       try (eexists; reflexivity); try (intros; apply Hlen; lia);
       try (intros; lia); try (symmetry; apply app_nil_r).
Qed.

(** *** The turns of one round *)

Lemma isParticipant_speaker (c : Call) (round : Z) (i : nat) :
  speaker c = Participant round i -> isParticipant c = true.
Proof. unfold isParticipant. now intros ->. Qed.

Lemma turnsOf_app (a b : list Call) :
  turnsOf (a ++ b) = (turnsOf a ++ turnsOf b)%list.
Proof. apply omap_app. Qed.

Lemma turnsOf_moderator (cs : list Call) :
  Forall (fun c => isParticipant c = false /\ is_Some (logEntry c)) cs ->
  turnsOf cs = [] /\ List.filter isParticipant cs = []
  /\ Forall (fun c => is_Some (logEntry c)) cs.
Proof.
  induction 1 as [|c cs [Hc Hlog] _ (IH1 & IH2 & IH3)].
  - repeat split; constructor.
  - cbn [List.filter]. rewrite Hc.
    unfold turnsOf in *. cbn [omap list_omap].
    unfold isParticipant in Hc.
    destruct (speaker c); [discriminate |].
    repeat split; [exact IH1 | exact IH2 | now constructor].
Qed.

Lemma Steps_head_wellFormed (st st' : Run) (c : Call) (rest : list Call) :
  Steps adapter discussion st (c :: rest) st' ->
  wellFormedCall adapter discussion (length (calls st)) (debateContext st) c.
Proof.
  intros H. pose proof (Steps_wellFormed _ _ _ H 0%nat c eq_refl) as Hwf.
  now rewrite Nat.add_0_r in Hwf.
Qed.

Lemma agentsLoop_Steps (moderator : option Agent.t) (round : Z)
    (totalAgents i : nat) (agents : list Agent.t) (roundActive : bool)
    (st : Run) :
  exists new : list Call,
    Steps adapter discussion st new
      (runOf (agentsLoop adapter discussion moderator round totalAgents i
                agents roundActive st))
    /\ (moderator = None -> Forall (fun c => isParticipant c = true) new)
    /\ Forall (fun c => forall r k, speaker c = Participant r k -> r = round)
         new
    /\ match agentsLoop adapter discussion moderator round totalAgents i
               agents roundActive st with
       | Returned active _ =>
           turnsOf new
           = List.map (fun k => (round, k)) (seq i (length agents))
           /\ active
              = roundActive || existsb succeeded (List.filter isParticipant new)
           /\ Forall (fun c => is_Some (logEntry c)) new
       | Panicked _ =>
           Exists (fun c => isParticipant c = true /\ succeeded c = true
                            /\ logEntry c = None) new
       end.
Proof.
  revert i roundActive st.
  induction agents as [|agent rest IH]; intros i roundActive st.
  - exists []. cbn [agentsLoop runOf].
    split; [apply Steps_nil |]. split; [constructor |]. split; [constructor |].
    cbn. now rewrite orb_false_r.
  - cbn [agentsLoop].
    destruct (participantTurn_Steps moderator round i totalAgents agent st)
      as (c & interim & Hsteps & Hsp & Hinterim & Hnone & Hres).
    pose proof (isParticipant_speaker c round i Hsp) as Hpart.
    pose proof (Steps_head_wellFormed _ _ _ _ Hsteps) as (_ & _ & Hentry).
    destruct (turnsOf_moderator interim Hinterim) as (Hturns & Hfilter & Hlogs).
    assert (Hround : Forall (fun c => forall r k,
                                 speaker c = Participant r k -> r = round)
                       (c :: interim)).
    { constructor.
      - intros r k Hrk. rewrite Hsp in Hrk. now injection Hrk as <- _.
      - eapply List.Forall_impl; [| exact Hinterim].
        intros c' [Hc' _] r k Hrk.
        apply isParticipant_speaker in Hrk. congruence. }
    destruct (participantTurn adapter discussion moderator round i
                totalAgents agent st) as [active st'|st'] eqn:Hturn;
      cbn [runOf] in Hsteps.
    + destruct Hres as [Hactive Hlog].
      destruct (IH (S i) (roundActive || active) st')
        as (new & Hnew & Hmod & Hrounds & Hrest).
      exists ((c :: interim) ++ new)%list.
      split; [eapply Steps_app; eassumption |].
      split.
      { intros Hm. rewrite (Hnone Hm). cbn [app].
        constructor; [exact Hpart | now apply Hmod]. }
      split; [apply Forall_app; now split |].
      destruct (agentsLoop adapter discussion moderator round totalAgents
                  (S i) rest (roundActive || active) st') as [active' st''|st''].
      * destruct Hrest as (Hturns' & Hactive' & Hlogs').
        split; [| split].
        -- rewrite turnsOf_app. unfold turnsOf at 1.
           cbn [omap list_omap]. rewrite Hsp.
           fold (turnsOf interim). rewrite Hturns, Hturns'. reflexivity.
        -- rewrite List.filter_app, existsb_app. cbn [List.filter app].
           rewrite Hpart, Hfilter. cbn [existsb].
           rewrite Hactive', Hactive, orb_false_r, orb_assoc. reflexivity.
        -- apply Forall_app. split; [now constructor | exact Hlogs'].
      * apply Exists_app. now right.
    + destruct Hres as [Hlog ->].
      exists [c]. split; [exact Hsteps |].
      split; [intros _; now repeat constructor |].
      split; [exact Hround |].
      constructor. rewrite Hlog in Hentry.
      destruct Hentry as (_ & Hsucc & _). now repeat split.
Qed.

(** *** The rounds *)

Lemma Steps_each_wellFormed (st st' : Run) (new : list Call) :
  Steps adapter discussion st new st' ->
  Forall (fun c => exists (made : nat) (context : string),
                     wellFormedCall adapter discussion made context c) new.
Proof.
  intros H. apply List.Forall_forall. intros c Hin.
  apply list_elem_of_In, list_elem_of_lookup in Hin. destruct Hin as [n Hn].
  eexists. eexists. exact (Steps_wellFormed _ _ _ H n c Hn).
Qed.

(** Only a negative limit makes a run panic. *)
Lemma Steps_panic_limit (st st' : Run) (new : list Call) :
  Steps adapter discussion st new st' ->
  Exists (fun c => isParticipant c = true /\ succeeded c = true
                   /\ logEntry c = None) new ->
  Discussion.MaxCharLimit discussion < 0.
Proof.
  intros H Hex. apply List.Exists_exists in Hex.
  destruct Hex as (c & Hin & _ & _ & Hlog).
  pose proof (Steps_each_wellFormed _ _ _ H) as Hall.
  rewrite List.Forall_forall in Hall.
  destruct (Hall c Hin) as (made & context & _ & _ & Hentry).
  rewrite Hlog in Hentry. tauto.
Qed.

Lemma roundsLoop_Steps (moderator : option Agent.t) (agents : list Agent.t)
    (remaining : nat) (round roundCount : Z) (st : Run) :
  exists new : list Call,
    Steps adapter discussion st new
      (runOf (roundsLoop adapter discussion moderator agents remaining round
                roundCount st))
    /\ (moderator = None -> Forall (fun c => isParticipant c = true) new)
    /\ match roundsLoop adapter discussion moderator agents remaining round
               roundCount st with
       | Returned _ _ =>
           Forall (fun c => is_Some (logEntry c)) new
           /\ exists rounds : nat,
                length (turnsOf new) = (rounds * length agents)%nat
                /\ (rounds <= remaining)%nat
                /\ (0 < remaining -> 1 <= rounds)%nat
       | Panicked _ => Discussion.MaxCharLimit discussion < 0
       end.
Proof.
  revert round roundCount st.
  induction remaining as [|remaining IH]; intros round roundCount st.
  - exists []. cbn [roundsLoop runOf].
    split; [apply Steps_nil |]. split; [constructor |].
    split; [constructor |]. exists 0%nat. cbn. lia.
  - cbn [roundsLoop].
    destruct (agentsLoop_Steps moderator round (length agents) 0 agents
                false st) as (new1 & Hnew1 & Hmod1 & _ & Hres1).
    destruct (agentsLoop adapter discussion moderator round (length agents) 0
                agents false st) as [active st1|st1]; cbn [runOf] in Hnew1.
    + destruct Hres1 as (Hturns1 & _ & Hlogs1).
      destruct (moderate_Steps moderator "round_summary"
                  ("Round " ++ fmt.Sprint round ++ " completed") st1)
        as (new2 & Hnew2 & Hall2 & Hnone2).
      destruct (turnsOf_moderator new2 Hall2) as (Hturns2 & _ & Hlogs2).
      assert (Hlen : length (turnsOf (new1 ++ new2)) = length agents).
      { rewrite turnsOf_app, Hturns1, Hturns2, app_nil_r.
        now rewrite length_map, length_seq. }
      destruct active; cbn [negb].
      * destruct (IH (round + 1) (roundCount + 1)
                    (moderate adapter discussion moderator "round_summary"
                       ("Round " ++ fmt.Sprint round ++ " completed") st1))
          as (new3 & Hnew3 & Hmod3 & Hres3).
        exists ((new1 ++ new2) ++ new3)%list.
        split; [eapply Steps_app; [eapply Steps_app |]; eassumption |].
        split.
        { intros Hm. rewrite (Hnone2 Hm), app_nil_r.
          apply Forall_app. split; [now apply Hmod1 | now apply Hmod3]. }
        destruct (roundsLoop adapter discussion moderator agents remaining
                    (round + 1) (roundCount + 1) _); [| exact Hres3].
        destruct Hres3 as (Hlogs3 & rounds & Hrounds & Hle & _).
        split.
        { apply Forall_app. split; [| exact Hlogs3].
          apply Forall_app. now split. }
        exists (S rounds).
        rewrite turnsOf_app, length_app, Hlen, Hrounds. cbn. lia.
      * exists (new1 ++ new2)%list. cbn [runOf].
        split; [eapply Steps_app; eassumption |].
        split.
        { intros Hm. rewrite (Hnone2 Hm), app_nil_r. now apply Hmod1. }
        split; [apply Forall_app; now split |].
        exists 1%nat. rewrite Hlen. cbn. lia.
    + exists new1. cbn [runOf].
      split; [exact Hnew1 |]. split; [exact Hmod1 |].
      eapply Steps_panic_limit; eassumption.
Qed.

(** *** The transcript *)

Lemma addToTranscript_moderator (transcript : string) (c : Call) :
  isParticipant c = false -> addToTranscript transcript c = transcript.
Proof.
  unfold isParticipant, addToTranscript.
  now destruct (speaker c).
Qed.

(** Moderator interjections add nothing to the transcript. *)
Lemma transcript_participants_only (cs : list Call) (transcript : string) :
  fold_left addToTranscript cs transcript
  = fold_left addToTranscript (List.filter isParticipant cs) transcript.
Proof.
  revert transcript. induction cs as [|c cs IH]; intros transcript.
  - reflexivity.
  - cbn [fold_left List.filter].
    destruct (isParticipant c) eqn:Hc; cbn [fold_left].
    + apply IH.
    + rewrite addToTranscript_moderator by exact Hc. apply IH.
Qed.

Lemma addToTranscript_keeps (transcript sub : string) (c : Call) :
  strings.Contains transcript sub = true ->
  strings.Contains (addToTranscript transcript c) sub = true.
Proof.
  intros H. unfold addToTranscript, appendContext.
  destruct (speaker c); [| exact H].
  destruct (logEntry c); [| exact H].
  destruct (String.eqb _ "success"); [| exact H].
  destruct (0 <? String.length transcript)%nat;
    now apply Contains_append_r.
Qed.

Lemma transcript_keeps (cs : list Call) (transcript sub : string) :
  strings.Contains transcript sub = true ->
  strings.Contains (fold_left addToTranscript cs transcript) sub = true.
Proof.
  revert transcript. induction cs as [|c cs IH]; intros transcript H.
  - exact H.
  - cbn [fold_left]. now apply IH, addToTranscript_keeps.
Qed.

Lemma contextBlock_contains (round : Z) (agent : Agent.t) (content : string) :
  strings.Contains (contextBlock round agent content) content = true.
Proof.
  unfold contextBlock.
  repeat (apply Contains_skip). apply Contains_refl.
Qed.

(** The stored content of every successful participant turn is part of
    the transcript. *)
Lemma transcript_contains (cs : list Call) (transcript : string) (p : Call)
    (round : Z) (i : nat) (entry : DiscussionLog.t) :
  In p cs -> speaker p = Participant round i -> logEntry p = Some entry ->
  DiscussionLog.Status entry = "success" ->
  strings.Contains (fold_left addToTranscript cs transcript)
    (DiscussionLog.Content entry) = true.
Proof.
  intros Hin Hsp Hlog Hstatus. revert transcript.
  induction cs as [|c cs IH]; intros transcript; [contradiction |].
  cbn [fold_left]. apply in_inv in Hin. destruct Hin as [-> | Hin].
  - apply transcript_keeps.
    unfold addToTranscript. rewrite Hsp, Hlog, Hstatus. cbn [String.eqb].
    unfold appendContext.
    destruct (0 <? String.length transcript)%nat.
    + apply (Contains_skip transcript), (Contains_skip nl),
        (Contains_skip nl), contextBlock_contains.
    + apply (Contains_skip transcript), contextBlock_contains.
  - now apply IH.
Qed.

(** *** The whole debate *)

Lemma UpdateDiscussion_logs (d : Discussion.t) (db0 : database.DB) :
  database.discussion_logs (fst (database.UpdateDiscussion db0 d))
  = database.discussion_logs db0.
Proof.
  unfold database.UpdateDiscussion.
  now destruct (database.discussions db0 !! Discussion.ID d).
Qed.

(** A debate is a run of calls from the empty transcript. *)
Lemma executeDebate_Steps (agents : list Agent.t)
    (moderator : option Agent.t) (db0 : database.DB) :
  exists st : Run,
    Steps adapter discussion
      {| db := db0; debateContext := ""; calls := [] |}
      (calls (snd (executeDebate adapter discussion agents moderator db0))) st
    /\ database.discussion_logs
         (db (snd (executeDebate adapter discussion agents moderator db0)))
       = database.discussion_logs (db st).
Proof.
  unfold executeDebate.
  set (st0 := {| db := db0; debateContext := ""; calls := [] |}).
  destruct (moderate_Steps moderator "opening" "" st0)
    as (new0 & Hnew0 & _).
  destruct (roundsLoop_Steps moderator agents
              (Z.to_nat (effectiveMaxRounds discussion)) 1 1
              (moderate adapter discussion moderator "opening" "" st0))
    as (new1 & Hnew1 & _).
  pose proof (Steps_app _ _ _ _ _ Hnew0 Hnew1) as H01.
  destruct (roundsLoop adapter discussion moderator agents _ 1 1 _)
    as [roundCount st1|st1]; cbn [runOf] in *.
  - destruct (moderate_Steps moderator "closing" "" st1)
      as (new2 & Hnew2 & _).
    pose proof (Steps_app _ _ _ _ _ H01 Hnew2) as H.
    eexists. cbn [snd calls db].
    rewrite (Steps_calls _ _ _ H). cbn [calls app].
    split; [exact H |]. now rewrite !UpdateDiscussion_logs.
  - eexists. cbn [snd calls db].
    rewrite (Steps_calls _ _ _ H01). cbn [calls app].
    split; [exact H01 |]. now rewrite !UpdateDiscussion_logs.
Qed.

(** C2, as the code has it: the context string the adapter is given for
    the turn of a participant is the transcript of the participant turns
    made before it: it holds, under its header, the stored content of every
    participant turn that succeeded strictly before, so it contains each of
    them, and nothing else.  The interjections of the moderator are not
    part of it, and neither is anything produced at or after the turn. *)
Theorem participant_context_is_prior_transcript (agents : list Agent.t)
    (moderator : option Agent.t) (db0 : database.DB) (n : nat) (c : Call)
    (round : Z) (index : nat) :
  let final := snd (executeDebate adapter discussion agents moderator db0) in
  calls final !! n = Some c ->
  speaker c = Participant round index ->
  adapter n (callee c) (prompt c) (contextStr c) = (response c, err c)
  /\ contextStr c
     = transcriptOf (List.filter isParticipant (take n (calls final)))
  /\ forall (p : Call) (r : Z) (i : nat) (entry : DiscussionLog.t),
       In p (take n (calls final)) ->
       speaker p = Participant r i ->
       logEntry p = Some entry ->
       DiscussionLog.Status entry = "success" ->
       strings.Contains (contextStr c) (DiscussionLog.Content entry) = true.
Proof.
  intros final Hn Hsp.
  destruct (executeDebate_Steps agents moderator db0) as (st & Hsteps & _).
  fold final in Hsteps.
  pose proof (Steps_wellFormed _ _ _ Hsteps n c Hn) as (Hctx & Hcall & _).
  cbn [calls debateContext length Nat.add] in Hctx, Hcall.
  rewrite (isParticipant_speaker c round index Hsp) in Hctx.
  split; [exact Hcall |]. split.
  - rewrite Hctx. apply transcript_participants_only.
  - intros p r i entry Hin Hp Hlog Hstatus. rewrite Hctx.
    eapply transcript_contains; eassumption.
Qed.

(** *** The entries a debate stores *)

Lemma executeDebate_entries (agents : list Agent.t)
    (moderator : option Agent.t) (db0 : database.DB) :
  let final := snd (executeDebate adapter discussion agents moderator db0) in
  database.discussion_logs (db final)
  = (database.discussion_logs db0 ++ entriesOf (calls final))%list
  /\ Forall (fun c => forall entry,
                logEntry c = Some entry ->
                DiscussionLog.Status entry
                = (if succeeded c then "success" else "error")
                /\ DiscussionLog.IsModerator entry = negb (isParticipant c))
       (calls final).
Proof.
  intros final.
  destruct (executeDebate_Steps agents moderator db0) as (st & Hsteps & Hlogs).
  fold final in Hsteps, Hlogs. split.
  - rewrite Hlogs. apply (Steps_logs _ _ _ Hsteps).
  - eapply List.Forall_impl; [| exact (Steps_each_wellFormed _ _ _ Hsteps)].
    intros c (made & context & _ & _ & Hentry) entry Hlog.
    rewrite Hlog in Hentry. tauto.
Qed.

Lemma entriesOf_In (cs : list Call) (entry : DiscussionLog.t) :
  In entry (entriesOf cs) <-> exists c, In c cs /\ logEntry c = Some entry.
Proof.
  unfold entriesOf. rewrite <- list_elem_of_In, list_elem_of_omap.
  split; intros (c & Hc & Hlog); exists c; split; try exact Hlog;
    now apply list_elem_of_In.
Qed.

Lemma entriesOf_length (cs : list Call) :
  Forall (fun c => is_Some (logEntry c)) cs ->
  length (entriesOf cs) = length cs.
Proof.
  induction 1 as [|c cs [entry Hc] _ IH]; [reflexivity |].
  unfold entriesOf in *. cbn [omap list_omap]. rewrite Hc. cbn. now rewrite IH.
Qed.

Lemma turnsOf_length (cs : list Call) :
  Forall (fun c => isParticipant c = true) cs ->
  length (turnsOf cs) = length cs.
Proof.
  induction 1 as [|c cs Hc _ IH]; [reflexivity |].
  unfold turnsOf, isParticipant in *. cbn [omap list_omap].
  destruct (speaker c); [| discriminate]. cbn. now rewrite IH.
Qed.

(** C7, as the code has it: with N participants, no moderator and R rounds
    configured (3 when the configured count is not positive), a debate
    whose character limit is not negative stores between N and N x R log
    entries, all of them participant turns. *)
Theorem participant_turn_count (agents : list Agent.t) (db0 : database.DB) :
  0 <= Discussion.MaxCharLimit discussion ->
  let final := snd (executeDebate adapter discussion agents None db0) in
  let N := Z.of_nat (length agents) in
  let R := effectiveMaxRounds discussion in
  exists entries : list DiscussionLog.t,
    database.discussion_logs (db final)
    = (database.discussion_logs db0 ++ entries)%list
    /\ Forall (fun entry => DiscussionLog.IsModerator entry = false) entries
    /\ N <= Z.of_nat (length entries) <= N * R.
Proof.
  intros Hlimit final N R.
  destruct (executeDebate_entries agents None db0) as (Hlogs & Hentries).
  fold final in Hlogs, Hentries.
  exists (entriesOf (calls final)). split; [exact Hlogs |].
  assert (Hrun : Forall (fun c => isParticipant c = true) (calls final)
                 /\ Forall (fun c => is_Some (logEntry c)) (calls final)
                 /\ exists rounds : nat,
                      length (turnsOf (calls final))
                      = (rounds * length agents)%nat
                      /\ (rounds <= Z.to_nat R)%nat
                      /\ (0 < Z.to_nat R -> 1 <= rounds)%nat).
  { subst final. unfold executeDebate. cbn [moderate].
    set (st0 := {| db := db0; debateContext := ""; calls := [] |}).
    destruct (roundsLoop_Steps None agents (Z.to_nat R) 1 1 st0)
      as (new & Hnew & Hmod & Hres).
    fold R.
    destruct (roundsLoop adapter discussion None agents (Z.to_nat R) 1 1 st0)
      as [roundCount st1|st1]; cbn [runOf] in Hnew; [| lia].
    cbn [snd calls]. rewrite (Steps_calls _ _ _ Hnew). cbn [calls app].
    destruct Hres as (Hall & Hrounds). split; [now apply Hmod | now split]. }
  destruct Hrun as (Hpart & Hall & rounds & Hturns & Hle & Hge).
  split.
  - apply List.Forall_forall. intros entry Hin.
    apply entriesOf_In in Hin. destruct Hin as (c & Hc & Hlog).
    rewrite List.Forall_forall in Hentries, Hpart.
    destruct (Hentries c Hc entry Hlog) as [_ Hmod].
    now rewrite Hmod, (Hpart c Hc).
  - rewrite (entriesOf_length _ Hall), <- (turnsOf_length _ Hpart), Hturns.
    assert (HR : 1 <= R).
    { subst R. unfold effectiveMaxRounds.
      destruct (Discussion.MaxRounds discussion <=? 0) eqn:H; [lia |].
      apply Z.leb_gt in H. lia. }
    subst N. rewrite Nat2Z.inj_mul. nia.
Qed.

(** *** A round without a successful turn *)

Lemma effectiveMaxRounds_pos : 1 <= effectiveMaxRounds discussion.
Proof.
  unfold effectiveMaxRounds.
  destruct (Discussion.MaxRounds discussion <=? 0) eqn:H; [lia |].
  apply Z.leb_gt in H. lia.
Qed.

(** Calls without a successful participant turn leave the context as it
    is. *)
Lemma Steps_no_success_context (st st' : Run) (new : list Call) :
  Steps adapter discussion st new st' ->
  existsb succeeded (List.filter isParticipant new) = false ->
  debateContext st' = debateContext st.
Proof.
  induction 1 as [st|st st1 st' c new Hc Hnew IH]; intros Hnone.
  - reflexivity.
  - destruct Hc as (_ & Hctx & _ & _ & _ & _ & _ & Hentry).
    cbn [List.filter] in Hnone.
    destruct (isParticipant c) eqn:Hpart.
    + cbn [existsb] in Hnone. apply orb_false_iff in Hnone.
      destruct Hnone as [Hfail Hnone].
      rewrite (IH Hnone), Hctx. unfold addToTranscript.
      destruct (speaker c); [| reflexivity].
      destruct (logEntry c) as [entry|]; [| reflexivity].
      destruct Hentry as (-> & _). now rewrite Hfail.
    + rewrite (IH Hnone), Hctx. now apply addToTranscript_moderator.
Qed.

Lemma moderators_no_success (cs : list Call) :
  Forall (fun c => isParticipant c = false /\ is_Some (logEntry c)) cs ->
  existsb succeeded (List.filter isParticipant cs) = false.
Proof.
  intros H. now destruct (turnsOf_moderator cs H) as (_ & -> & _).
Qed.

Lemma successful_turn_in (round : Z) (new : list Call) :
  Forall (fun c => forall r k, speaker c = Participant r k -> r = round) new ->
  existsb succeeded (List.filter isParticipant new) = true ->
  exists (c : Call) (i : nat),
    In c new /\ speaker c = Participant round i /\ succeeded c = true.
Proof.
  intros Hround Hex. apply existsb_exists in Hex.
  destruct Hex as (c & Hin & Hsucc). apply filter_In in Hin.
  destruct Hin as [Hin Hpart]. rewrite List.Forall_forall in Hround.
  unfold isParticipant in Hpart.
  destruct (speaker c) as [r i|] eqn:Hsp; [| discriminate].
  exists c, i. rewrite (Hround c Hin r i Hsp) in Hsp. now repeat split.
Qed.

(** C6: when no participant turn of round 1 succeeds, the debate makes no
    turn beyond the N turns of round 1, whatever number of rounds is
    configured, and ends completed with the fixed summary that no responses
    were generated. *)
Theorem failed_first_round_ends_debate (agents : list Agent.t)
    (moderator : option Agent.t) (db0 : database.DB) :
  let result := executeDebate adapter discussion agents moderator db0 in
  (forall (c : Call) (i : nat),
      In c (calls (snd result)) -> speaker c = Participant 1 i ->
      succeeded c = false) ->
  turnsOf (calls (snd result))
  = List.map (fun k => (1, k)) (seq 0 (length agents))
  /\ Discussion.FinalSummary (fst result)
     = "No responses were generated during this debate."
  /\ Discussion.Status (fst result) = "completed".
Proof.
  cbv zeta. unfold executeDebate.
  set (st0 := {| db := db0; debateContext := ""; calls := [] |}).
  destruct (moderate_Steps moderator "opening" "" st0)
    as (new0 & Hnew0 & Hall0 & _).
  pose proof effectiveMaxRounds_pos as Hpos.
  destruct (Z.to_nat (effectiveMaxRounds discussion)) as [|remaining] eqn:HR;
    [lia |].
  cbn [roundsLoop].
  destruct (agentsLoop_Steps moderator 1 (length agents) 0 agents false
              (moderate adapter discussion moderator "opening" "" st0))
    as (new1 & Hnew1 & _ & Hround1 & Hres1).
  pose proof (Steps_app _ _ _ _ _ Hnew0 Hnew1) as H01.
  destruct (agentsLoop adapter discussion moderator 1 (length agents) 0
              agents false _) as [active st1|st1]; cbn [runOf] in *.
  - destruct Hres1 as (Hturns1 & Hactive & _). cbn [orb] in Hactive.
    destruct (moderate_Steps moderator "round_summary"
                ("Round " ++ fmt.Sprint 1 ++ " completed") st1)
      as (new2 & Hnew2 & Hall2 & _).
    pose proof (Steps_app _ _ _ _ _ H01 Hnew2) as H012.
    destruct active; cbn [negb].
    + (* a successful turn in round 1 contradicts the premise *)
      destruct (successful_turn_in 1 new1 Hround1 (eq_sym Hactive))
        as (c & i & Hin & Hsp & Hsucc).
      destruct (roundsLoop_Steps moderator agents remaining (1 + 1) (1 + 1)
                  (moderate adapter discussion moderator "round_summary"
                     ("Round " ++ fmt.Sprint 1 ++ " completed") st1))
        as (new3 & Hnew3 & _).
      pose proof (Steps_app _ _ _ _ _ H012 Hnew3) as H0123.
      intros Hfail. exfalso.
      assert (Hc : succeeded c = false); [| congruence].
      apply (Hfail c i); [| exact Hsp].
      destruct (roundsLoop adapter discussion moderator agents remaining
                  (1 + 1) (1 + 1) _) as [roundCount st3|st3];
        cbn [runOf snd calls] in *.
      * destruct (moderate_Steps moderator "closing" "" st3)
          as (new4 & Hnew4 & _).
        rewrite (Steps_calls _ _ _ (Steps_app _ _ _ _ _ H0123 Hnew4)).
        cbn [calls app]. rewrite !in_app_iff. clear - Hin. tauto.
      * rewrite (Steps_calls _ _ _ H0123).
        cbn [calls app]. rewrite !in_app_iff. clear - Hin. tauto.
    + intros _.
      destruct (moderate_Steps moderator "closing" "" 
                  (moderate adapter discussion moderator "round_summary"
                     ("Round " ++ fmt.Sprint 1 ++ " completed") st1))
        as (new4 & Hnew4 & Hall4 & _).
      pose proof (Steps_app _ _ _ _ _ H012 Hnew4) as H.
      destruct (turnsOf_moderator new0 Hall0) as (Ht0 & Hf0 & _).
      destruct (turnsOf_moderator new2 Hall2) as (Ht2 & Hf2 & _).
      destruct (turnsOf_moderator new4 Hall4) as (Ht4 & Hf4 & _).
      cbn [fst snd calls].
      rewrite (Steps_calls _ _ _ H). cbn [calls app].
      split.
      { rewrite !turnsOf_app, Ht0, Ht2, Ht4, Hturns1, !app_nil_r.
        reflexivity. }
      assert (Hctx : debateContext
                       (moderate adapter discussion moderator "closing" ""
                          (moderate adapter discussion moderator
                             "round_summary"
                             ("Round " ++ fmt.Sprint 1 ++ " completed") st1))
                     = "").
      { rewrite (Steps_no_success_context _ _ _ H); [reflexivity |].
        rewrite !List.filter_app, Hf0, Hf2, Hf4, !app_nil_r.
        cbn [app]. now rewrite <- Hactive. }
      rewrite Hctx. now split.
  - (* the panic of a successful turn in round 1 *)
    intros Hfail. exfalso.
    apply List.Exists_exists in Hres1.
    destruct Hres1 as (c & Hin & Hpart & Hsucc & _).
    rewrite List.Forall_forall in Hround1.
    unfold isParticipant in Hpart.
    destruct (speaker c) as [r i|] eqn:Hsp; [| discriminate].
    rewrite (Hround1 c Hin r i Hsp) in Hsp.
    assert (Hc : succeeded c = false); [| congruence].
    apply (Hfail c i); [| exact Hsp].
    cbn [snd calls]. rewrite (Steps_calls _ _ _ H01).
    cbn [calls app]. rewrite !in_app_iff. clear - Hin. tauto.
Qed.

End Runs.

(** ** The outcome of a stored entry *)

Lemma RetryFailedAgent_entry
    (call : Agent.t -> string -> string -> AgentResponse.t * error)
    (db0 : database.DB) (discussionID agentID : Z) :
  exists new : list DiscussionLog.t,
    database.discussion_logs
      (fst (RetryFailedAgent call db0 discussionID agentID))
    = (database.discussion_logs db0 ++ new)%list
    /\ Forall successOrError new
    /\ ((forall a p c, is_Some (snd (call a p c))) ->
        Forall (fun entry => DiscussionLog.Status entry = "error") new).
Proof.
  unfold RetryFailedAgent.
  destruct (database.GetDiscussion db0 discussionID) as [[d|] [e|]];
    try (exists []; rewrite app_nil_r; repeat split; constructor).
  destruct (negb (String.eqb (Discussion.Status d) "running"));
    try (exists []; rewrite app_nil_r; repeat split; constructor).
  destruct (database.GetAgent db0 agentID) as [[agent|] [e|]];
    try (exists []; rewrite app_nil_r; repeat split; constructor).
  destruct (call agent (buildPrompt d)
              (retryContext (database.GetDiscussionLogs db0 discussionID) ""))
    as [resp e] eqn:Hcall.
  destruct e as [e|]; [| destruct (AgentResponse.Success resp) eqn:Hs];
    cbv beta iota zeta delta [negb database.InsertDiscussionLog fst];
    cbn [database.discussion_logs];
    (eexists; split; [reflexivity |]);
    (split;
     [ constructor; [| constructor]; unfold successOrError;
       cbn [DiscussionLog.withID DiscussionLog.Status];
       split; [tauto | discriminate]
     | intros Herr; constructor; [| constructor];
       cbn [DiscussionLog.withID DiscussionLog.Status]; try reflexivity ]).
  specialize (Herr agent (buildPrompt d)
                (retryContext (database.GetDiscussionLogs db0 discussionID) "")).
  rewrite Hcall in Herr. destruct Herr as [msg Hmsg]. discriminate Hmsg.
Qed.

(** C10: every entry the engine stores, for a participant turn, for an
    interjection of the moderator or for a retry, has the status success or
    error and never timeout; a call on which the adapter returns an error,
    an exceeded deadline among them, is stored with the status error. *)
Theorem stored_status_success_or_error (adapter : Adapter)
    (discussion : Discussion.t) (agents : list Agent.t)
    (moderator : option Agent.t) (db0 : database.DB)
    (call : Agent.t -> string -> string -> AgentResponse.t * error)
    (db1 : database.DB) (discussionID agentID : Z) :
  (let final := snd (executeDebate adapter discussion agents moderator db0) in
   database.discussion_logs (db final)
   = (database.discussion_logs db0 ++ entriesOf (calls final))%list
   /\ Forall successOrError (entriesOf (calls final))
   /\ Forall (fun c => forall msg entry,
                 err c = Some msg -> logEntry c = Some entry ->
                 DiscussionLog.Status entry = "error") (calls final))
  /\ (exists new : list DiscussionLog.t,
        database.discussion_logs
          (fst (RetryFailedAgent call db1 discussionID agentID))
        = (database.discussion_logs db1 ++ new)%list
        /\ Forall successOrError new
        /\ ((forall a p c, is_Some (snd (call a p c))) ->
            Forall (fun entry => DiscussionLog.Status entry = "error") new)).
Proof.
  split; [| apply RetryFailedAgent_entry].
  destruct (executeDebate_entries adapter discussion agents moderator db0)
    as (Hlogs & Hentries).
  cbv zeta. split; [exact Hlogs | split].
  - apply List.Forall_forall. intros entry Hin.
    apply entriesOf_In in Hin. destruct Hin as (c & Hc & Hlog).
    rewrite List.Forall_forall in Hentries.
    destruct (Hentries c Hc entry Hlog) as [Hstatus _].
    unfold successOrError. rewrite Hstatus.
    destruct (succeeded c); split; try tauto; discriminate.
  - eapply List.Forall_impl; [| exact Hentries].
    intros c Hc msg entry Herr Hlog.
    destruct (Hc entry Hlog) as [Hstatus _].
    rewrite Hstatus. unfold succeeded. now rewrite Herr.
Qed.

(** ** The runs of the examples *)

(** C2, as stated, fails: the opening remarks of the moderator are stored
    as a successful entry before the first participant turn, and the context
    of that turn is empty. *)
Lemma moderator_interjection_not_in_context :
  let final :=
    snd (executeDebate chatty oneRound [agentA] (Some agentM) debateDB) in
  exists (opening turn : Call) (entry : DiscussionLog.t),
    calls final !! 0%nat = Some opening
    /\ calls final !! 1%nat = Some turn
    /\ speaker turn = Participant 1 0
    /\ logEntry opening = Some entry
    /\ DiscussionLog.IsModerator entry = true
    /\ DiscussionLog.Status entry = "success"
    /\ strings.Contains (contextStr turn) (DiscussionLog.Content entry) = false.
Proof.
  vm_compute. eexists. eexists. eexists.
  repeat split; reflexivity.
Qed.

Lemma participant_context_is_prior_transcript_witness :
  let final :=
    snd (executeDebate chatty oneRound [agentA; agentB] (Some agentM) debateDB) in
  exists c : Call,
    calls final !! 3%nat = Some c
    /\ contextStr c
       = transcriptOf (List.filter isParticipant (take 3 (calls final))).
Proof.
  intros final.
  assert (H : exists c, calls final !! 3%nat = Some c
                        /\ speaker c = Participant 1 1).
  { vm_compute. eexists. split; reflexivity. }
  destruct H as (c & Hc & Hsp). exists c. split; [exact Hc |].
  exact (proj1 (proj2 (participant_context_is_prior_transcript chatty oneRound
                         [agentA; agentB] (Some agentM) debateDB 3 c 1 1
                         Hc Hsp))).
Defined.

Lemma failed_first_round_ends_debate_witness :
  Discussion.FinalSummary
    (fst (executeDebate unreachable threeRounds [agentA; agentB] None debateDB))
  = "No responses were generated during this debate.".
Proof.
  refine (proj1 (proj2 (failed_first_round_ends_debate unreachable threeRounds
                          [agentA; agentB] None debateDB _))).
  vm_compute. intros c i [<- | [<- | []]] _; reflexivity.
Defined.

Lemma participant_turn_count_witness :
  exists entries : list DiscussionLog.t,
    database.discussion_logs
      (db (snd (executeDebate chatty threeRounds [agentA; agentB] None debateDB)))
    = (database.discussion_logs debateDB ++ entries)%list
    /\ Forall (fun entry => DiscussionLog.IsModerator entry = false) entries
    /\ 2 <= Z.of_nat (length entries) <= 2 * 3.
Proof.
  apply (participant_turn_count chatty threeRounds [agentA; agentB] debateDB).
  cbn. lia.
Defined.

(** C7, as stated, fails: under a negative character limit the first
    successful answer makes the slice expression panic; the deferred
    function marks the debate failed, and no entry at all is stored for the
    two participants. *)
Lemma negative_limit_stores_no_entry :
  ~ (forall (adapter : Adapter) (discussion : Discussion.t)
       (agents : list Agent.t) (db0 : database.DB),
        let final := snd (executeDebate adapter discussion agents None db0) in
        exists entries : list DiscussionLog.t,
          database.discussion_logs (db final)
          = (database.discussion_logs db0 ++ entries)%list
          /\ Z.of_nat (length agents) <= Z.of_nat (length entries)
             <= Z.of_nat (length agents) * effectiveMaxRounds discussion).
Proof.
  intros H.
  destruct (H chatty negativeLimit [agentA; agentB] debateDB)
    as (entries & Hlogs & Hcount & _).
  vm_compute in Hlogs. subst entries. cbn in Hcount. lia.
Qed.

Example negative_limit_marks_failed :
  Discussion.Status
    (fst (executeDebate chatty negativeLimit [agentA; agentB] None debateDB))
  = "failed".
Proof. reflexivity. Qed.

(** C3 on the code: with a limit of 5 characters, a retry whose agent
    answers with ten characters stores all ten under the status success, and
    an interjection of the moderator stores its answer in full behind the
    role tag; only the participant turn of [executeDebate] truncates. *)
Lemma RetryFailedAgent_stores_untruncated :
  Discussion.MaxCharLimit limitFive = 5
  /\ database.GetDiscussion retryDB 1 = (Some limitFive, None)
  /\ (exists entry : DiscussionLog.t,
        database.discussion_logs
          (fst (RetryFailedAgent tenCharacters retryDB 1 1)) = [entry]
        /\ DiscussionLog.Status entry = "success"
        /\ DiscussionLog.Content entry = "abcdefghij"
        /\ String.length (DiscussionLog.Content entry) = 10%nat)
  /\ (exists entry : DiscussionLog.t,
        database.discussion_logs
          (db (snd (callModerator (fun _ => tenCharacters) limitFive agentM
                      "opening" ""
                      {| db := retryDB; debateContext := ""; calls := [] |})))
        = [entry]
        /\ DiscussionLog.Status entry = "success"
        /\ DiscussionLog.Content entry
           = "[Moderator - Opening Remarks]" ++ nl ++ "abcdefghij"
        /\ String.length (DiscussionLog.Content entry) = 40%nat)
  /\ (exists entry : DiscussionLog.t,
        database.discussion_logs
          (db (snd (executeDebate (fun _ => tenCharacters) limitFive [agentA]
                      None retryDB)))
        = [entry]
        /\ DiscussionLog.Status entry = "success"
        /\ DiscussionLog.Content entry = "abcde").
Proof.
  split; [reflexivity |]. split; [reflexivity |].
  split; [| split]; vm_compute; eexists; repeat split; reflexivity.
Qed.

(** ** The substring helpers of the agent client *)

Lemma sliceString_in_range (s : string) (lo hi : nat) :
  (lo <= hi)%nat -> (hi <= String.length s)%nat ->
  sliceString s (Z.of_nat lo) (Z.of_nat hi) = Some (substring lo (hi - lo) s).
Proof.
  intros Hlo Hhi. unfold sliceString.
  replace ((0 <=? Z.of_nat lo) && (Z.of_nat lo <=? Z.of_nat hi)
           && (Z.of_nat hi <=? Z.of_nat (String.length s))) with true
    by (symmetry; rewrite !andb_true_iff, !Z.leb_le; lia).
  now rewrite <- Nat2Z.inj_sub, !Nat2Z.id by exact Hlo.
Qed.

Lemma prefix_matchAt (s substr : string) :
  String.prefix substr s = matchAt s substr 0.
Proof.
  unfold matchAt.
  destruct (String.prefix substr s) eqn:Hp.
  - apply prefix_correct in Hp. rewrite Hp. symmetry. apply String.eqb_refl.
  - symmetry. apply String.eqb_neq. intros Heq.
    apply prefix_correct in Heq. congruence.
Qed.

Lemma Contains_matchAt (s substr : string) :
  strings.Contains s substr
  = existsb (matchAt s substr) (seq 0 (S (String.length s))).
Proof.
  induction s as [|c s IH].
  - cbn [strings.Contains String.length seq existsb].
    rewrite prefix_matchAt. now destruct (matchAt "" substr 0).
  - cbn [strings.Contains]. rewrite prefix_matchAt, IH.
    change (String.length (String c s)) with (S (String.length s)).
    rewrite <- (cons_seq (S (String.length s)) 0), <- seq_shift.
    cbn [existsb].
    destruct (matchAt (String c s) substr 0); [reflexivity |].
    cbn [orb].
    clear IH. induction (seq 0 (S (String.length s))) as [|j js IHjs].
    + reflexivity.
    + cbn [List.map existsb]. now rewrite IHjs.
Qed.

Lemma length_substring (s : string) (j k : nat) :
  String.length (substring j k s) = Nat.min k (String.length s - j).
Proof.
  revert j k. induction s as [|c s IH]; intros j k.
  - destruct j, k; reflexivity.
  - destruct j as [|j].
    + destruct k as [|k]; [reflexivity |].
      change (substring 0 (S k) (String c s)) with (String c (substring 0 k s)).
      change (String.length (String c (substring 0 k s)))
        with (S (String.length (substring 0 k s))).
      change (String.length (String c s)) with (S (String.length s)).
      rewrite IH. lia.
    + change (substring (S j) k (String c s)) with (substring j k s).
      change (String.length (String c s)) with (S (String.length s)).
      rewrite IH. reflexivity.
Qed.

Lemma substring_whole (s : string) : substring 0 (String.length s) s = s.
Proof. induction s as [|c s IH]; cbn; [reflexivity | now rewrite IH]. Qed.

(** No match can start so late that [substr] would reach past the end. *)
Lemma matchAt_too_late (s substr : string) (j : nat) :
  (j <= String.length s)%nat ->
  (String.length s < j + String.length substr)%nat ->
  matchAt s substr j = false.
Proof.
  intros Hj Hlate. unfold matchAt. apply String.eqb_neq. intros Heq.
  apply (f_equal String.length) in Heq. rewrite length_substring in Heq. lia.
Qed.

Lemma existsb_too_late (s substr : string) (from count : nat) :
  (from + count <= S (String.length s))%nat ->
  (String.length s < from + String.length substr)%nat ->
  existsb (matchAt s substr) (seq from count) = false.
Proof.
  revert from. induction count as [|count IH]; intros from Hend Hlate.
  - reflexivity.
  - cbn [seq existsb]. rewrite matchAt_too_late by lia.
    apply IH; lia.
Qed.

Lemma findSubstringFrom_matchAt (remaining i : nat) (s substr : string) :
  (i + remaining + String.length substr <= String.length s + 1)%nat ->
  AgentClientHelpers.findSubstringFrom remaining (Z.of_nat i) s substr
  = Some (existsb (matchAt s substr) (seq i remaining)).
Proof.
  revert i. induction remaining as [|remaining IH]; intros i Hrange.
  - reflexivity.
  - cbn [AgentClientHelpers.findSubstringFrom seq existsb].
    rewrite <- Nat2Z.inj_add, sliceString_in_range by lia.
    replace (i + String.length substr - i)%nat with (String.length substr)
      by lia.
    fold (matchAt s substr i).
    destruct (matchAt s substr i); [reflexivity |].
    replace (Z.of_nat i + 1) with (Z.of_nat (S i)) by lia.
    rewrite IH by lia. reflexivity.
Qed.

(** The scan of [findSubstring] finds what [strings.Contains] finds. *)
Lemma findSubstring_Contains (s substr : string) :
  AgentClientHelpers.findSubstring s substr
  = Some (strings.Contains s substr).
Proof.
  unfold AgentClientHelpers.findSubstring. rewrite Contains_matchAt.
  destruct (le_lt_dec (String.length substr) (String.length s)) as [Hle|Hlt].
  - replace (Z.to_nat (Z.of_nat (String.length s)
                       - Z.of_nat (String.length substr) + 1))
      with (String.length s - String.length substr + 1)%nat by lia.
    rewrite (findSubstringFrom_matchAt _ 0) by lia.
    replace (S (String.length s))
      with ((String.length s - String.length substr + 1)
            + String.length substr)%nat by lia.
    rewrite (seq_app (String.length s - String.length substr + 1)
               (String.length substr) 0), existsb_app.
    rewrite (existsb_too_late s substr _ (String.length substr)) by lia.
    now rewrite orb_false_r.
  - replace (Z.to_nat (Z.of_nat (String.length s)
                       - Z.of_nat (String.length substr) + 1))
      with 0%nat by lia.
    cbn [AgentClientHelpers.findSubstringFrom].
    now rewrite existsb_too_late by lia.
Qed.

(** X1: the hand-written [contains] of the agent client never panics on a
    slice bound and answers exactly as [strings.Contains] does, for every
    string and every pattern, the empty ones included. *)
Theorem contains_is_Contains (s substr : string) :
  AgentClientHelpers.contains s substr = Some (strings.Contains s substr).
Proof.
  unfold AgentClientHelpers.contains.
  destruct (Z.of_nat (String.length substr) <=? Z.of_nat (String.length s))
    eqn:Hle; cbn [negb].
  - apply Z.leb_le in Hle.
    destruct (String.eqb s substr) eqn:Heq.
    + apply String.eqb_eq in Heq. subst substr. now rewrite Contains_refl.
    + destruct (Z.of_nat (String.length substr) <? Z.of_nat (String.length s))
        eqn:Hlt; cbn [negb].
      * apply Z.ltb_lt in Hlt.
        change 0 with (Z.of_nat 0).
        rewrite <- Nat2Z.inj_sub by lia.
        rewrite !sliceString_in_range by lia.
        rewrite Nat.sub_0_r.
        replace (String.length s - (String.length s - String.length substr))%nat
          with (String.length substr) by lia.
        fold (matchAt s substr 0).
        fold (matchAt s substr (String.length s - String.length substr)).
        rewrite findSubstring_Contains, Contains_matchAt.
        destruct (matchAt s substr 0) eqn:H0.
        { f_equal. symmetry. apply existsb_exists. exists 0%nat.
          split; [apply in_seq; lia | exact H0]. }
        destruct (matchAt s substr (String.length s - String.length substr))
          eqn:Hend; [| reflexivity].
        f_equal. symmetry. apply existsb_exists.
        exists (String.length s - String.length substr)%nat.
        split; [apply in_seq; lia | exact Hend].
      * apply Z.ltb_ge in Hlt.
        assert (Hlen : String.length substr = String.length s) by lia.
        rewrite Contains_matchAt.
        rewrite <- (cons_seq (String.length s) 0). cbn [existsb].
        rewrite existsb_too_late by lia.
        unfold matchAt. rewrite Hlen, substring_whole, Heq. reflexivity.
  - apply Z.leb_gt in Hle.
    rewrite Contains_matchAt. now rewrite existsb_too_late by lia.
Qed.

(** ** The template helpers *)




(** X3: the label the pages show for a URL (and for an agent without a
    configured kind) names the provider kind the client works with, except
    for the URLs that match an Ollama pattern together with one of the
    openai.com, anthropic.com and googleapis.com patterns: there the client
    decides for Ollama and the pages for the other provider. *)
Theorem page_label_matches_client_kind (Title : string -> string)
    (agent : Agent.t) :
  let url := Agent.ProviderURL agent in
  (templates.getProviderType url
   = providerLabel (AgentClient.detectProviderType url)
   <-> (strings.Contains url "ollama" || strings.Contains url "localhost:11434")
       && (strings.Contains url "openai.com"
           || strings.Contains url "anthropic.com"
           || strings.Contains url "googleapis.com") = false)
  /\ (Agent.ProviderType agent = "" ->
      templates.getProviderDisplay Title agent = templates.getProviderType url).
Proof.
  cbv zeta. split.
  - unfold templates.getProviderType, AgentClient.detectProviderType.
    destruct (strings.Contains (Agent.ProviderURL agent) "ollama"),
      (strings.Contains (Agent.ProviderURL agent) "localhost:11434"),
      (strings.Contains (Agent.ProviderURL agent) "openai.com"),
      (strings.Contains (Agent.ProviderURL agent) "anthropic.com"),
      (strings.Contains (Agent.ProviderURL agent) "googleapis.com");
      vm_compute; split; intros H; first [reflexivity | discriminate H].
  - intros Hkind. unfold templates.getProviderDisplay, templates.getProviderType.
    now rewrite Hkind.
Qed.

Lemma page_label_matches_client_kind_witness :
  templates.getProviderDisplay strings.ToUpper agentA
  = templates.getProviderType (Agent.ProviderURL agentA).
Proof.
  exact (proj2 (page_label_matches_client_kind strings.ToUpper agentA)
           eq_refl).
Defined.

(** ** More on the chat-completion call *)

Section ChatCall.

Variable net : AgentClient.Network.

(** The loop over the endpoints returns a nil error with a successful
    response, or the last error with the failure message built from it. *)
Lemma tryChatEndpoints_outcome (agent : Agent.t) (jsonData : AgentClient.Body)
    (endpoints : list string) (lastErr : error) :
  (endpoints <> [] \/ lastErr <> None) ->
  let '(response, err) :=
    snd (AgentClient.tryChatEndpoints net agent jsonData endpoints lastErr) in
  (AgentResponse.Success response = true /\ err = None)
  \/ (exists e : string,
        err = Some e
        /\ AgentResponse.Success response = false
        /\ AgentResponse.Content response = ""
        /\ AgentResponse.ErrorMessage response
           = "Failed to call OpenAI-compatible API: " ++ e).
Proof.
  revert lastErr. induction endpoints as [|endpoint rest IH]; intros lastErr H.
  - destruct H as [H | H]; [congruence |].
    destruct lastErr as [e|]; [| congruence].
    cbn. right. exists e. repeat split.
  - cbn [AgentClient.tryChatEndpoints].
    assert (Hnext : forall e : string,
               let '(response, err) :=
                 snd (let '(tried, r) :=
                        AgentClient.tryChatEndpoints net agent jsonData rest
                          (Some e) in
                      (endpoint :: tried, r)) in
               (AgentResponse.Success response = true /\ err = None)
               \/ (exists e0 : string,
                     err = Some e0
                     /\ AgentResponse.Success response = false
                     /\ AgentResponse.Content response = ""
                     /\ AgentResponse.ErrorMessage response
                        = "Failed to call OpenAI-compatible API: " ++ e0)).
    { intros e. specialize (IH (Some e)).
      destruct (AgentClient.tryChatEndpoints net agent jsonData rest (Some e))
        as [tried r].
      cbn [snd] in *. apply IH. right. discriminate. }
    destruct (AgentClient.Post net (AgentClient.requestHeaders agent) endpoint
                jsonData) as [e|code body]; [apply Hnext |].
    destruct (negb (code =? AgentClient.StatusOK)); [apply Hnext |].
    destruct (AgentClient.UnmarshalOpenAI net body) as [e|[|content cs]];
      [apply Hnext | apply Hnext |].
    cbn. left. now split.
Qed.

Lemma getChatEndpoints_nonempty (agentURL : string) :
  AgentClient.getChatEndpoints agentURL <> [].
Proof.
  unfold AgentClient.getChatEndpoints.
  destruct (_ || _); [discriminate |].
  destruct (strings.HasSuffix _ "/v1"); discriminate.
Qed.

Lemma callOpenAI_nil_error (agent : Agent.t) (prompt contextStr : string) :
  snd (AgentClient.callOpenAI net agent prompt contextStr) = None
  <-> AgentResponse.Success
        (fst (AgentClient.callOpenAI net agent prompt contextStr)) = true.
Proof.
  unfold AgentClient.callOpenAI, AgentClient.callOpenAI_trace.
  pose proof (tryChatEndpoints_outcome agent
                (AgentClient.OpenAIRequest (Agent.ModelName agent)
                   (AgentClient.chatMessages prompt contextStr))
                (AgentClient.getChatEndpoints (Agent.ProviderURL agent)) None
                (or_introl (getChatEndpoints_nonempty _))) as H.
  destruct (snd (AgentClient.tryChatEndpoints net agent _ _ None))
    as [response err].
  cbn [fst snd].
  destruct H as [[Hs ->] | (e & -> & Hs & _)].
  - tauto.
  - split; [discriminate | congruence].
Qed.


(** X5: [callCustom] returns the result of the chat format when that
    succeeds and the result of the generic format otherwise; either way its
    error is nil exactly when its response is flagged successful, and a
    failure of both formats is reported as an unreachable provider, without
    the error of the chat format. *)
Theorem callCustom_outcome (agent : Agent.t) (prompt contextStr : string) :
  AgentClient.callCustom net agent prompt contextStr
  = (if AgentResponse.Success
          (fst (AgentClient.callOpenAI net agent prompt contextStr))
     then AgentClient.callOpenAI net agent prompt contextStr
     else AgentClient.callGenericCompletion net agent prompt contextStr)
  /\ (let '(response, err) :=
        AgentClient.callCustom net agent prompt contextStr in
      (err = None <-> AgentResponse.Success response = true)
      /\ (AgentResponse.Success response = false ->
          err = Some "custom provider unreachable"
          /\ AgentResponse.ErrorMessage response
             = "All endpoints failed for custom provider")).
Proof.
  pose proof (callOpenAI_nil_error agent prompt contextStr) as Hiff.
  unfold AgentClient.callCustom.
  destruct (AgentClient.callOpenAI net agent prompt contextStr)
    as [response err].
  cbn [fst snd] in Hiff. cbn [fst].
  assert (Hgeneric :
            let '(response, err) :=
              AgentClient.callGenericCompletion net agent prompt contextStr in
            (err = None <-> AgentResponse.Success response = true)
            /\ (AgentResponse.Success response = false ->
                err = Some "custom provider unreachable"
                /\ AgentResponse.ErrorMessage response
                   = "All endpoints failed for custom provider")).
  { unfold AgentClient.callGenericCompletion, AgentClient.tryEndpoint.
    destruct (AgentClient.Post net _ _ _) as [e|code body];
      [cbn; split; [split; discriminate | now split] |].
    destruct (negb (code =? AgentClient.StatusOK));
      [cbn; split; [split; discriminate | now split] |].
    destruct (AgentClient.ExtractGeneric net body) as [e|content];
      cbn; (split; [split; congruence | try discriminate; now split]). }
  destruct err as [e|].
  - destruct (AgentResponse.Success response) eqn:Hs.
    + destruct Hiff as [_ Hiff]. now specialize (Hiff eq_refl).
    + split; [reflexivity | exact Hgeneric].
  - destruct (AgentResponse.Success response) eqn:Hs.
    + split; [reflexivity |]. split; [tauto | congruence].
    + destruct Hiff as [Hiff _]. specialize (Hiff eq_refl). discriminate.
Qed.






End ChatCall.

(** ** The reachability probes *)

Section Probes.

Variable do : AgentClientPing.Transport.

Lemma pingGet_ok (agent : Agent.t) (endpoint : string) :
  AgentClientPing.pingGet do agent endpoint = None
  <-> exists body : string,
        do "GET" (AgentClient.requestHeaders agent) endpoint
          AgentClientPing.NoBody
        = AgentClient.Response 200 body.
Proof.
  unfold AgentClientPing.pingGet, AgentClient.StatusOK.
  destruct (do "GET" _ endpoint AgentClientPing.NoBody) as [e|code body].
  - split; [discriminate | intros [body H]; discriminate H].
  - destruct (code =? 200) eqn:Hcode; cbn [negb].
    + apply Z.eqb_eq in Hcode. subst code. split; [eauto | reflexivity].
    + apply Z.eqb_neq in Hcode.
      split; [discriminate | intros [b H]; congruence].
Qed.

(** X7: [Ping] reports an agent of the ollama, openai or google kind
    reachable exactly when the list endpoint of that kind answers with
    status 200, and an agent of the anthropic kind exactly when the messages
    endpoint answers with status 200 or 400; a transport error and every
    other status are reported as an error. *)
Theorem Ping_status_policy (agent : Agent.t) :
  let url := Agent.ProviderURL agent in
  let headers := AgentClient.requestHeaders agent in
  match AgentClient.switchProviderType (AgentClient.detectProviderType url) with
  | AgentClient.ViaOllama =>
      AgentClientPing.Ping do agent = None
      <-> exists body,
            do "GET" headers (url ++ "/api/tags") AgentClientPing.NoBody
            = AgentClient.Response 200 body
  | AgentClient.ViaOpenAI =>
      AgentClientPing.Ping do agent = None
      <-> exists body,
            do "GET" headers
              (if strings.Contains url "/v1" then url ++ "/models"
               else url ++ "/v1/models") AgentClientPing.NoBody
            = AgentClient.Response 200 body
  | AgentClient.ViaGoogle =>
      AgentClientPing.Ping do agent = None
      <-> exists body,
            do "GET" headers
              (if strings.Contains url "generativelanguage.googleapis.com"
               then url ++ "/models" else url ++ "/v1beta/models")
              AgentClientPing.NoBody
            = AgentClient.Response 200 body
  | AgentClient.ViaAnthropic =>
      AgentClientPing.Ping do agent = None
      <-> exists code body,
            do "POST" headers
              (if strings.Contains url "/v1" then url ++ "/messages"
               else url ++ "/v1/messages")
              (AgentClientPing.TestMessage (Agent.ModelName agent))
            = AgentClient.Response code body
            /\ (code = 200 \/ code = 400)
  | AgentClient.ViaCustom => True
  end.
Proof.
  cbv zeta. unfold AgentClientPing.Ping.
  destruct (AgentClient.switchProviderType _); [| | | | exact I].
  - apply pingGet_ok.
  - unfold AgentClientPing.pingOpenAI.
    destruct (strings.Contains (Agent.ProviderURL agent) "/v1");
      apply pingGet_ok.
  - unfold AgentClientPing.pingAnthropic, AgentClient.StatusOK,
      AgentClientPing.StatusBadRequest.
    destruct (strings.Contains (Agent.ProviderURL agent) "/v1"); cbn [negb];
      (destruct (do "POST" _ _ _) as [e|code body];
       [ split; [discriminate | intros (c & b & H & _); discriminate H]
       | destruct (code =? 200) eqn:H200;
         [ apply Z.eqb_eq in H200; subst code; cbn [orb];
           split; [intros _; eexists; eexists; split; [reflexivity | now left]
                  | reflexivity]
         | destruct (code =? 400) eqn:H400; cbn [orb];
           [ apply Z.eqb_eq in H400; subst code;
             split; [intros _; eexists; eexists; split;
                       [reflexivity | now right]
                    | reflexivity]
           | apply Z.eqb_neq in H200, H400;
             split; [discriminate
                    | intros (c & b & H & Hc); injection H as <- _; lia] ] ] ]).
  - unfold AgentClientPing.pingGoogle.
    destruct (strings.Contains (Agent.ProviderURL agent)
                "generativelanguage.googleapis.com");
      apply pingGet_ok.
Qed.

Lemma pingEndpoints_ok (agent : Agent.t) (jsonData : AgentClientPing.Payload)
    (endpoints : list string) :
  AgentClientPing.pingEndpoints do agent jsonData endpoints = None
  <-> existsb (fun endpoint =>
                 AgentClientPing.tryPingEndpoint do agent endpoint jsonData)
        endpoints = true.
Proof.
  induction endpoints as [|endpoint rest IH];
    cbn [AgentClientPing.pingEndpoints existsb].
  - split; discriminate.
  - destruct (AgentClientPing.tryPingEndpoint do agent endpoint jsonData);
      cbn [orb]; [tauto | exact IH].
Qed.

(** X8: [pingCustom] reports a custom provider reachable exactly when one
    of the chat endpoints of its URL answers the probe with a status from
    200 to 299. *)
Theorem pingCustom_any_2xx (agent : Agent.t) :
  AgentClientPing.pingCustom do agent = None
  <-> exists (endpoint : string) (code : Z) (body : string),
        In endpoint (AgentClient.getChatEndpoints (Agent.ProviderURL agent))
        /\ do "POST" (AgentClient.requestHeaders agent) endpoint
             (AgentClientPing.HiPrompt (Agent.ModelName agent))
           = AgentClient.Response code body
        /\ 200 <= code < 300.
Proof.
  unfold AgentClientPing.pingCustom. rewrite pingEndpoints_ok, existsb_exists.
  unfold AgentClientPing.tryPingEndpoint.
  split.
  - intros (endpoint & Hin & Hok).
    destruct (do "POST" _ endpoint _) as [e|code body] eqn:Hdo;
      [discriminate |].
    apply andb_true_iff in Hok. destruct Hok as [Hlo Hhi].
    apply Z.leb_le in Hlo. apply Z.ltb_lt in Hhi.
    exists endpoint, code, body. now repeat split.
  - intros (endpoint & code & body & Hin & Hdo & Hlo & Hhi).
    exists endpoint. split; [exact Hin |]. rewrite Hdo.
    apply andb_true_iff. split; [now apply Z.leb_le | now apply Z.ltb_lt].
Qed.

End Probes.

(** ** More on the runs of a debate *)

Lemma filter_same_discussion (entries : list DiscussionLog.t) (id0 id : Z) :
  (forall entry, In entry entries -> DiscussionLog.DiscussionID entry = id0) ->
  List.filter (fun log => DiscussionLog.DiscussionID log =? id) entries
  = if id =? id0 then entries else [].
Proof.
  induction entries as [|entry entries IH]; intros Hall.
  - now destruct (id =? id0).
  - cbn [List.filter]. rewrite (Hall entry (in_eq _ _)).
    rewrite IH by (intros e He; apply Hall; now apply in_cons).
    rewrite (Z.eqb_sym id0 id). now destruct (id =? id0).
Qed.

Section DebateFacts.

Variable adapter : Adapter.
Variable discussion : Discussion.t.
Variable agents : list Agent.t.
Variable moderator : option Agent.t.
Variable db0 : database.DB.

Let final : Run := snd (executeDebate adapter discussion agents moderator db0).

Lemma final_calls_wellFormed (c : Call) :
  In c (calls final) ->
  exists (made : nat) (context : string),
    wellFormedCall adapter discussion made context c.
Proof.
  intros Hin.
  destruct (executeDebate_Steps adapter discussion agents moderator db0)
    as (st & Hsteps & _).
  pose proof (Steps_each_wellFormed _ _ _ _ _ Hsteps) as Hall.
  rewrite List.Forall_forall in Hall. now apply Hall.
Qed.

(** X9: the moderator is never shown the transcript: every interjection of
    a debate calls the adapter with the empty context, and its entry is
    stored with the moderator flag. *)
Theorem moderator_gets_no_context (c : Call) :
  In c (calls final) -> isParticipant c = false ->
  contextStr c = ""
  /\ (exists made : nat,
        adapter made (callee c) (prompt c) "" = (response c, err c))
  /\ exists entry : DiscussionLog.t,
       logEntry c = Some entry /\ DiscussionLog.IsModerator entry = true.
Proof.
  intros Hin Hmod.
  destruct (final_calls_wellFormed c Hin)
    as (made & context & Hctx & Hcall & Hentry).
  rewrite Hmod in Hctx. rewrite Hctx in Hcall.
  split; [exact Hctx |]. split; [now exists made |].
  destruct (logEntry c) as [entry|].
  - exists entry. split; [reflexivity |].
    destruct Hentry as (_ & Hflag & _). now rewrite Hflag, Hmod.
  - destruct Hentry as (Hpart & _). congruence.
Qed.

(** X10: the entry a debate stores for a participant turn that succeeded is
    never longer than the character limit of the debate. *)
Theorem participant_entry_within_limit (c : Call) (entry : DiscussionLog.t) :
  In c (calls final) -> isParticipant c = true ->
  logEntry c = Some entry -> DiscussionLog.Status entry = "success" ->
  Z.of_nat (String.length (DiscussionLog.Content entry))
  <= Discussion.MaxCharLimit discussion.
Proof.
  intros Hin Hpart Hlog Hstatus.
  destruct (final_calls_wellFormed c Hin)
    as (made & context & _ & _ & Hentry).
  rewrite Hlog in Hentry. destruct Hentry as (Hs & _ & _ & _ & Hlimit).
  apply Hlimit; [exact Hpart |].
  destruct (succeeded c); [reflexivity |]. rewrite Hstatus in Hs. discriminate.
Qed.

Lemma final_entries_ids (c : Call) (entry : DiscussionLog.t) :
  In c (calls final) -> logEntry c = Some entry ->
  DiscussionLog.DiscussionID entry = Discussion.ID discussion
  /\ DiscussionLog.AgentID entry = Agent.ID (callee c).
Proof.
  intros Hin Hlog.
  destruct (final_calls_wellFormed c Hin) as (made & context & _ & _ & Hentry).
  rewrite Hlog in Hentry. tauto.
Qed.

Lemma final_logs_by_discussion (id : Z) :
  database.GetDiscussionLogs (db final) id
  = (database.GetDiscussionLogs db0 id
     ++ (if id =? Discussion.ID discussion
         then entriesOf (calls final) else []))%list.
Proof.
  destruct (executeDebate_entries adapter discussion agents moderator db0)
    as (Hlogs & _).
  fold final in Hlogs. unfold database.GetDiscussionLogs.
  rewrite Hlogs, List.filter_app. f_equal.
  apply filter_same_discussion. intros entry Hin.
  apply entriesOf_In in Hin. destruct Hin as (c & Hc & Hlog).
  now apply (final_entries_ids c entry Hc Hlog).
Qed.

(** X11: a debate stores entries for its own discussion only: each new
    entry carries the id of the debate and of the agent that was called, the
    entries of the debate read back are the earlier ones followed by the new
    ones in call order, and the entries of every other discussion read back
    as before. *)
Theorem debate_entries_belong_to_debate :
  Forall (fun c => forall entry,
            logEntry c = Some entry ->
            DiscussionLog.DiscussionID entry = Discussion.ID discussion
            /\ DiscussionLog.AgentID entry = Agent.ID (callee c))
    (calls final)
  /\ database.GetDiscussionLogs (db final) (Discussion.ID discussion)
     = (database.GetDiscussionLogs db0 (Discussion.ID discussion)
        ++ entriesOf (calls final))%list
  /\ forall other : Z,
       other <> Discussion.ID discussion ->
       database.GetDiscussionLogs (db final) other
       = database.GetDiscussionLogs db0 other.
Proof.
  split; [| split].
  - apply List.Forall_forall. intros c Hin entry Hlog.
    now apply final_entries_ids.
  - now rewrite final_logs_by_discussion, Z.eqb_refl.
  - intros other Hother. rewrite final_logs_by_discussion.
    apply Z.eqb_neq in Hother. now rewrite Hother, app_nil_r.
Qed.

End DebateFacts.

(** ** How a debate ends *)

Lemma UpdateDiscussion_idempotent (db1 : database.DB) (d : Discussion.t) :
  fst (database.UpdateDiscussion (fst (database.UpdateDiscussion db1 d)) d)
  = fst (database.UpdateDiscussion db1 d).
Proof.
  unfold database.UpdateDiscussion.
  destruct (database.discussions db1 !! Discussion.ID d) eqn:Hrow;
    cbn [fst database.discussions]; [| now rewrite Hrow].
  rewrite lookup_insert_eq. cbn [fst]. now rewrite insert_insert_eq.
Qed.

Lemma UpdateDiscussion_tables (db1 : database.DB) (d : Discussion.t) :
  database.agents (fst (database.UpdateDiscussion db1 d)) = database.agents db1
  /\ database.discussions (fst (database.UpdateDiscussion db1 d))
     = match database.discussions db1 !! Discussion.ID d with
       | Some _ => <[Discussion.ID d := d]> (database.discussions db1)
       | None => database.discussions db1
       end.
Proof.
  unfold database.UpdateDiscussion.
  now destruct (database.discussions db1 !! Discussion.ID d).
Qed.

(** The record and the tables a debate leaves behind. *)
Lemma executeDebate_final_record (adapter : Adapter)
    (discussion : Discussion.t) (agents : list Agent.t)
    (moderator : option Agent.t) (db0 : database.DB) :
  let result := executeDebate adapter discussion agents moderator db0 in
  let discussion' := fst result in
  let final := snd result in
  ((Discussion.Status discussion' = "completed"
    /\ Discussion.FinalSummary discussion'
       = generateSummary (Discussion.Topic discussion) (debateContext final))
   \/ (Discussion.Status discussion' = "failed"
       /\ Discussion.FinalSummary discussion'
          = Discussion.FinalSummary discussion
       /\ Discussion.MaxCharLimit discussion < 0))
  /\ Discussion.withStatus
       (Discussion.withFinalSummary discussion'
          (Discussion.FinalSummary discussion))
       (Discussion.Status discussion)
     = discussion
  /\ database.agents (db final) = database.agents db0
  /\ database.discussions (db final)
     = match database.discussions db0 !! Discussion.ID discussion with
       | Some _ =>
           <[Discussion.ID discussion := discussion']> (database.discussions db0)
       | None => database.discussions db0
       end.
Proof.
  cbv zeta. unfold executeDebate.
  set (st0 := {| db := db0; debateContext := ""; calls := [] |}).
  destruct (moderate_Steps adapter discussion moderator "opening" "" st0)
    as (new0 & Hnew0 & _).
  destruct (roundsLoop_Steps adapter discussion moderator agents
              (Z.to_nat (effectiveMaxRounds discussion)) 1 1
              (moderate adapter discussion moderator "opening" "" st0))
    as (new1 & Hnew1 & _ & Hres).
  pose proof (Steps_app _ _ _ _ _ _ _ Hnew0 Hnew1) as H01.
  destruct (roundsLoop adapter discussion moderator agents _ 1 1 _)
    as [roundCount st1|st1]; cbn [runOf] in *.
  - destruct (moderate_Steps adapter discussion moderator "closing" "" st1)
      as (new2 & Hnew2 & _).
    pose proof (Steps_app _ _ _ _ _ _ _ H01 Hnew2) as H.
    destruct (Steps_tables _ _ _ _ _ H) as [Hd Ha]. cbn [db] in Hd, Ha.
    cbn [Discussion.Status Discussion.withStatus String.eqb Ascii.eqb
         Bool.eqb fst snd db debateContext].
    rewrite UpdateDiscussion_idempotent.
    destruct (UpdateDiscussion_tables
                (db (moderate adapter discussion moderator "closing" "" st1))
                (Discussion.withStatus
                   (Discussion.withFinalSummary discussion
                      (generateSummary (Discussion.Topic discussion)
                         (debateContext
                            (moderate adapter discussion moderator "closing"
                               "" st1)))) "completed")) as [Hagents Hrows].
    cbn [Discussion.ID Discussion.withStatus Discussion.withFinalSummary]
      in Hrows.
    split; [left; now split |].
    split; [now destruct discussion |].
    split; [now rewrite Hagents, Ha |].
    now rewrite Hrows, Hd.
  - destruct (Steps_tables _ _ _ _ _ H01) as [Hd Ha]. cbn [db] in Hd, Ha.
    cbn [fst snd db].
    destruct (UpdateDiscussion_tables (db st1)
                (Discussion.withStatus discussion "failed"))
      as [Hagents Hrows].
    cbn [Discussion.ID Discussion.withStatus] in Hrows.
    split; [right; now repeat split |].
    split; [now destruct discussion |].
    split; [now rewrite Hagents, Ha |].
    now rewrite Hrows, Hd.
Qed.

(** X12: a debate never leaves its record running.  It ends completed
    with the summary of its transcript, or, when a negative character limit
    made a turn panic, failed with the summary untouched; with a limit that
    is not negative it always ends completed.  Nothing else of the record
    changes. *)
Theorem debate_ends_completed_or_failed (adapter : Adapter)
    (discussion : Discussion.t) (agents : list Agent.t)
    (moderator : option Agent.t) (db0 : database.DB) :
  let result := executeDebate adapter discussion agents moderator db0 in
  let discussion' := fst result in
  Discussion.Status discussion' <> "running"
  /\ ((Discussion.Status discussion' = "completed"
       /\ Discussion.FinalSummary discussion'
          = generateSummary (Discussion.Topic discussion)
              (debateContext (snd result)))
      \/ (Discussion.Status discussion' = "failed"
          /\ Discussion.FinalSummary discussion'
             = Discussion.FinalSummary discussion
          /\ Discussion.MaxCharLimit discussion < 0))
  /\ (0 <= Discussion.MaxCharLimit discussion ->
      Discussion.Status discussion' = "completed")
  /\ Discussion.withStatus
       (Discussion.withFinalSummary discussion'
          (Discussion.FinalSummary discussion))
       (Discussion.Status discussion)
     = discussion.
Proof.
  cbv zeta.
  destruct (executeDebate_final_record adapter discussion agents moderator db0)
    as (Hend & Hsame & _).
  split; [| split; [exact Hend | split; [| exact Hsame]]].
  - destruct Hend as [[Hs _] | [Hs _]]; rewrite Hs; discriminate.
  - intros Hlimit. destruct Hend as [[Hs _] | (_ & _ & Hneg)]; [exact Hs | lia].
Qed.

Lemma debate_ends_completed_or_failed_witness :
  Discussion.Status
    (fst (executeDebate chatty threeRounds [agentA; agentB] None debateDB))
  = "completed".
Proof.
  refine (proj1 (proj2 (proj2 (debate_ends_completed_or_failed chatty
                                 threeRounds [agentA; agentB] None debateDB)))
            _).
  cbn. lia.
Defined.


(** ** Starting a debate *)

Lemma getAgents_results (db1 : database.DB) (agentIDs : list Z) :
  (Forall (fun id => is_Some (database.agents db1 !! id)) agentIDs
   /\ omap snd (List.map (database.GetAgent db1) agentIDs) = []
   /\ List.map Agent.ID (omap fst (List.map (database.GetAgent db1) agentIDs))
      = agentIDs)
  \/ (Exists (fun id => database.agents db1 !! id = None) agentIDs
      /\ exists rest,
           omap snd (List.map (database.GetAgent db1) agentIDs)
           = "agent not found" :: rest).
Proof.
  induction agentIDs as [|id ids IH].
  - left. repeat split; constructor.
  - cbn [List.map]. unfold database.GetAgent at 1 3 5.
    destruct (database.agents db1 !! id) as [row|] eqn:Hrow.
    + cbn [omap list_omap fst snd].
      destruct IH as [(Hall & Herr & Hids) | (Hex & rest & Herr)].
      * left. split; [constructor; [now exists row | exact Hall] |].
        split; [exact Herr |]. cbn [List.map Agent.ID Agent.withID].
        now rewrite Hids.
      * right. split; [now apply Exists_cons_tl |]. now exists rest.
    + right. split; [now apply Exists_cons_hd |].
      cbn [omap list_omap fst snd]. eauto.
Qed.

(** X14: [getAgents] returns either one agent for each of the ids (the
    lookups run concurrently, so nothing is said about their order), or the
    error that an agent was not found; its second check can never fire, so
    the error that only some of the agents were found is never returned. *)
Theorem getAgents_all_or_not_found (db1 : database.DB) (agentIDs : list Z) :
  (Forall (fun id => is_Some (database.agents db1 !! id)) agentIDs
   /\ exists found : list Agent.t,
        getAgents db1 agentIDs = (Some found, None)
        /\ Permutation (List.map Agent.ID found) agentIDs)
  \/ (Exists (fun id => database.agents db1 !! id = None) agentIDs
      /\ getAgents db1 agentIDs = (None, Some "agent not found")).
Proof.
  unfold getAgents.
  destruct (getAgents_results db1 agentIDs)
    as [(Hall & Herr & Hids) | (Hex & rest & Herr)]; rewrite Herr.
  - left. split; [exact Hall |].
    assert (Hlen : length (omap fst (List.map (database.GetAgent db1) agentIDs))
                   = length agentIDs).
    { rewrite <- Hids at 2. now rewrite length_map. }
    rewrite Hlen, Nat.eqb_refl. cbn [negb].
    eexists. split; [reflexivity | now rewrite Hids].
  - right. now split.
Qed.




Lemma moderator_gets_no_context_witness :
  exists c : Call,
    In c (calls (snd (executeDebate chatty oneRound [agentA] (Some agentM)
                        debateDB)))
    /\ contextStr c = "".
Proof.
  assert (H : exists c,
             calls (snd (executeDebate chatty oneRound [agentA] (Some agentM)
                           debateDB)) !! 0%nat = Some c
             /\ isParticipant c = false).
  { vm_compute. eexists. split; reflexivity. }
  destruct H as (c & Hc & Hmod).
  assert (Hin : In c (calls (snd (executeDebate chatty oneRound [agentA]
                                    (Some agentM) debateDB)))).
  { apply list_elem_of_In, list_elem_of_lookup. now exists 0%nat. }
  exists c. split; [exact Hin |].
  exact (proj1 (moderator_gets_no_context chatty oneRound [agentA]
                  (Some agentM) debateDB c Hin Hmod)).
Defined.

Lemma participant_entry_within_limit_witness :
  exists (c : Call) (entry : DiscussionLog.t),
    logEntry c = Some entry
    /\ Z.of_nat (String.length (DiscussionLog.Content entry)) <= 5.
Proof.
  assert (H : exists c entry,
             calls (snd (executeDebate (fun _ => tenCharacters) limitFive
                           [agentA] None retryDB)) !! 0%nat = Some c
             /\ isParticipant c = true
             /\ logEntry c = Some entry
             /\ DiscussionLog.Status entry = "success").
  { vm_compute. eexists. eexists. repeat split; reflexivity. }
  destruct H as (c & entry & Hc & Hpart & Hlog & Hstatus).
  assert (Hin : In c (calls (snd (executeDebate (fun _ => tenCharacters)
                                    limitFive [agentA] None retryDB)))).
  { apply list_elem_of_In, list_elem_of_lookup. now exists 0%nat. }
  exists c, entry. split; [exact Hlog |].
  exact (participant_entry_within_limit (fun _ => tenCharacters) limitFive
           [agentA] None retryDB c entry Hin Hpart Hlog Hstatus).
Defined.

(** ** The retry operation *)

(** X16: [RetryFailedAgent] is rejected, with the database untouched, when
    the discussion does not exist, is not running, or the agent does not
    exist, in this order.  Otherwise it calls the agent once, with the
    first-round prompt and the context rebuilt from the stored entries,
    appends one entry for the outcome (a participant entry under the next id
    of the table) and returns no error, also when the call itself failed:
    the failure is recorded in the entry only. *)
Theorem RetryFailedAgent_outcome
    (call : Agent.t -> string -> string -> AgentResponse.t * error)
    (db1 : database.DB) (discussionID agentID : Z) :
  match database.discussions db1 !! discussionID with
  | None =>
      RetryFailedAgent call db1 discussionID agentID
      = (db1, Some "failed to get discussion: discussion not found")
  | Some row =>
      if negb (String.eqb (Discussion.Status row) "running")
      then RetryFailedAgent call db1 discussionID agentID
           = (db1, Some "discussion is not running")
      else
        match database.agents db1 !! agentID with
        | None =>
            RetryFailedAgent call db1 discussionID agentID
            = (db1, Some "failed to get agent: agent not found")
        | Some agentRow =>
            let '(response, err) :=
              call (Agent.withID agentRow agentID)
                (buildPrompt (Discussion.withID row discussionID))
                (retryContext
                   (database.GetDiscussionLogs db1 discussionID) "") in
            exists (db2 : database.DB) (entry : DiscussionLog.t),
              RetryFailedAgent call db1 discussionID agentID = (db2, None)
              /\ database.discussion_logs db2
                 = (database.discussion_logs db1 ++ [entry])%list
              /\ database.discussions db2 = database.discussions db1
              /\ database.agents db2 = database.agents db1
              /\ entry
                 = DiscussionLog.mk (database.discussion_logs_seq db1 + 1)
                     discussionID agentID
                     (match err with
                      | Some e => "Retry failed: " ++ e
                      | None =>
                          if AgentResponse.Success response
                          then AgentResponse.Content response
                          else "Retry failed: "
                               ++ AgentResponse.ErrorMessage response
                      end)
                     (match err with
                      | Some _ => "error"
                      | None =>
                          if AgentResponse.Success response
                          then "success" else "error"
                      end)
                     (AgentResponse.ResponseTime response) false
        end
  end.
Proof.
  unfold RetryFailedAgent, database.GetDiscussion, database.GetAgent.
  destruct (database.discussions db1 !! discussionID) as [row|];
    [| reflexivity].
  cbn [Discussion.Status Discussion.withID].
  destruct (negb (String.eqb (Discussion.Status row) "running"));
    [reflexivity |].
  destruct (database.agents db1 !! agentID) as [agentRow|]; [| reflexivity].
  destruct (call (Agent.withID agentRow agentID)
              (buildPrompt (Discussion.withID row discussionID))
              (retryContext (database.GetDiscussionLogs db1 discussionID) ""))
    as [response err].
  destruct err as [e|]; [| destruct (AgentResponse.Success response)];
    cbv beta iota zeta delta [negb database.InsertDiscussionLog fst];
    eexists; eexists; (split; [reflexivity |]);
    cbn [database.discussion_logs database.discussions database.agents
         DiscussionLog.withID DiscussionLog.DiscussionID DiscussionLog.AgentID
         DiscussionLog.Content DiscussionLog.Status DiscussionLog.ResponseTime
         DiscussionLog.IsModerator];
    repeat split.
Qed.

(** X17: once [StopDiscussion] has succeeded on a discussion, every retry
    on it is rejected and stores nothing. *)
Theorem retry_after_stop_rejected
    (call : Agent.t -> string -> string -> AgentResponse.t * error)
    (db1 db2 : database.DB) (discussionID agentID : Z) :
  StopDiscussion db1 discussionID = (db2, None) ->
  RetryFailedAgent call db2 discussionID agentID
  = (db2, Some "discussion is not running").
Proof.
  unfold StopDiscussion, database.GetDiscussion.
  destruct (database.discussions db1 !! discussionID) as [row|] eqn:Hrow;
    [| discriminate].
  cbn [Discussion.Status Discussion.withID].
  destruct (negb (String.eqb (Discussion.Status row) "running"));
    [discriminate |].
  unfold database.UpdateDiscussion.
  cbn [Discussion.ID Discussion.withStatus Discussion.withID].
  rewrite Hrow. intros H. injection H as <-.
  unfold RetryFailedAgent, database.GetDiscussion.
  cbn [database.discussions]. rewrite lookup_insert_eq. reflexivity.
Qed.

Lemma retry_after_stop_rejected_witness :
  RetryFailedAgent tenCharacters (fst (StopDiscussion retryDB 1)) 1 1
  = (fst (StopDiscussion retryDB 1), Some "discussion is not running").
Proof.
  apply (retry_after_stop_rejected tenCharacters retryDB).
  reflexivity.
Defined.

(** ** The context of a retry *)

Lemma retryContext_successes (logs : list DiscussionLog.t) (builder : string) :
  retryContext logs builder
  = retryContext (List.filter isSuccess logs) builder.
Proof.
  revert builder. induction logs as [|log logs IH]; intros builder.
  - reflexivity.
  - cbn [retryContext List.filter]. unfold isSuccess at 1.
    destruct (String.eqb (DiscussionLog.Status log) "success") eqn:Hs.
    + cbn [retryContext]. rewrite Hs. apply IH.
    + apply IH.
Qed.

Lemma retryContext_keeps (logs : list DiscussionLog.t) (builder sub : string) :
  strings.Contains builder sub = true ->
  strings.Contains (retryContext logs builder) sub = true.
Proof.
  revert builder. induction logs as [|log logs IH]; intros builder H.
  - exact H.
  - cbn [retryContext].
    destruct (String.eqb (DiscussionLog.Status log) "success");
      [| now apply IH].
    apply IH.
    destruct (0 <? String.length builder)%nat;
      rewrite ?append_assoc; now apply Contains_append_r.
Qed.

Lemma retryContext_contains (logs : list DiscussionLog.t) (builder : string)
    (entry : DiscussionLog.t) :
  In entry logs -> DiscussionLog.Status entry = "success" ->
  strings.Contains (retryContext logs builder) (DiscussionLog.Content entry)
  = true.
Proof.
  intros Hin Hs. revert builder.
  induction logs as [|log logs IH]; intros builder; [contradiction |].
  apply in_inv in Hin. destruct Hin as [-> | Hin].
  - cbn [retryContext]. rewrite Hs. cbn [String.eqb Ascii.eqb Bool.eqb].
    apply retryContext_keeps, Contains_skip, Contains_refl.
  - cbn [retryContext].
    destruct (String.eqb (DiscussionLog.Status log) "success"); now apply IH.
Qed.

Lemma length_pos_nonempty (s : string) :
  s <> "" -> (0 <? String.length s)%nat = true.
Proof. destruct s; [congruence | reflexivity]. Qed.

Lemma retryContext_join (logs : list DiscussionLog.t) (builder : string) :
  builder <> "" ->
  Forall (fun entry => isSuccess entry = true) logs ->
  retryContext logs builder
  = builder ++ afterBlankLines (List.map DiscussionLog.Content logs).
Proof.
  intros Hb Hall. revert builder Hb.
  induction Hall as [|log logs Hs _ IH]; intros builder Hb.
  - cbn. now rewrite append_nil_r.
  - cbn [retryContext List.map afterBlankLines fold_right].
    unfold isSuccess in Hs. rewrite Hs, (length_pos_nonempty _ Hb).
    rewrite IH.
    + fold (afterBlankLines (List.map DiscussionLog.Content logs)).
      now rewrite !append_assoc.
    + intros Heq. apply (f_equal String.length) in Heq.
      rewrite !length_append in Heq. destruct builder; [congruence |].
      cbn in Heq. lia.
Qed.

Lemma concat_afterBlankLines (piece : string) (pieces : list string) :
  String.concat (nl ++ nl) (piece :: pieces) = piece ++ afterBlankLines pieces.
Proof.
  revert piece. induction pieces as [|next pieces IH]; intros piece.
  - cbn. now rewrite append_nil_r.
  - change (String.concat (nl ++ nl) (piece :: next :: pieces))
      with (piece ++ (nl ++ nl) ++ String.concat (nl ++ nl) (next :: pieces)).
    rewrite IH. cbn [afterBlankLines fold_right].
    now rewrite !append_assoc.
Qed.

(** X18: the context [RetryFailedAgent] rebuilds is made of the contents
    of the stored entries with the status success, those of the moderator
    included, in stored order and without any header; it contains each of
    them, entries with another status add nothing, and when none of the
    successful contents is empty it is exactly these contents joined by
    blank lines. *)
Theorem retryContext_contents (logs : list DiscussionLog.t) :
  retryContext logs "" = retryContext (List.filter isSuccess logs) ""
  /\ (forall entry : DiscussionLog.t,
        In entry logs -> DiscussionLog.Status entry = "success" ->
        strings.Contains (retryContext logs "") (DiscussionLog.Content entry)
        = true)
  /\ (Forall (fun entry => isSuccess entry = true ->
                           DiscussionLog.Content entry <> "") logs ->
      retryContext logs ""
      = String.concat (nl ++ nl)
          (List.map DiscussionLog.Content (List.filter isSuccess logs))).
Proof.
  split; [apply retryContext_successes |].
  split; [intros entry; apply retryContext_contains |].
  intros Hnonempty. rewrite retryContext_successes.
  assert (Hall : Forall (fun entry => isSuccess entry = true
                                      /\ DiscussionLog.Content entry <> "")
                   (List.filter isSuccess logs)).
  { apply List.Forall_forall. intros entry Hin. apply filter_In in Hin.
    destruct Hin as [Hin Hs]. rewrite List.Forall_forall in Hnonempty.
    split; [exact Hs | now apply Hnonempty]. }
  destruct (List.filter isSuccess logs) as [|first rest]; [reflexivity |].
  apply Forall_cons_1 in Hall. destruct Hall as [[Hs Hc] Hrest].
  cbn [retryContext List.map]. unfold isSuccess in Hs. rewrite Hs.
  cbn [String.length Nat.ltb Nat.leb]. rewrite concat_afterBlankLines.
  apply retryContext_join; [exact Hc |].
  eapply List.Forall_impl; [| exact Hrest]. now intros entry [H _].
Qed.

Lemma retryContext_contents_witness :
  retryContext
    [DiscussionLog.mk 1 1 1 "first" "success" 5 false;
     DiscussionLog.mk 2 1 2 "Error: x" "error" 5 false;
     DiscussionLog.mk 3 1 9 "third" "success" 5 true] ""
  = "first" ++ nl ++ nl ++ "third".
Proof.
  rewrite (proj2 (proj2 (retryContext_contents _))).
  - reflexivity.
  - repeat constructor; discriminate.
Defined.

(** ** The status of a debate that has run *)




(** ** The subscribers of a discussion *)

Section Subscribers.

Import DebateEngineSubscribers.


Lemma subscribersOf_lookup (de : t) (id : Z) (i ch : nat) :
  subscribersOf de id !! i = Some ch ->
  subscribers de !! id = Some (subscribersOf de id).
Proof.
  unfold subscribersOf. destruct (subscribers de !! id); [reflexivity |].
  cbn. discriminate.
Qed.

Lemma subscribersOf_Some (de : t) (id : Z) (subs : list nat) :
  subscribers de !! id = Some subs -> subscribersOf de id = subs.
Proof. unfold subscribersOf. now intros ->. Qed.

Lemma indexOf_Some (ch : nat) (subs : list nat) (i : nat) :
  indexOf ch subs = Some i -> subs !! i = Some ch.
Proof.
  revert i. induction subs as [|sub rest IH]; intros i; cbn [indexOf].
  - discriminate.
  - destruct (Nat.eqb_spec sub ch) as [-> | _].
    + now intros [= <-].
    + destruct (indexOf ch rest) as [k|]; [| discriminate].
      intros [= <-]. now apply IH.
Qed.

Lemma indexOf_None (ch : nat) (subs : list nat) :
  indexOf ch subs = None -> ch ∉ subs.
Proof.
  induction subs as [|sub rest IH]; cbn [indexOf].
  - intros _. apply not_elem_of_nil.
  - destruct (Nat.eqb_spec sub ch) as [-> | Hne]; [discriminate |].
    destruct (indexOf ch rest); [discriminate |]. intros _.
    apply not_elem_of_cons. split; [congruence | now apply IH].
Qed.

Lemma closed_delivered (data : Update) (c : Chan) :
  closed c = false -> closed (delivered data c) = false.
Proof. unfold delivered. now destruct (Nat.ltb _ _). Qed.

Lemma capacity_delivered (data : Update) (c : Chan) :
  capacity (delivered data c) = capacity c.
Proof. unfold delivered. now destruct (Nat.ltb _ _). Qed.

Lemma length_delivered (data : Update) (c : Chan) :
  (length (buffer c) <= capacity c)%nat ->
  (length (buffer (delivered data c)) <= capacity c)%nat.
Proof.
  unfold delivered. destruct (Nat.ltb_spec (length (buffer c)) (capacity c));
    cbn [buffer]; [rewrite length_app; cbn; lia | lia].
Qed.

Lemma send_open (chans : list Chan) (ch : nat) (c : Chan) (data : Update) :
  chans !! ch = Some c -> closed c = false ->
  send chans ch data = Some (<[ch := delivered data c]> chans).
Proof.
  intros Hc Hopen. unfold send, delivered. rewrite Hc, Hopen.
  destruct (Nat.ltb _ _); [reflexivity |].
  now rewrite list_insert_id.
Qed.

Lemma sendAll_delivers (data : Update) (subs : list nat) :
  NoDup subs ->
  forall chans : list Chan,
    (forall ch, ch ∈ subs ->
       exists c, chans !! ch = Some c /\ closed c = false) ->
    exists chans',
      sendAll subs chans data = Some chans'
      /\ forall ch,
           chans' !! ch
           = if decide (ch ∈ subs) then delivered data <$> chans !! ch
             else chans !! ch.
Proof.
  induction 1 as [|sub rest Hnotin Hnodup IH]; intros chans Hopen.
  - exists chans. split; [reflexivity |]. intros ch.
    destruct (decide (ch ∈ [])) as [Hin|_]; [| reflexivity].
    now apply elem_of_nil in Hin.
  - destruct (Hopen sub) as (c & Hc & Hc_open); [left |].
    cbn [sendAll]. rewrite (send_open _ _ _ _ Hc Hc_open).
    destruct (IH (<[sub := delivered data c]> chans)) as (chans' & Hrun & Hget).
    { intros ch Hin. destruct (Hopen ch) as (c' & Hc' & Hopen'); [now right |].
      exists c'. split; [| assumption].
      rewrite list_lookup_insert_ne; [assumption |].
      intros ->. contradiction. }
    exists chans'. split; [assumption |]. intros ch. rewrite Hget.
    destruct (decide (ch = sub)) as [-> | Hne].
    + destruct (decide (sub ∈ rest)) as [Hin|_]; [contradiction |].
      destruct (decide (sub ∈ sub :: rest)) as [_|Hout];
        [| exfalso; apply Hout; left].
      rewrite list_lookup_insert_eq, Hc; [reflexivity |].
      now apply lookup_lt_Some in Hc.
    + rewrite list_lookup_insert_ne by congruence.
      destruct (decide (ch ∈ rest)) as [Hin|Hout];
        destruct (decide (ch ∈ sub :: rest)) as [Hin'|Hout'];
        try reflexivity.
      * exfalso. apply Hout'. now right.
      * exfalso. apply elem_of_cons in Hin'. destruct Hin'; contradiction.
Qed.

Lemma subscribersInv_NoDup (de : t) (id : Z) :
  subscribersInv de -> NoDup (subscribersOf de id).
Proof.
  intros Hinv. apply NoDup_alt. intros i j ch Hi Hj.
  pose proof (subscribersOf_lookup _ _ _ _ Hi) as Hsubs.
  now destruct (inv_once de Hinv id id _ _ i j ch Hsubs Hi Hsubs Hj).
Qed.

Lemma subscribersInv_open (de : t) (id : Z) (ch : nat) :
  subscribersInv de -> ch ∈ subscribersOf de id ->
  exists c, channels de !! ch = Some c /\ closed c = false.
Proof.
  intros Hinv Hin. apply list_elem_of_lookup in Hin. destruct Hin as [i Hi].
  exact (inv_open de Hinv id _ i ch (subscribersOf_lookup _ _ _ _ Hi) Hi).
Qed.

Lemma subscribersInv_new : subscribersInv NewDebateEngine.
Proof.
  split; cbn [NewDebateEngine subscribers channels].
  - intros id subs i ch H. now rewrite lookup_empty in H.
  - intros id1 id2 subs1 subs2 i j ch H. now rewrite lookup_empty in H.
  - intros ch c H. now rewrite lookup_nil in H.
Qed.

Lemma subscribersInv_Subscribe (de : t) (id : Z) :
  subscribersInv de -> subscribersInv (fst (Subscribe de id)).
Proof.
  intros Hinv.
  assert (Hold : forall id' subs i ch,
             subscribers de !! id' = Some subs -> subs !! i = Some ch ->
             (ch < length (channels de))%nat).
  { intros id' subs i ch Hs Hi.
    destruct (inv_open de Hinv id' subs i ch Hs Hi) as (c & Hc & _).
    now apply lookup_lt_Some in Hc. }
  assert (Hplace : forall id' subs i ch,
             <[id := (subscribersOf de id ++ [length (channels de)])%list]>
               (subscribers de) !! id' = Some subs ->
             subs !! i = Some ch ->
             (ch = length (channels de) /\ id' = id
              /\ i = length (subscribersOf de id))
             \/ (ch < length (channels de))%nat
                /\ exists subs0, subscribers de !! id' = Some subs0
                                 /\ subs0 !! i = Some ch).
  { intros id' subs i ch Hs Hi.
    apply lookup_insert_Some in Hs. destruct Hs as [[<- <-] | [Hne Hs]].
    - apply lookup_app_Some in Hi. destruct Hi as [Hi | [Hle Hi]].
      + right. pose proof (subscribersOf_lookup _ _ _ _ Hi) as Hs.
        split; [exact (Hold _ _ _ _ Hs Hi) |]. now exists (subscribersOf de id).
      + left. apply list_lookup_singleton_Some in Hi. destruct Hi as [Hi <-].
        repeat split. lia.
    - right. split; [exact (Hold _ _ _ _ Hs Hi) | now exists subs]. }
  split; cbn [Subscribe fst subscribers channels].
  - intros id' subs i ch Hs Hi.
    destruct (Hplace _ _ _ _ Hs Hi)
      as [(-> & _ & _) | (_ & subs0 & Hs0 & Hi0)].
    + exists {| buffer := []; capacity := 10; closed := false |}.
      split; [| reflexivity].
      rewrite lookup_app_r by lia. now rewrite Nat.sub_diag.
    + destruct (inv_open de Hinv id' subs0 i ch Hs0 Hi0) as (c & Hc & Hopen).
      exists c. split; [| assumption]. now apply lookup_app_l_Some.
  - intros id1 id2 subs1 subs2 i j ch Hs1 Hi Hs2 Hj.
    destruct (Hplace _ _ _ _ Hs1 Hi)
      as [(Hch1 & -> & ->) | (Hlt1 & subs1' & Hs1' & Hi')];
      destruct (Hplace _ _ _ _ Hs2 Hj)
        as [(Hch2 & -> & ->) | (Hlt2 & subs2' & Hs2' & Hj')];
      try (split; reflexivity); try lia.
    exact (inv_once de Hinv _ _ _ _ _ _ _ Hs1' Hi' Hs2' Hj').
  - intros ch c Hc. apply lookup_app_Some in Hc.
    destruct Hc as [Hc | [_ Hc]].
    + exact (inv_capacity de Hinv ch c Hc).
    + apply list_lookup_singleton_Some in Hc. destruct Hc as [_ <-].
      cbn. split; [reflexivity | lia].
Qed.

Lemma indexOf_notin (ch : nat) (subs : list nat) :
  ch ∉ subs -> indexOf ch subs = None.
Proof.
  intros Hout. destruct (indexOf ch subs) as [i|] eqn:Hi; [| reflexivity].
  exfalso. apply Hout. apply indexOf_Some in Hi.
  apply list_elem_of_lookup. now exists i.
Qed.

Lemma lookup_delete_position (l : list nat) (i j x : nat) :
  delete i l !! j = Some x ->
  exists k, k <> i /\ l !! k = Some x
            /\ k = (if Nat.ltb j i then j else S j).
Proof.
  intros Hj. destruct (Nat.ltb_spec j i) as [Hlt|Hge].
  - rewrite list_lookup_delete_lt in Hj by assumption.
    exists j. repeat split; [lia | assumption].
  - rewrite list_lookup_delete_ge in Hj by assumption.
    exists (S j). repeat split; [lia | assumption].
Qed.

Lemma delete_filter (l : list nat) (i ch : nat) :
  NoDup l -> l !! i = Some ch ->
  delete i l = List.filter (fun sub => negb (Nat.eqb sub ch)) l.
Proof.
  intros Hnodup. revert i.
  induction Hnodup as [|sub rest Hnotin Hnodup IH]; intros i Hi.
  - now rewrite lookup_nil in Hi.
  - destruct i as [|i]; cbn [List.filter].
    + injection Hi as ->. rewrite Nat.eqb_refl. cbn.
      symmetry. apply List.forallb_filter_id. apply List.forallb_forall.
      intros x Hx. apply negb_true_iff, Nat.eqb_neq. intros ->.
      apply Hnotin. now apply list_elem_of_In.
    + cbn in Hi. destruct (Nat.eqb_spec sub ch) as [-> | _].
      * exfalso. apply Hnotin. apply list_elem_of_lookup. now exists i.
      * cbn. f_equal. now apply IH.
Qed.

Lemma filter_absent (l : list nat) (ch : nat) :
  ch ∉ l -> List.filter (fun sub => negb (Nat.eqb sub ch)) l = l.
Proof.
  intros Hout. apply List.forallb_filter_id, List.forallb_forall.
  intros x Hx. apply negb_true_iff, Nat.eqb_neq. intros ->.
  apply Hout. now apply list_elem_of_In.
Qed.

Lemma Unsubscribe_found (de : t) (id : Z) (ch i : nat) :
  subscribersInv de -> subscribersOf de id !! i = Some ch ->
  exists c,
    channels de !! ch = Some c /\ closed c = false
    /\ Unsubscribe de id ch
       = Some {| subscribers :=
                   <[id := delete i (subscribersOf de id)]> (subscribers de);
                 channels :=
                   <[ch := {| buffer := buffer c; capacity := capacity c;
                              closed := true |}]> (channels de) |}.
Proof.
  intros Hinv Hi.
  pose proof (subscribersOf_lookup _ _ _ _ Hi) as Hsubs.
  destruct (inv_open de Hinv id _ i ch Hsubs Hi) as (c & Hc & Hopen).
  exists c. split; [assumption |]. split; [assumption |].
  unfold Unsubscribe.
  destruct (indexOf ch (subscribersOf de id)) as [k|] eqn:Hk.
  - apply indexOf_Some in Hk.
    destruct (inv_once de Hinv id id _ _ k i ch Hsubs Hk Hsubs Hi) as [_ ->].
    unfold close. rewrite Hc, Hopen. now rewrite delete_take_drop.
  - apply indexOf_None in Hk. exfalso. apply Hk.
    apply list_elem_of_lookup. now exists i.
Qed.

Lemma subscribersInv_Unsubscribe (de de' : t) (id : Z) (ch : nat) :
  subscribersInv de -> Unsubscribe de id ch = Some de' -> subscribersInv de'.
Proof.
  intros Hinv Hun.
  destruct (indexOf ch (subscribersOf de id)) as [i|] eqn:Hi.
  2:{ unfold Unsubscribe in Hun. rewrite Hi in Hun. now injection Hun as <-. }
  apply indexOf_Some in Hi.
  pose proof (subscribersOf_lookup _ _ _ _ Hi) as Hsubs.
  destruct (Unsubscribe_found de id ch i Hinv Hi) as (c & Hc & Hopen & Heq).
  rewrite Heq in Hun. injection Hun as <-.
  assert (Hplace : forall id' subs j ch',
             <[id := delete i (subscribersOf de id)]> (subscribers de) !! id'
             = Some subs ->
             subs !! j = Some ch' ->
             ch' <> ch
             /\ exists subs0 k,
                  subscribers de !! id' = Some subs0 /\ subs0 !! k = Some ch'
                  /\ (id' = id -> k = (if Nat.ltb j i then j else S j))
                  /\ (id' <> id -> k = j)).
  { intros id' subs j ch' Hs Hj.
    apply lookup_insert_Some in Hs. destruct Hs as [[<- <-] | [Hne Hs]].
    - apply lookup_delete_position in Hj.
      destruct Hj as (k & Hki & Hk & Hkj). split.
      + intros ->.
        now destruct (inv_once de Hinv id id _ _ k i ch Hsubs Hk Hsubs Hi).
      + exists (subscribersOf de id), k.
        split; [assumption |]. split; [assumption |].
        split; [now intros _ | congruence].
    - split.
      + intros ->.
        destruct (inv_once de Hinv id' id _ _ j i ch Hs Hj Hsubs Hi).
        congruence.
      + exists subs, j.
        split; [assumption |]. split; [assumption |].
        split; [congruence | reflexivity]. }
  split; cbn [subscribers channels].
  - intros id' subs j ch' Hs Hj.
    destruct (Hplace _ _ _ _ Hs Hj) as (Hne & subs0 & k & Hs0 & Hk & _).
    destruct (inv_open de Hinv id' subs0 k ch' Hs0 Hk) as (c' & Hc' & Hopen').
    exists c'. split; [| assumption].
    now rewrite list_lookup_insert_ne by congruence.
  - intros id1 id2 subs1 subs2 j1 j2 ch' Hs1 Hj1 Hs2 Hj2.
    destruct (Hplace _ _ _ _ Hs1 Hj1)
      as (_ & subs1' & k1 & Hs1' & Hk1 & Hsame1 & Hother1).
    destruct (Hplace _ _ _ _ Hs2 Hj2)
      as (_ & subs2' & k2 & Hs2' & Hk2 & Hsame2 & Hother2).
    destruct (inv_once de Hinv _ _ _ _ _ _ _ Hs1' Hk1 Hs2' Hk2) as [<- Hk].
    split; [reflexivity |].
    destruct (decide (id1 = id)) as [Heq'|Hne'].
    + specialize (Hsame1 Heq'). specialize (Hsame2 Heq').
      destruct (Nat.ltb_spec j1 i), (Nat.ltb_spec j2 i); lia.
    + specialize (Hother1 Hne'). specialize (Hother2 Hne'). lia.
  - intros ch' c' Hc'. apply list_lookup_insert_Some in Hc'.
    destruct Hc' as [(<- & <- & _) | [_ Hc']].
    + exact (inv_capacity de Hinv ch c Hc).
    + exact (inv_capacity de Hinv ch' c' Hc').
Qed.

Lemma broadcast_delivers (de : t) (id : Z) (data : Update) :
  subscribersInv de ->
  exists chans,
    broadcast de id data
    = Some {| subscribers := subscribers de; channels := chans |}
    /\ forall ch,
         chans !! ch
         = if decide (ch ∈ subscribersOf de id)
           then delivered data <$> channels de !! ch
           else channels de !! ch.
Proof.
  intros Hinv.
  destruct (sendAll_delivers data (subscribersOf de id)
              (subscribersInv_NoDup de id Hinv) (channels de))
    as (chans & Hrun & Hget).
  { intros ch Hin. now apply (subscribersInv_open de id). }
  exists chans. split; [| assumption].
  unfold broadcast. now rewrite Hrun.
Qed.

Lemma subscribersInv_broadcast (de de' : t) (id : Z) (data : Update) :
  subscribersInv de -> broadcast de id data = Some de' -> subscribersInv de'.
Proof.
  intros Hinv Hb.
  destruct (broadcast_delivers de id data Hinv) as (chans & Heq & Hget).
  rewrite Heq in Hb. injection Hb as <-.
  split; cbn [subscribers channels].
  - intros id' subs i ch Hs Hi.
    destruct (inv_open de Hinv id' subs i ch Hs Hi) as (c & Hc & Hopen).
    rewrite Hget, Hc.
    destruct (decide (ch ∈ subscribersOf de id)); cbn.
    + eexists. split; [reflexivity |]. now apply closed_delivered.
    + now exists c.
  - exact (inv_once de Hinv).
  - intros ch c'. rewrite Hget.
    destruct (decide (ch ∈ subscribersOf de id)) as [_|_];
      [| exact (inv_capacity de Hinv ch c')].
    destruct (channels de !! ch) as [c|] eqn:Hc; cbn; [| discriminate].
    intros [= <-]. destruct (inv_capacity de Hinv ch c Hc) as [Hcap Hlen].
    rewrite capacity_delivered. split; [assumption |].
    rewrite <- Hcap. apply length_delivered. lia.
Qed.

Lemma subscribersInv_receive (de : t) (ch : nat) :
  subscribersInv de ->
  subscribersInv {| subscribers := subscribers de;
                    channels := receive (channels de) ch |}.
Proof.
  intros Hinv. unfold receive.
  destruct (channels de !! ch) as [c|] eqn:Hc; [| now destruct de].
  split; cbn [subscribers channels].
  - intros id subs i ch' Hs Hi.
    destruct (inv_open de Hinv id subs i ch' Hs Hi) as (c' & Hc' & Hopen).
    destruct (decide (ch' = ch)) as [-> | Hne].
    + eexists. split.
      * apply list_lookup_insert_eq. now apply lookup_lt_Some in Hc.
      * cbn. congruence.
    + exists c'. split; [| assumption].
      now rewrite list_lookup_insert_ne by congruence.
  - exact (inv_once de Hinv).
  - intros ch' c' Hc'. apply list_lookup_insert_Some in Hc'.
    destruct Hc' as [(<- & <- & _) | [_ Hc']].
    + destruct (inv_capacity de Hinv ch c Hc) as [Hcap Hlen]. cbn.
      split; [assumption |]. destruct (buffer c); cbn in *; lia.
    + exact (inv_capacity de Hinv ch' c' Hc').
Qed.

Lemma subscribersInv_perform (de de' : t) (op : Op) :
  subscribersInv de -> perform de op = Some de' -> subscribersInv de'.
Proof.
  intros Hinv. destruct op as [id|id ch|id data|ch]; cbn [perform].
  - intros [= <-]. now apply subscribersInv_Subscribe.
  - now apply subscribersInv_Unsubscribe.
  - now apply subscribersInv_broadcast.
  - intros [= <-]. now apply subscribersInv_receive.
Qed.

Lemma perform_returns (de : t) (op : Op) :
  subscribersInv de -> exists de', perform de op = Some de'.
Proof.
  intros Hinv. destruct op as [id|id ch|id data|ch]; cbn [perform].
  - now eexists.
  - destruct (indexOf ch (subscribersOf de id)) as [i|] eqn:Hi.
    + apply indexOf_Some in Hi.
      destruct (Unsubscribe_found de id ch i Hinv Hi) as (c & _ & _ & ->).
      now eexists.
    + unfold Unsubscribe. rewrite Hi. now eexists.
  - destruct (broadcast_delivers de id data Hinv) as (chans & -> & _).
    now eexists.
  - now eexists.
Qed.

Lemma performAll_returns (ops : list Op) (de : t) :
  subscribersInv de ->
  exists de', performAll de ops = Some de' /\ subscribersInv de'.
Proof.
  revert de. induction ops as [|op rest IH]; intros de Hinv; cbn [performAll].
  - now exists de.
  - destruct (perform_returns de op Hinv) as [de1 H1]. rewrite H1.
    apply IH. exact (subscribersInv_perform de de1 op Hinv H1).
Qed.

Lemma reachable_subscribersInv (de : t) : reachable de -> subscribersInv de.
Proof.
  intros [ops Hops].
  destruct (performAll_returns ops NewDebateEngine subscribersInv_new)
    as (de' & Heq & Hinv).
  rewrite Hops in Heq. now injection Heq as <-.
Qed.

(** X20: whatever subscribers, readers and the engine do, in whatever order,
    starting from a new engine: no operation panics ([broadcast] never sends
    on a closed channel, [Unsubscribe] never closes a channel twice), and no
    channel ever holds more than 10 pending updates. *)
Theorem subscriber_operations_never_panic (ops : list Op) :
  exists de,
    performAll NewDebateEngine ops = Some de
    /\ forall ch c,
         channels de !! ch = Some c -> (length (buffer c) <= 10)%nat.
Proof.
  destruct (performAll_returns ops NewDebateEngine subscribersInv_new)
    as (de & Heq & Hinv).
  exists de. split; [assumption |]. intros ch c Hc.
  now destruct (inv_capacity de Hinv ch c Hc).
Qed.

(** X21: in a state the engine can be in, [broadcast] returns, leaves the
    subscriber lists as they are, gives each channel subscribed to the
    discussion the update once, behind its pending ones, unless 10 are
    pending already, in which case the update is dropped for that channel,
    and leaves every other channel as it is. *)
Theorem broadcast_reaches_subscribers (de : t) (id : Z) (data : Update) :
  reachable de ->
  exists de',
    broadcast de id data = Some de'
    /\ subscribers de' = subscribers de
    /\ forall ch,
         channels de' !! ch
         = if decide (ch ∈ subscribersOf de id)
           then (fun c =>
                   if Nat.ltb (length (buffer c)) 10
                   then {| buffer := (buffer c ++ [data])%list;
                           capacity := 10; closed := false |}
                   else c) <$> channels de !! ch
           else channels de !! ch.
Proof.
  intros Hreach. apply reachable_subscribersInv in Hreach.
  destruct (broadcast_delivers de id data Hreach) as (chans & Heq & Hget).
  eexists. split; [exact Heq |]. split; [reflexivity |].
  intros ch. cbn [channels]. rewrite Hget.
  destruct (decide (ch ∈ subscribersOf de id)); [| reflexivity].
  destruct (channels de !! ch) as [c|] eqn:Hc; [| reflexivity]. cbn.
  destruct (inv_capacity de Hreach ch c Hc) as [Hcap _].
  unfold delivered. now rewrite Hcap.
Qed.

Lemma broadcast_reaches_subscribers_witness :
  exists de',
    broadcast (fst (Subscribe NewDebateEngine 1)) 1 (LogUpdate oneEntry)
    = Some de'
    /\ channels de' !! 0%nat
       = Some {| buffer := [LogUpdate oneEntry]; capacity := 10;
                 closed := false |}.
Proof.
  destruct (broadcast_reaches_subscribers (fst (Subscribe NewDebateEngine 1))
              1 (LogUpdate oneEntry)) as (de' & Heq & _ & Hget).
  - now exists [DoSubscribe 1].
  - exists de'. split; [assumption |]. now rewrite Hget.
Defined.

(** X22: in a state the engine can be in, [Unsubscribe] of a channel
    subscribed to the discussion returns, closes that channel with its
    pending updates kept, leaves the other channels as they are, and takes
    the channel out of the subscriber lists, keeping the order of the
    others; unsubscribing it again changes nothing. *)
Theorem Unsubscribe_closes_and_removes (de : t) (id : Z) (ch : nat) :
  reachable de -> ch ∈ subscribersOf de id ->
  exists de' c,
    Unsubscribe de id ch = Some de'
    /\ channels de !! ch = Some c
    /\ channels de' !! ch
       = Some {| buffer := buffer c; capacity := capacity c; closed := true |}
    /\ (forall ch', ch' <> ch -> channels de' !! ch' = channels de !! ch')
    /\ (forall id',
          subscribersOf de' id'
          = List.filter (fun sub => negb (Nat.eqb sub ch))
              (subscribersOf de id'))
    /\ Unsubscribe de' id ch = Some de'.
Proof.
  intros Hreach Hin. apply reachable_subscribersInv in Hreach.
  apply list_elem_of_lookup in Hin. destruct Hin as [i Hi].
  pose proof (subscribersOf_lookup _ _ _ _ Hi) as Hsubs.
  destruct (Unsubscribe_found de id ch i Hreach Hi) as (c & Hc & Hopen & Heq).
  assert (Hlists : forall id',
             subscribersOf
               {| subscribers :=
                    <[id := delete i (subscribersOf de id)]> (subscribers de);
                  channels :=
                    <[ch := {| buffer := buffer c; capacity := capacity c;
                               closed := true |}]> (channels de) |} id'
             = List.filter (fun sub => negb (Nat.eqb sub ch))
                 (subscribersOf de id')).
  { intros id'. unfold subscribersOf at 1. cbn [subscribers].
    destruct (decide (id' = id)) as [-> | Hne].
    - rewrite lookup_insert_eq. cbn.
      apply delete_filter; [now apply subscribersInv_NoDup | assumption].
    - rewrite lookup_insert_ne by congruence.
      fold (subscribersOf de id'). symmetry. apply filter_absent.
      intros Hin'. apply list_elem_of_lookup in Hin'. destruct Hin' as [j Hj].
      pose proof (subscribersOf_lookup _ _ _ _ Hj) as Hsubs'.
      destruct (inv_once de Hreach id' id _ _ j i ch Hsubs' Hj Hsubs Hi).
      congruence. }
  eexists. exists c. split; [exact Heq |]. split; [assumption |].
  cbn [channels]. split.
  { apply list_lookup_insert_eq. now apply lookup_lt_Some in Hc. }
  split.
  { intros ch' Hne. now rewrite list_lookup_insert_ne by congruence. }
  split; [exact Hlists |].
  unfold Unsubscribe. rewrite Hlists, indexOf_notin; [reflexivity |].
  intros Hin. apply list_elem_of_In, List.filter_In in Hin.
  destruct Hin as [_ Hin]. now rewrite Nat.eqb_refl in Hin.
Qed.

Lemma Unsubscribe_closes_and_removes_witness :
  exists de',
    Unsubscribe (fst (Subscribe NewDebateEngine 1)) 1 0 = Some de'
    /\ subscribersOf de' 1 = [].
Proof.
  destruct (Unsubscribe_closes_and_removes (fst (Subscribe NewDebateEngine 1))
              1 0) as (de' & c & Heq & _ & _ & _ & Hlists & _).
  - now exists [DoSubscribe 1].
  - cbn. apply list_elem_of_In. now left.
  - exists de'. split; [assumption |]. now rewrite Hlists.
Defined.

End Subscribers.

(** ** The order of the turns of a debate *)

Lemma turnsTaken_app (a b : list Call) :
  turnsTaken (a ++ b) = (turnsTaken a ++ turnsTaken b)%list.
Proof. apply omap_app. Qed.

Lemma turnsTaken_moderator (cs : list Call) :
  Forall (fun c => isParticipant c = false /\ is_Some (logEntry c)) cs ->
  turnsTaken cs = [].
Proof.
  induction 1 as [|c cs [Hc _] _ IH]; [reflexivity |].
  unfold turnsTaken in *. cbn [omap list_omap]. unfold turnTaken at 1.
  unfold isParticipant in Hc. destruct (speaker c); [discriminate |].
  exact IH.
Qed.

Lemma moderate_no_turn (adapter : Adapter) (discussion : Discussion.t)
    (moderator : option Agent.t) (moderatorType context : string) (st : Run) :
  exists new : list Call,
    calls (moderate adapter discussion moderator moderatorType context st)
    = (calls st ++ new)%list
    /\ turnsTaken new = [].
Proof.
  destruct (moderate_Steps adapter discussion moderator moderatorType context
              st) as (new & Hnew & Hall & _).
  exists new. split; [exact (Steps_calls _ _ _ _ _ Hnew) |].
  now apply turnsTaken_moderator.
Qed.

Lemma participantTurn_callee (adapter : Adapter) (discussion : Discussion.t)
    (moderator : option Agent.t) (round : Z) (i totalAgents : nat)
    (agent : Agent.t) (st : Run) :
  exists (c : Call) (rest : list Call),
    calls (runOf (participantTurn adapter discussion moderator round i
                    totalAgents agent st))
    = (calls st ++ c :: rest)%list
    /\ callee c = agent.
Proof.
  unfold participantTurn.
  set (prompt := if 1 <? round then _ else _).
  destruct (adapter (length (calls st)) agent prompt (debateContext st))
    as [resp e].
  destruct e as [e|];
    [| destruct (AgentResponse.Success resp); cbn [negb];
       [ destruct (Discussion.MaxCharLimit discussion
                   <? Z.of_nat (String.length (AgentResponse.Content resp)));
         [ destruct (Discussion.MaxCharLimit discussion <? 0) |] |] ];
    cbv beta iota zeta delta [database.InsertDiscussionLog runOf].
  all: try match goal with
           | |- context [if ?b then moderate _ _ _ _ _ ?s else _] =>
               destruct (moderate_Steps adapter discussion moderator "interim"
                           (AgentResponse.Content resp) s)
                 as (new & Hnew & _);
               apply Steps_calls in Hnew;
               destruct b
           end.
  all: eexists; eexists;
       (split;
        [ first [ rewrite Hnew; cbn [calls]; rewrite <- app_assoc; reflexivity
                | cbn [calls]; reflexivity ]
        | reflexivity ]).
Qed.

Lemma participantTurn_turn (adapter : Adapter) (discussion : Discussion.t)
    (moderator : option Agent.t) (round : Z) (i totalAgents : nat)
    (agent : Agent.t) (st : Run) :
  match participantTurn adapter discussion moderator round i totalAgents
          agent st with
  | Returned active st' =>
      exists new : list Call,
        calls st' = (calls st ++ new)%list
        /\ turnsTaken new
           = [{| turnRound := round; turnAgent := agent; turnOk := active |}]
  | Panicked _ => True
  end.
Proof.
  destruct (participantTurn_Steps adapter discussion moderator round i
              totalAgents agent st)
    as (c & rest & Hsteps & Hsp & Hrest & _ & Hres).
  destruct (participantTurn_callee adapter discussion moderator round i
              totalAgents agent st) as (c' & rest' & Hcalls & Hcallee).
  apply Steps_calls in Hsteps. rewrite Hsteps in Hcalls.
  apply app_inv_head in Hcalls. injection Hcalls as <- <-.
  destruct (participantTurn adapter discussion moderator round i totalAgents
              agent st) as [active st'|st']; [| exact I].
  cbn [runOf] in Hsteps. destruct Hres as [-> _].
  exists (c :: rest). split; [assumption |].
  change (c :: rest) with ([c] ++ rest)%list.
  rewrite turnsTaken_app, (turnsTaken_moderator rest Hrest), app_nil_r.
  unfold turnsTaken, turnTaken. cbn [omap list_omap].
  now rewrite Hsp, Hcallee.
Qed.

Lemma agentsLoop_turns (adapter : Adapter) (discussion : Discussion.t)
    (moderator : option Agent.t) (round : Z) (totalAgents : nat)
    (agents : list Agent.t) (i : nat) (roundActive : bool) (st : Run) :
  match agentsLoop adapter discussion moderator round totalAgents i agents
          roundActive st with
  | Returned active st' =>
      exists new : list Call,
        calls st' = (calls st ++ new)%list
        /\ List.map slotOf (turnsTaken new) = List.map (pair round) agents
        /\ active = roundActive || existsb turnOk (turnsTaken new)
  | Panicked _ => True
  end.
Proof.
  revert i roundActive st.
  induction agents as [|agent rest IH]; intros i roundActive st;
    cbn [agentsLoop].
  - exists []. rewrite app_nil_r, orb_false_r. now repeat split.
  - pose proof (participantTurn_turn adapter discussion moderator round i
                  totalAgents agent st) as Hturn.
    destruct (participantTurn adapter discussion moderator round i totalAgents
                agent st) as [active1 st1|st1]; [| exact I].
    destruct Hturn as (new1 & Hcalls1 & Hturns1).
    specialize (IH (S i) (roundActive || active1) st1).
    destruct (agentsLoop adapter discussion moderator round totalAgents (S i)
                rest (roundActive || active1) st1) as [active st'|st'];
      [| exact I].
    destruct IH as (new2 & Hcalls2 & Hturns2 & Hactive).
    exists (new1 ++ new2)%list.
    rewrite Hcalls2, Hcalls1, <- app_assoc, turnsTaken_app, Hturns1.
    split; [reflexivity |]. cbn [app List.map existsb turnOk].
    split; [unfold slotOf at 1; cbn [turnRound turnAgent]; now rewrite Hturns2 |].
    now rewrite Hactive, orb_assoc.
Qed.

Lemma schedule_round (agents : list Agent.t) (first : Z) (rounds : nat) :
  schedule agents first (S rounds)
  = (List.map (pair first) agents ++ schedule agents (first + 1) rounds)%list.
Proof.
  unfold schedule. rewrite <- cons_seq. cbn [flat_map].
  rewrite Z.add_0_r. f_equal.
  rewrite <- seq_shift, flat_map_concat_map, List.map_map,
    <- flat_map_concat_map.
  apply flat_map_ext. intros j. now replace (first + Z.of_nat (S j))
                                  with (first + 1 + Z.of_nat j) by lia.
Qed.

Lemma slot_round (round : Z) (agents : list Agent.t) (turns : list Turn)
    (t : Turn) :
  List.map slotOf turns = List.map (pair round) agents ->
  In t turns -> turnRound t = round.
Proof.
  intros Hslots Hin. apply (in_map slotOf) in Hin. rewrite Hslots in Hin.
  apply in_map_iff in Hin. destruct Hin as (agent & Heq & _).
  unfold slotOf in Heq. now injection Heq as <- _.
Qed.

Lemma schedule_rounds (agents : list Agent.t) (first : Z) (rounds : nat)
    (turns : list Turn) (t : Turn) :
  List.map slotOf turns = schedule agents first rounds ->
  In t turns -> first <= turnRound t < first + Z.of_nat rounds.
Proof.
  intros Hslots Hin. apply (in_map slotOf) in Hin. rewrite Hslots in Hin.
  unfold schedule in Hin. apply in_flat_map in Hin.
  destruct Hin as (j & Hj & Hin). apply in_seq in Hj.
  apply in_map_iff in Hin. destruct Hin as (agent & Heq & _).
  unfold slotOf in Heq. injection Heq as <- _. lia.
Qed.

Lemma roundsLoop_turns (adapter : Adapter) (discussion : Discussion.t)
    (moderator : option Agent.t) (agents : list Agent.t) (remaining : nat)
    (round roundCount : Z) (st : Run) :
  match roundsLoop adapter discussion moderator agents remaining round
          roundCount st with
  | Returned _ st' =>
      exists (new : list Call) (rounds : nat),
        calls st' = (calls st ++ new)%list
        /\ (rounds <= remaining)%nat
        /\ (0 < remaining -> 1 <= rounds)%nat
        /\ List.map slotOf (turnsTaken new) = schedule agents round rounds
        /\ (forall j : nat,
              (S j < rounds)%nat ->
              exists t, In t (turnsTaken new)
                        /\ turnRound t = round + Z.of_nat j
                        /\ turnOk t = true)
        /\ ((rounds < remaining)%nat ->
            forall t, In t (turnsTaken new) ->
                      turnRound t = round + Z.of_nat rounds - 1 ->
                      turnOk t = false)
  | Panicked _ => True
  end.
Proof.
  revert round roundCount st.
  induction remaining as [|remaining IH]; intros round roundCount st;
    cbn [roundsLoop].
  - exists [], 0%nat. rewrite app_nil_r.
    repeat split; try lia; intros; lia.
  - pose proof (agentsLoop_turns adapter discussion moderator round
                  (length agents) agents 0 false st) as Hround.
    destruct (agentsLoop adapter discussion moderator round (length agents) 0
                agents false st) as [active st1|st1]; [| exact I].
    destruct Hround as (new1 & Hcalls1 & Hslots1 & Hactive).
    cbn [orb] in Hactive.
    destruct (moderate_no_turn adapter discussion moderator "round_summary"
                ("Round " ++ fmt.Sprint round ++ " completed") st1)
      as (new2 & Hcalls2 & Hturns2).
    destruct active; cbn [negb].
    + specialize (IH (round + 1) (roundCount + 1)
                    (moderate adapter discussion moderator "round_summary"
                       ("Round " ++ fmt.Sprint round ++ " completed") st1)).
      destruct (roundsLoop adapter discussion moderator agents remaining
                  (round + 1) (roundCount + 1) _) as [count st'|st'];
        [| exact I].
      destruct IH as (new3 & rounds & Hcalls3 & Hle & Hge & Hslots3
                      & Hbefore & Hlast).
      exists (new1 ++ new2 ++ new3)%list, (S rounds).
      rewrite Hcalls3, Hcalls2, Hcalls1, <- !app_assoc.
      rewrite !turnsTaken_app, Hturns2. cbn [app].
      rewrite schedule_round, List.map_app, Hslots1, Hslots3.
      split; [reflexivity |]. split; [lia |]. split; [lia |].
      split; [reflexivity |]. split.
      * intros [|j] Hj.
        -- symmetry in Hactive. apply List.existsb_exists in Hactive.
           destruct Hactive as (t & Hin & Hok). exists t.
           split; [apply in_or_app; now left |]. split; [| assumption].
           rewrite (slot_round round agents _ t Hslots1 Hin). lia.
        -- destruct (Hbefore j) as (t & Hin & Hr & Hok); [lia |].
           exists t. split; [apply in_or_app; now right |].
           split; [lia | assumption].
      * intros Hlt t Hin Hr. apply in_app_or in Hin.
        destruct Hin as [Hin|Hin].
        -- pose proof (slot_round round agents _ t Hslots1 Hin). lia.
        -- apply Hlast; [lia | assumption | lia].
    + exists (new1 ++ new2)%list, 1%nat.
      rewrite Hcalls2, Hcalls1, <- app_assoc, turnsTaken_app, Hturns2,
        app_nil_r.
      split; [reflexivity |]. split; [lia |]. split; [lia |].
      split.
      { rewrite Hslots1. unfold schedule. cbn [seq flat_map].
        now rewrite app_nil_r, Z.add_0_r. }
      split; [intros j Hj; lia |].
      intros _ t Hin _.
      destruct (turnOk t) eqn:Hok; [| reflexivity].
      assert (Hex : existsb turnOk (turnsTaken new1) = true).
      { apply List.existsb_exists. now exists t. }
      congruence.
Qed.

(** X23: a debate whose character limit is not negative goes through the
    participants in the order of the list, round after round from round 1:
    it runs at least one round and at most the configured number (3 when
    that is not positive), every round but the last had a turn that
    succeeded, and when it stops before the configured number the last
    round had none.  The moderator never takes a participant turn. *)
Theorem turns_follow_schedule (adapter : Adapter) (discussion : Discussion.t)
    (agents : list Agent.t) (moderator : option Agent.t) (db0 : database.DB) :
  0 <= Discussion.MaxCharLimit discussion ->
  let turns :=
    turnsTaken (calls (snd (executeDebate adapter discussion agents moderator
                              db0))) in
  exists rounds : nat,
    1 <= Z.of_nat rounds <= effectiveMaxRounds discussion
    /\ List.map slotOf turns = schedule agents 1 rounds
    /\ (forall round : Z,
          1 <= round < Z.of_nat rounds ->
          exists t, In t turns /\ turnRound t = round /\ turnOk t = true)
    /\ (Z.of_nat rounds < effectiveMaxRounds discussion ->
        forall t, In t turns -> turnRound t = Z.of_nat rounds ->
                  turnOk t = false).
Proof.
  intros Hlimit. cbv zeta. unfold executeDebate.
  set (st0 := {| db := db0; debateContext := ""; calls := [] |}).
  destruct (moderate_no_turn adapter discussion moderator "opening" "" st0)
    as (new0 & Hcalls0 & Hturns0).
  cbn [st0 calls app] in Hcalls0.
  destruct (roundsLoop_Steps adapter discussion moderator agents
              (Z.to_nat (effectiveMaxRounds discussion)) 1 1
              (moderate adapter discussion moderator "opening" "" st0))
    as (steps & _ & _ & Hpanic).
  pose proof (roundsLoop_turns adapter discussion moderator agents
                (Z.to_nat (effectiveMaxRounds discussion)) 1 1
                (moderate adapter discussion moderator "opening" "" st0))
    as Hrounds.
  destruct (roundsLoop adapter discussion moderator agents _ 1 1 _)
    as [count st1|st1]; [| lia].
  destruct Hrounds as (new1 & rounds & Hcalls1 & Hle & Hge & Hslots
                       & Hbefore & Hlast).
  destruct (moderate_no_turn adapter discussion moderator "closing" "" st1)
    as (new2 & Hcalls2 & Hturns2).
  cbn [snd calls].
  rewrite Hcalls2, Hcalls1, Hcalls0, !turnsTaken_app, Hturns0, Hturns2,
    app_nil_r. cbn [app].
  pose proof (effectiveMaxRounds_pos discussion) as Hpos.
  exists rounds. split; [lia |]. split; [assumption |]. split.
  - intros round Hround.
    destruct (Hbefore (Z.to_nat (round - 1))) as (t & Hin & Hr & Hok); [lia |].
    exists t. split; [assumption |]. split; [lia | assumption].
  - intros Hlt t Hin Hr. apply Hlast; [lia | assumption | lia].
Qed.

Lemma turns_follow_schedule_witness :
  exists rounds : nat,
    List.map slotOf
      (turnsTaken (calls (snd (executeDebate chatty oneRound [agentA; agentB]
                                 None debateDB))))
    = schedule [agentA; agentB] 1 rounds.
Proof.
  destruct (turns_follow_schedule chatty oneRound [agentA; agentB] None
              debateDB) as (rounds & _ & Hslots & _).
  - vm_compute. discriminate.
  - now exists rounds.
Defined.

(** ** The prompts *)

Lemma Contains_here3 (p q r rest : string) :
  strings.Contains (p ++ q ++ r ++ rest) (p ++ q ++ r) = true.
Proof.
  replace (p ++ q ++ r ++ rest) with ((p ++ q ++ r) ++ rest).
  - apply Contains_here.
  - now rewrite <- !append_assoc.
Qed.

Lemma Contains_concat (sep : string) (lines : list string) (x sub : string) :
  In x lines -> strings.Contains x sub = true ->
  strings.Contains (String.concat sep lines) sub = true.
Proof.
  intros Hin Hx. induction lines as [|y lines IH]; [contradiction |].
  destruct lines as [|z lines].
  - destruct Hin as [-> | []]. exact Hx.
  - change (String.concat sep (y :: z :: lines))
      with (y ++ sep ++ String.concat sep (z :: lines)).
    destruct Hin as [-> | Hin].
    + now apply Contains_append_r.
    + apply Contains_skip, Contains_skip. now apply IH.
Qed.

Lemma closingLine_limitNotice (discussion : Discussion.t) (a b : string) :
  strings.Contains
    (a ++ b ++ ". DO NOT EXCEED "
     ++ fmt.Sprint (Discussion.MaxCharLimit discussion) ++ " CHARACTERS.")
    (limitNotice discussion) = true.
Proof.
  do 2 apply Contains_skip.
  change (strings.Contains
            (". " ++ "DO NOT EXCEED "
             ++ fmt.Sprint (Discussion.MaxCharLimit discussion)
             ++ " CHARACTERS" ++ ".")
            (limitNotice discussion) = true).
  apply Contains_skip, Contains_here3.
Qed.

Lemma guideline_limitNotice (discussion : Discussion.t) (rest : string) :
  strings.Contains
    ("- DO NOT EXCEED " ++ fmt.Sprint (Discussion.MaxCharLimit discussion)
     ++ " CHARACTERS" ++ rest)
    (limitNotice discussion) = true.
Proof.
  change (strings.Contains
            ("- " ++ "DO NOT EXCEED "
             ++ fmt.Sprint (Discussion.MaxCharLimit discussion)
             ++ " CHARACTERS" ++ rest)
            (limitNotice discussion) = true).
  apply Contains_skip, Contains_here3.
Qed.

(** X24: every prompt the engine builds, for a first turn, for a turn of a
    later round and for the moderator whatever the kind of interjection
    asked for, names the topic and carries the sentence that states the
    character limit of the debate. *)
Theorem prompts_state_topic_and_limit (discussion : Discussion.t)
    (round agentNum totalAgents : Z) (moderatorType contextStr : string) :
  Forall (fun prompt =>
            strings.Contains prompt (Discussion.Topic discussion) = true
            /\ strings.Contains prompt (limitNotice discussion) = true)
    [buildPrompt discussion;
     buildRoundPrompt discussion round agentNum totalAgents;
     buildModeratorPrompt discussion moderatorType contextStr].
Proof.
  repeat constructor.
  - unfold buildPrompt. do 2 apply Contains_skip. apply Contains_here.
  - unfold buildPrompt. do 25 apply Contains_skip.
    apply guideline_limitNotice.
  - unfold buildRoundPrompt. do 4 apply Contains_skip. apply Contains_here.
  - unfold buildRoundPrompt. do 31 apply Contains_skip.
    apply guideline_limitNotice.
  - unfold buildModeratorPrompt. cbv zeta.
    repeat match goal with
           | |- context [if ?b then _ else _] => destruct b
           end;
      rewrite ?append_assoc; do 2 apply Contains_skip;
      apply Contains_here.
  - unfold buildModeratorPrompt. cbv zeta.
    repeat match goal with
           | |- context [if ?b then _ else _] => destruct b
           end.
    1-4: rewrite !append_assoc; do 13 apply Contains_skip;
         unfold text;
         (eapply Contains_concat; [| apply closingLine_limitNotice]);
         cbn [In]; repeat (first [left; reflexivity | right]).
    rewrite !append_assoc. do 13 apply Contains_skip.
    apply closingLine_limitNotice.
Qed.

(** X25: the moderator is shown what it is asked to comment on only for an
    interim interjection, where the prompt quotes it; for every other kind
    (the opening, the round summary, the closing, an unknown kind) the
    prompt is the same whatever is passed. *)
Theorem moderator_prompt_quotes_only_interim (discussion : Discussion.t)
    (moderatorType : string) :
  (forall contextStr : string,
     strings.Contains (buildModeratorPrompt discussion "interim" contextStr)
       (dq ++ contextStr ++ dq) = true)
  /\ (moderatorType <> "interim" ->
      forall contextStr contextStr' : string,
        buildModeratorPrompt discussion moderatorType contextStr
        = buildModeratorPrompt discussion moderatorType contextStr').
Proof.
  split.
  - intros contextStr. unfold buildModeratorPrompt. cbv zeta.
    cbn [String.eqb Ascii.eqb Bool.eqb].
    rewrite !append_assoc. do 13 apply Contains_skip.
    unfold text. eapply Contains_concat; [| apply Contains_refl].
    cbn [In]. right. right. now left.
  - intros Hne contextStr contextStr'. unfold buildModeratorPrompt.
    apply String.eqb_neq in Hne. now rewrite Hne.
Qed.

Lemma moderator_prompt_quotes_only_interim_witness :
  buildModeratorPrompt oneRound "round_summary" "Round 2 completed"
  = buildModeratorPrompt oneRound "round_summary" "".
Proof.
  apply (proj2 (moderator_prompt_quotes_only_interim oneRound
                  "round_summary")).
  discriminate.
Defined.
